(** * Meine Rezepte: scaling, persistence and retry logic

    A shallow embedding of the client logic of the recipe assistant
    (the client module, functions [retryWithBackoff],
    [getShoppingList], [addToShoppingList], [toggleShoppingItem],
    [scaleIngredientLine], [saveDraft], [clearDraft], [getSavedRecipes],
    [saveRecipeToStorage], [removeRecipeFromStorage] and the click
    handler of [btn-generate]), together with the properties the
    specification states about them.

    Conventions of the embedding:
    - a JavaScript string is a [string]; its characters stand for code
      units below 256 (Latin-1), which covers German text;
    - a JavaScript number is an IEEE 754 binary64 value, [spec_float] with
      [prec = 53] and [emax = 1024], and arithmetic is the correctly
      rounded arithmetic of [SpecFloat];
    - a thrown exception is an explicit result ([Throw]);
    - [localStorage], the form fields, the answers to [confirm], the
      values of [Math.random] and the messages of the engine's
      [SyntaxError]s are fields of an explicit [World]. *)

From Stdlib Require Import ZArith QArith Qabs Qpower Lia Lqa Ascii String DecimalString
  DecimalN SpecFloat.
From stdpp Require Import base tactics option list strings.

Local Open Scope Z_scope.

(** String concatenation reduces on a constructor, as list
    concatenation does. *)
#[local] Arguments String.append !_ _ / : simpl nomatch.

(** ** Strings: the [String.prototype] methods the program calls *)

Module JsString.

Definition code (c : ascii) : N := N_of_ascii c.

(** [\d] of a regular expression without the [u] flag: [0-9]. *)
Definition is_digit (c : ascii) : bool :=
  ((48 <=? code c) && (code c <=? 57))%N.

(** The character class [[.,]]. *)
Definition is_sep (c : ascii) : bool :=
  (Ascii.eqb c "." || Ascii.eqb c ",")%char.

(** Upper-case letters of Latin-1: A-Z, and U+00C0..U+00DE without the
    multiplication sign U+00D7. Their lower-case form is 32 further. *)
Definition is_upper (c : ascii) : bool :=
  (((65 <=? code c) && (code c <=? 90))
   || ((192 <=? code c) && (code c <=? 222) && negb (code c =? 215)))%N.

Definition lower_char (c : ascii) : ascii :=
  if is_upper c then ascii_of_N (code c + 32) else c.

Fixpoint toLowerCase (s : string) : string :=
  match s with
  | EmptyString => EmptyString
  | String c s' => String (lower_char c) (toLowerCase s')
  end.

(** White space and line terminators below 256: TAB, LF, VT, FF, CR,
    SP and NBSP. *)
Definition is_space (c : ascii) : bool :=
  (((9 <=? code c) && (code c <=? 13)) || (code c =? 32) || (code c =? 160))%N.

Fixpoint trimStart (s : string) : string :=
  match s with
  | EmptyString => EmptyString
  | String c s' => if is_space c then trimStart s' else s
  end.

(** [trimEnd]: the tail is trimmed first; a white-space character
    stays exactly when something is left after it. *)
Fixpoint trimEnd (s : string) : string :=
  match s with
  | EmptyString => EmptyString
  | String c s' =>
      match trimEnd s' with
      | EmptyString => if is_space c then EmptyString else String c EmptyString
      | t => String c t
      end
  end.

Definition trim (s : string) : string := trimEnd (trimStart s).

(** Truthiness of a string: only the empty string is falsy. *)
Definition truthy (s : string) : bool :=
  match s with EmptyString => false | _ => true end.

(** [hay.includes(needle)]. *)
Fixpoint includes (needle hay : string) : bool :=
  String.prefix needle hay
  || match hay with
     | EmptyString => false
     | String _ hay' => includes needle hay'
     end.

(** [s.replace(c, d)] for one-character strings [c] and [d]: only the
    first occurrence is replaced. *)
Fixpoint replace_first (c d : ascii) (s : string) : string :=
  match s with
  | EmptyString => EmptyString
  | String a s' =>
      if Ascii.eqb a c then String d s' else String a (replace_first c d s')
  end.

(** [s.replace(/\.0$/, "")]: the pattern is anchored at the end of the
    input, so at most the last two characters go. *)
Fixpoint strip_dot_zero (s : string) : string :=
  match s with
  | EmptyString => EmptyString
  | String a s' =>
      if String.eqb s ".0" then EmptyString else String a (strip_dot_zero s')
  end.

(** Three observations on a text, for the properties: whether the
    character [c] occurs, how often it occurs, and whether all
    characters are digits. *)
Fixpoint contains (c : ascii) (s : string) : bool :=
  match s with
  | EmptyString => false
  | String a s' => Ascii.eqb a c || contains c s'
  end.

Fixpoint count (c : ascii) (s : string) : nat :=
  match s with
  | EmptyString => O
  | String a s' => ((if Ascii.eqb a c then 1 else 0) + count c s')%nat
  end.

Fixpoint all_digits (s : string) : bool :=
  match s with
  | EmptyString => true
  | String a s' => is_digit a && all_digits s'
  end.

End JsString.

(** ** Numbers: binary64 and the [Number] methods the program calls *)

Module JsNumber.

Definition number : Type := spec_float.

Definition prec : Z := 53.
Definition emax : Z := 1024.

Definition mul : number -> number -> number := SFmul prec emax.
Definition div : number -> number -> number := SFdiv prec emax.

(** [a === b] on numbers: [NaN] differs from itself, the two zeros
    are equal. *)
Definition strict_eq : number -> number -> bool := SFeqb.

(** [ToBoolean]: zero and [NaN] are falsy. *)
Definition truthy (x : number) : bool :=
  match x with
  | S754_zero _ | S754_nan => false
  | _ => true
  end.

Definition isNaN (x : number) : bool :=
  match x with S754_nan => true | _ => false end.

(** The binary64 value nearest to [p / q], ties to even: IEEE division
    carried out on the two integers themselves. *)
Definition nearest (p : Z) (q : positive) : number :=
  match p with
  | Z0 => S754_zero false
  | Zpos m => div (S754_finite false m 0) (S754_finite false q 0)
  | Zneg m => div (S754_finite true m 0) (S754_finite false q 0)
  end.

Definition of_Z (z : Z) : number := nearest z 1.

(** *** Decimal digits *)

Definition digit_value (c : ascii) : Z := Z.of_N (JsString.code c) - 48.

(** Value of a string of digits, most significant first, on top of
    the accumulator [acc]. *)
Fixpoint digits_value (acc : Z) (s : string) : Z :=
  match s with
  | EmptyString => acc
  | String c s' => digits_value (10 * acc + digit_value c) s'
  end.

(** The longest prefix of digits, and what follows it. *)
Fixpoint span_digits (s : string) : string * string :=
  match s with
  | EmptyString => (EmptyString, EmptyString)
  | String c s' =>
      if JsString.is_digit c
      then let '(ds, r) := span_digits s' in (String c ds, r)
      else (EmptyString, s)
  end.

(** [parseFloat] on unsigned decimal text without exponent, which is
    all the scaler hands to it: the longest prefix of the shape
    [digits], [digits.], [digits.digits] or [.digits] is read and
    rounded to the nearest number; without such a prefix the result is
    [NaN]. *)
Definition parseFloat (s : string) : number :=
  let '(ip, r) := span_digits s in
  let fp := match r with
            | String "." r' => fst (span_digits r')
            | _ => EmptyString
            end in
  match ip, fp with
  | EmptyString, EmptyString => S754_nan
  | _, _ =>
      nearest (digits_value (digits_value 0 ip) fp)
              (Z.to_pos (10 ^ Z.of_nat (String.length fp)))
  end.

(** Decimal text of a natural number, ["0"] for zero. *)
Definition decimal (n : Z) : string :=
  NilZero.string_of_uint (N.to_uint (Z.to_N n)).

(** *** [Number.prototype.toFixed(1)] *)

(** The integer [n] for which [n / 10] is nearest to [m * 2^e]; of two
    equally near ones the larger. *)
Definition tenths (m : positive) (e : Z) : Z :=
  if 0 <=? e then 10 * Zpos m * 2 ^ e
  else (20 * Zpos m + 2 ^ (- e)) / (2 * 2 ^ (- e)).

(** [10^21 <= m * 2^e]. *)
Definition at_least_1e21 (m : positive) (e : Z) : bool :=
  if 0 <=? e then 10 ^ 21 <=? Zpos m * 2 ^ e
  else 10 ^ 21 * 2 ^ (- e) <=? Zpos m.

(** The digits of [n] with a point before the last one. *)
Definition fixed1 (n : Z) : string :=
  decimal (n / 10) +:+ "." +:+ decimal (n mod 10).

(** *** [Number::toString] of a number at or above [10^21]

    The shortest decimal that reads back as the same number, written
    in exponent notation. *)

Definition num_digits (n : Z) : Z := Z.of_nat (String.length (decimal n)).

(** With [k] significant digits, the two neighbours of [X] on the grid
    of step [10^(D-k)] that read back as [x], nearest first. *)
Definition candidates (x : number) (X D k : Z) : list Z :=
  let p := 10 ^ (D - k) in
  let lo := (X / p) * p in
  let hi := lo + p in
  let ok v := SFeqb (of_Z v) x in
  let lo_first :=
    (X - lo <? hi - X) || ((X - lo =? hi - X) && Z.even (lo / p)) in
  filter (fun v => ok v = true) (if lo_first then [lo; hi] else [hi; lo]).

Fixpoint shortest (x : number) (X D : Z) (fuel : nat) (k : Z) : Z :=
  match fuel with
  | O => X
  | S fuel' =>
      match candidates x X D k with
      | v :: _ => v
      | [] => shortest x X D fuel' (k + 1)
      end
  end.

Fixpoint strip_zeros (fuel : nat) (v : Z) : Z :=
  match fuel with
  | O => v
  | S fuel' => if (v mod 10 =? 0) && (0 <? v) then strip_zeros fuel' (v / 10) else v
  end.

Definition exponential (m : positive) (e : Z) : string :=
  let X := Zpos m * 2 ^ e in
  let v := shortest (S754_finite false m e) X (num_digits X) 17 1 in
  let n := num_digits v in
  let s := decimal (strip_zeros (Z.to_nat n) v) in
  match s with
  | String d EmptyString => String d "e+" +:+ decimal (n - 1)
  | String d rest => String d ("." +:+ rest) +:+ "e+" +:+ decimal (n - 1)
  | EmptyString => EmptyString
  end.

Definition toFixed1 (x : number) : string :=
  match x with
  | S754_nan => "NaN"
  | S754_infinity s => if s then "-Infinity" else "Infinity"
  | S754_zero _ => "0.0"
  | S754_finite s m e =>
      (if s then "-" else "")
      +:+ (if at_least_1e21 m e then exponential m e else fixed1 (tenths m e))
  end.

End JsNumber.

(** ** Recipe scaling *)

Module Scaling.
Import JsString JsNumber.

(** *** The pattern [/(\d+(?:[.,]\d+)?)/g]

    [match_number s] is the match of the pattern at the start of [s],
    with the rest of the input: as many digits as there are, then, when
    a separator and at least one digit follow, the separator and as
    many digits as there are. *)
Definition match_number (s : string) : option (string * string) :=
  let '(ip, r) := span_digits s in
  match ip with
  | EmptyString => None
  | _ =>
      match r with
      | String c r' =>
          if is_sep c then
            let '(fp, r'') := span_digits r' in
            match fp with
            | EmptyString => Some (ip, r)
            | _ => Some (ip +:+ String c fp, r'')
            end
          else Some (ip, r)
      | EmptyString => Some (ip, r)
      end
  end.

(** What a global scan sees: the matches, and between them single
    characters that belong to no match. *)
Inductive token : Type :=
| Text (c : ascii)
| Num (m : string).

(** A scan from left to right: after a match it goes on behind the
    match, where there is none it moves on by one character. Every
    step consumes input, so [String.length s] steps are enough. *)
Fixpoint scan_fuel (fuel : nat) (s : string) : list token :=
  match fuel with
  | O => []
  | S fuel' =>
      match s with
      | EmptyString => []
      | String c s' =>
          match match_number s with
          | Some (m, rest) => Num m :: scan_fuel fuel' rest
          | None => Text c :: scan_fuel fuel' s'
          end
      end
  end.

Definition scan (s : string) : list token := scan_fuel (String.length s) s.

Definition render (f : string -> string) (t : token) : string :=
  match t with
  | Text c => String c EmptyString
  | Num m => f m
  end.

Definition concat_strings (l : list string) : string :=
  foldr String.append EmptyString l.

(** [s.replace(/(\d+(?:[.,]\d+)?)/g, f)]. *)
Definition replace_numbers (f : string -> string) (s : string) : string :=
  concat_strings (render f <$> scan s).

(** The callback of [scaleIngredientLine]. *)
Definition scale_match (factor : number) (m : string) : string :=
  let hasComma := includes "," m in
  let num := parseFloat (replace_first "," "." m) in
  if isNaN num then m
  else
    let scaled := mul num factor in
    let formatted := strip_dot_zero (toFixed1 scaled) in
    if hasComma then replace_first "." "," formatted else formatted.

Definition scaleIngredientLine (line : string) (fromS toS : number) : string :=
  if negb (truthy fromS) || negb (truthy toS) || strict_eq fromS toS
  then line
  else
    let factor := div toS fromS in
    replace_numbers (scale_match factor) line.

End Scaling.

(** ** Exceptions and the world the program runs in *)

(** A thrown value: an [Error]-like object with its [name] and
    [message], or a primitive, given by the text [String(...)] makes of
    it. *)
Inductive thrown : Type :=
| ErrorObject (name message : string)
| Primitive (text : string).

Inductive completion (A : Type) : Type :=
| Return (a : A)
| Throw (e : thrown).
Arguments Return {A} a.
Arguments Throw {A} e.

(** The error [JSON.parse] throws; its message is the engine's and
    quotes the rejected text. *)
Definition SyntaxError (message : string) : thrown :=
  ErrorObject "SyntaxError" message.
Definition TypeError : thrown :=
  ErrorObject "TypeError" "Cannot read properties of undefined".

(** *** Persisted entities *)

Module ShoppingItem.
Record t : Type := mk { id : string; text : string; completed : bool }.
End ShoppingItem.

Module Recipe.
Record nutrition_t : Type :=
  mk_nutrition { calories : string; protein : string; carbs : string; fat : string }.

(** A number field at run time: a number, or the [null] that
    [JSON.parse] reads where [JSON.stringify] had no number to write. *)
Inductive numeric : Type :=
| Null
| Number (x : JsNumber.number).

Record t : Type := mk {
  id : string;
  recipeName : string;
  description : string;
  ingredients : list string;
  instructions : list string;
  servings : numeric;
  difficulty : option string;
  createdAt : numeric;
  nutrition : option nutrition_t
}.

(** [JSON.parse(JSON.stringify(x))] for a number field: [NaN] and the
    infinities are written as [null], and [-0] as [0]; any other number
    is written with the digits that read back as the same number. *)
Definition read_back_numeric (x : numeric) : numeric :=
  match x with
  | Null => Null
  | Number S754_nan => Null
  | Number (S754_infinity _) => Null
  | Number (S754_zero _) => Number (S754_zero false)
  | Number (S754_finite _ _ _) => x
  end.

(** [JSON.parse(JSON.stringify(r))]: strings, lists of strings and
    absent fields are read back as they were. *)
Definition read_back (r : t) : t :=
  mk (id r) (recipeName r) (description r) (ingredients r) (instructions r)
     (read_back_numeric (servings r)) (difficulty r)
     (read_back_numeric (createdAt r)) (nutrition r).
End Recipe.

(** The object [saveDraft] serialises; a field whose form element is
    missing is [undefined] and left out by [JSON.stringify]. *)
Module Draft.
Record t : Type := mk {
  prompt : string;
  difficulty : option string;
  servings : option string;
  wishes : option string
}.
End Draft.

(** *** [localStorage]

    The program reads a stored text only through [JSON.parse], and
    writes only [JSON.stringify] of a value of the entity's type. A
    stored text is therefore kept as the value it was written from:
    [Json v] is the text [JSON.stringify(v)], and [Malformed raw] is a
    text [JSON.parse] rejects. *)
Inductive blob (T : Type) : Type :=
| Malformed (raw : string)
| Json (v : T).
Arguments Malformed {T} raw.
Arguments Json {T} v.

(** What [JSON.parse] reads from the text [JSON.stringify(v)]. A
    shopping list and a draft hold strings, booleans and absent fields
    only, which are read back as they were written; a recipe holds
    numbers. *)
Class Json_value (T : Type) := read_back : T -> T.

#[global] Instance read_back_shopping : Json_value (list ShoppingItem.t) := fun l => l.
#[global] Instance read_back_draft : Json_value Draft.t := fun d => d.
#[global] Instance read_back_recipe : Json_value Recipe.t := Recipe.read_back.
#[global] Instance read_back_recipes : Json_value (list Recipe.t) :=
  fmap Recipe.read_back.

(** Truthiness of the stored string: only the empty string is falsy,
    and the empty string is not JSON. *)
Definition blob_truthy {T} (b : blob T) : bool :=
  match b with
  | Malformed raw => JsString.truthy raw
  | Json _ => true
  end.

(** The three keys the program uses; [None] is an absent key. *)
Record Storage : Type := {
  savedRecipes : option (blob (list Recipe.t));
  shoppingList : option (blob (list ShoppingItem.t));
  recipeDraft : option (blob Draft.t)
}.

(** The [value] of the form elements; [None] where [getElementById]
    finds no element. *)
Record Form : Type := {
  promptInput : option string;
  difficultySelect : option string;
  servingsInput : option string;
  wishesInput : option string;
  recipeOutput : bool
}.

(** What [callChef] hands back besides [null]: a recipe of the response
    schema, or the empty object that [JSON.parse("{}")] yields when the
    reply carries no text. *)
Inductive reply : Type :=
| RecipeReply (r : Recipe.t)
| EmptyObject.

(** Effects on the page and on the clock, in the order they happen. *)
Inductive event : Type :=
| Waited (ms : Z)
| RenderedShoppingList
| UpdatedSavedCount
| RenderedSavedRecipes
| RenderedRecipe (r : Recipe.t)
| DraftNotification (hidden : bool)
| Toast (msg : string)
| Loading (on : bool)
| Logged (action : string).

Record World : Type := {
  localStorage : Storage;
  form : Form;
  (** the user's answer to [confirm(msg)] *)
  confirm_answer : string -> bool;
  (** [Math.random().toString(36).substr(2, 9)] of the n-th call *)
  random_id : nat -> string;
  random_calls : nat;
  (** outcome of the n-th [generateContent] request: an exception, or
      the [text] of the response *)
  ai_outcome : nat -> completion (option (blob Recipe.t));
  ai_calls : nat;
  (** the message of the [SyntaxError] that [JSON.parse] throws on a
      text it rejects *)
  json_error : string -> string;
  events : list event
}.

Definition set_localStorage (f : Storage -> Storage) (w : World) : World :=
  {| localStorage := f (localStorage w); form := form w;
     confirm_answer := confirm_answer w;
     random_id := random_id w; random_calls := random_calls w;
     ai_outcome := ai_outcome w; ai_calls := ai_calls w;
     json_error := json_error w;
     events := events w |}.

Definition add_event (ev : event) (w : World) : World :=
  {| localStorage := localStorage w; form := form w;
     confirm_answer := confirm_answer w;
     random_id := random_id w; random_calls := random_calls w;
     ai_outcome := ai_outcome w; ai_calls := ai_calls w;
     json_error := json_error w;
     events := events w ++ [ev] |}.

(** *** The monad of effectful code: state and exceptions *)

Definition JS (A : Type) : Type := World -> completion A * World.

#[global] Instance JS_ret : MRet JS := fun A a w => (Return a, w).
#[global] Instance JS_bind : MBind JS := fun A B f m w =>
  match m w with
  | (Return a, w') => f a w'
  | (Throw e, w') => (Throw e, w')
  end.

Definition throw {A} (e : thrown) : JS A := fun w => (Throw e, w).

(** [try { body } catch (e) { handler e }] *)
Definition try_catch {A} (body : JS A) (handler : thrown -> JS A) : JS A :=
  fun w =>
    match body w with
    | (Return a, w') => (Return a, w')
    | (Throw e, w') => handler e w'
    end.

Definition get {A} (f : World -> A) : JS A := fun w => (Return (f w), w).
Definition modify (f : World -> World) : JS unit := fun w => (Return tt, f w).
Definition emit (ev : event) : JS unit := modify (add_event ev).

(** [for (x of xs) acc = body(acc, x)] *)
Fixpoint forEach {A B} (body : A -> B -> JS A) (acc : A) (xs : list B) : JS A :=
  match xs with
  | [] => mret acc
  | x :: xs' => acc' ← body acc x; forEach body acc' xs'
  end.

(** [JSON.stringify(v)]: the text of [v]. *)
Definition JSON_stringify {T} (v : T) : blob T := Json v.

(** [JSON.parse(data)]: a text that is not JSON is rejected with the
    engine's message for it; the text of [v] yields [v] as far as JSON
    holds it. *)
Definition JSON_parse {T} `{Json_value T} (data : blob T) : JS T :=
  match data with
  | Malformed raw =>
      message ← get (fun w => json_error w raw);
      throw (SyntaxError message)
  | Json v => mret (read_back v)
  end.

Definition confirm (msg : string) : JS bool :=
  get (fun w => confirm_answer w msg).

Definition Math_random_id : JS string := fun w =>
  (Return (random_id w (random_calls w)),
   {| localStorage := localStorage w; form := form w;
      confirm_answer := confirm_answer w;
      random_id := random_id w; random_calls := S (random_calls w);
      ai_outcome := ai_outcome w; ai_calls := ai_calls w;
      json_error := json_error w;
      events := events w |}).

(** ** Retry with backoff *)

Section Retry.
(** The wrapper knows nothing of the operation but its outcome, and of
    the clock only that it waits: both act on a state [W]. *)
Context {W T : Type}.
Variable wait : Z -> W -> W.
Variable operation : W -> completion T * W.

(** [error?.message || String(error)] *)
Definition errorStr (error : thrown) : string :=
  match error with
  | ErrorObject name message =>
      if JsString.truthy message then message
      else if JsString.truthy name then name else message
  | Primitive text => text
  end.

Definition isRateLimit (error : thrown) : bool :=
  JsString.includes "429" (errorStr error)
  || JsString.includes "Quota" (errorStr error).

Definition serverLimit : thrown := ErrorObject "Error" "Server-Limit erreicht.".

(** The loop [for (let i = 0; i < maxRetries; i++)], entered with [i]
    and with [left] iterations to go, [left = maxRetries - i];
    [maxRetries] is a whole number, the program calls the wrapper with
    the default [3] only. *)
Fixpoint attempts (maxRetries : Z) (left : nat) (i delay : Z) (w : W)
  : completion T * W :=
  match left with
  | O => (Throw serverLimit, w)
  | S left' =>
      match operation w with
      | (Return v, w') => (Return v, w')
      | (Throw error, w') =>
          if isRateLimit error && (i <? maxRetries - 1)
          then attempts maxRetries left' (i + 1) (delay * 2) (wait delay w')
          else (Throw error, w')
      end
  end.

Definition retryWithBackoff (maxRetries : Z) (w : W) : completion T * W :=
  attempts maxRetries (Z.to_nat maxRetries) 0 3000 w.

End Retry.

(** The wrapper's view of an operation and a clock that keep books: the
    number of invocations so far and the waits so far. *)
Definition counted {W T} (operation : W -> completion T * W)
  : W * nat * list Z -> completion T * (W * nat * list Z) :=
  fun '(w, n, waits) =>
    let '(r, w') := operation w in (r, (w', S n, waits)).

Definition recorded_wait {W} (ms : Z) : W * nat * list Z -> W * nat * list Z :=
  fun '(w, n, waits) => (w, n, waits ++ [ms]).

(** The same with one log for both, which keeps the order of
    invocations and waits; the wait itself may act on the state. *)
Inductive step : Type :=
| Invocation
| Sleep (ms : Z).

Definition traced {W T} (operation : W -> completion T * W)
  : W * list step -> completion T * (W * list step) :=
  fun '(w, log) =>
    let '(r, w') := operation w in (r, (w', log ++ [Invocation])).

Definition traced_wait {W} (wait : Z -> W -> W) (ms : Z)
  : W * list step -> W * list step :=
  fun '(w, log) => (wait ms w, log ++ [Sleep ms]).

(** ** Shopping list *)

Definition getItem {A} (key : Storage -> option A) : JS (option A) :=
  get (fun w => key (localStorage w)).

Definition set_shoppingList (v : option (blob (list ShoppingItem.t))) (s : Storage) : Storage :=
  {| savedRecipes := savedRecipes s; shoppingList := v; recipeDraft := recipeDraft s |}.

Definition set_savedRecipes (v : option (blob (list Recipe.t))) (s : Storage) : Storage :=
  {| savedRecipes := v; shoppingList := shoppingList s; recipeDraft := recipeDraft s |}.

Definition set_recipeDraft (v : option (blob Draft.t)) (s : Storage) : Storage :=
  {| savedRecipes := savedRecipes s; shoppingList := shoppingList s; recipeDraft := v |}.

Definition getShoppingList : JS (list ShoppingItem.t) :=
  data ← getItem shoppingList;
  try_catch
    (match data with
     | Some d => if blob_truthy d then JSON_parse d else mret []
     | None => mret []
     end)
    (fun _ => mret []).

Definition renderShoppingList : JS unit := emit RenderedShoppingList.

Definition saveShoppingList (list : list ShoppingItem.t) : JS unit :=
  modify (set_localStorage (set_shoppingList (Some (JSON_stringify list))));;
  renderShoppingList.

(** [a.toLowerCase() === b.toLowerCase()] *)
Definition same_text (a b : string) : bool :=
  String.eqb (JsString.toLowerCase a) (JsString.toLowerCase b).

(** The callback of [items.forEach]; it pushes onto [current]. *)
Definition add_text (current : list ShoppingItem.t) (text : string)
  : JS (list ShoppingItem.t) :=
  if negb (existsb (fun item => same_text (ShoppingItem.text item) text) current)
  then id ← Math_random_id;
       mret (current ++ [ShoppingItem.mk id text false])
  else mret current.

Definition addToShoppingList (items : list string) : JS unit :=
  current ← getShoppingList;
  current ← forEach add_text current items;
  saveShoppingList current.

(** The invariant of the shopping list: no two items have texts that
    are equal once lower-cased. *)
Definition distinct_texts (l : list ShoppingItem.t) : Prop :=
  NoDup ((fun item => JsString.toLowerCase (ShoppingItem.text item)) <$> l).

Definition toggle (item : ShoppingItem.t) : ShoppingItem.t :=
  ShoppingItem.mk (ShoppingItem.id item) (ShoppingItem.text item)
                  (negb (ShoppingItem.completed item)).

(** [list.find] yields the first item with the id; the assignment to
    its [completed] changes the element of [list] at that index. *)
Definition toggleShoppingItem (id : string) : JS unit :=
  list ← getShoppingList;
  match list_find (fun i => ShoppingItem.id i = id) list with
  | Some (index, item) => saveShoppingList (<[index := toggle item]> list)
  | None => mret tt
  end.

(** ** Draft *)

Definition saveDraft : JS unit :=
  p ← get (fun w => promptInput (form w));
  match p with
  | Some p =>
      if JsString.truthy p && JsString.truthy (JsString.trim p) then
        f ← get form;
        modify (set_localStorage (set_recipeDraft (Some (JSON_stringify
          (Draft.mk p (difficultySelect f) (servingsInput f) (wishesInput f))))))
      else modify (set_localStorage (set_recipeDraft None))
  | None => modify (set_localStorage (set_recipeDraft None))
  end.

Definition clearDraft : JS unit :=
  modify (set_localStorage (set_recipeDraft None));;
  emit (DraftNotification true).

Definition checkForDraft : JS unit :=
  draft ← getItem recipeDraft;
  match draft with
  | Some d => if blob_truthy d then emit (DraftNotification false) else mret tt
  | None => mret tt
  end.

(** ** Saved recipes *)

Definition getSavedRecipes : JS (list Recipe.t) :=
  data ← getItem savedRecipes;
  try_catch
    (match data with
     | Some d => if blob_truthy d then JSON_parse d else mret []
     | None => mret []
     end)
    (fun _ => mret []).

Definition updateSavedCount : JS unit := emit UpdatedSavedCount.
Definition renderSavedRecipes : JS unit := emit RenderedSavedRecipes.

(** The text of the overwrite question; U+00DC is code unit 220. *)
Definition overwrite_question : string :=
  String (ascii_of_N 220) "berschreiben?".

(** [saved[index] = r] with the result of [findIndex]: [-1], here
    [None], names no element and leaves the elements as they are. *)
Definition assign_at {A} (index : option (nat * A)) (r : A) (l : list A) : list A :=
  match index with
  | Some (i, _) => <[i := r]> l
  | None => l
  end.

Definition saveRecipeToStorage (r : Recipe.t) : JS bool :=
  saved ← getSavedRecipes;
  saved' ←
    (if existsb (fun sr => String.eqb (Recipe.recipeName sr) (Recipe.recipeName r)) saved
     then
       ok ← confirm overwrite_question;
       if negb ok then mret None
       else
         let index := list_find (fun sr => Recipe.recipeName sr = Recipe.recipeName r) saved in
         mret (Some (assign_at index r saved))
     else mret (Some (saved ++ [r])));
  match saved' with
  | None => mret false
  | Some saved =>
      modify (set_localStorage (set_savedRecipes (Some (JSON_stringify saved))));;
      updateSavedCount;;
      mret true
  end.

Definition removeRecipeFromStorage (name : string) : JS unit :=
  saved ← getSavedRecipes;
  let filtered :=
    List.filter (fun r => negb (same_text (Recipe.recipeName r) name)) saved in
  modify (set_localStorage (set_savedRecipes (Some (JSON_stringify filtered))));;
  updateSavedCount;;
  renderSavedRecipes.

(** ** The recipe request *)

Definition showToast (msg : string) : JS unit := emit (Toast msg).
Definition logAction (type : string) : JS unit := emit (Logged type).
Definition startLoading : JS unit := emit (Loading true).
Definition stopLoading : JS unit := emit (Loading false).

(** [ai.models.generateContent(...)]: the next outcome of the service. *)
Definition generateContent : JS (option (blob Recipe.t)) := fun w =>
  (ai_outcome w (ai_calls w),
   {| localStorage := localStorage w; form := form w;
      confirm_answer := confirm_answer w;
      random_id := random_id w; random_calls := random_calls w;
      ai_outcome := ai_outcome w; ai_calls := S (ai_calls w);
      json_error := json_error w;
      events := events w |}).

(** The payload of a ['generate'] request. *)
Record payload : Type := {
  payload_prompt : string;
  payload_difficulty : option string;
  payload_servings : option string;
  payload_wishes : option string
}.

(** [callChef] for a ['generate'] payload; the reply is
    [JSON.parse(response.text || "{}")]. *)
Definition callChef (p : payload) : JS (option reply) :=
  logAction "AI_REQUEST_START";;
  try_catch
    (r ← retryWithBackoff (fun ms => add_event (Waited ms))
           (response ← generateContent;
            match response with
            | Some text =>
                if blob_truthy text then r ← JSON_parse text; mret (RecipeReply r)
                else mret EmptyObject
            | None => mret EmptyObject
            end)
           3;
     mret (Some r))
    (fun e =>
       logAction "AI_EXCEPTION";;
       showToast "Fehler bei der KI-Anfrage.";;
       mret None).

(** [renderRecipeOutput]: without the output element nothing happens;
    building the card reads [r.ingredients.map], which the empty object
    does not have. *)
Definition renderRecipeOutput (r : reply) : JS unit :=
  out ← get (fun w => recipeOutput (form w));
  if negb out then mret tt
  else
    match r with
    | RecipeReply r => emit (RenderedRecipe r)
    | EmptyObject => throw TypeError
    end.

(** The click handler of [btn-generate]. *)
Definition generate_click : JS unit :=
  p ← get (fun w => promptInput (form w));
  match p with
  | Some p =>
      if negb (JsString.truthy p) then showToast "Bitte gib etwas ein!"
      else
        startLoading;;
        f ← get form;
        recipe ← callChef {| payload_prompt := p;
                            payload_difficulty := difficultySelect f;
                            payload_servings := servingsInput f;
                            payload_wishes := wishesInput f |};
        stopLoading;;
        match recipe with
        | Some recipe => renderRecipeOutput recipe;; clearDraft
        | None => mret tt
        end
  | None => showToast "Bitte gib etwas ein!"
  end.

(** * Vocabulary of the properties *)

(** ** Stored collections and the draft *)

(** The list a stored collection is read as: what [JSON.parse] reads
    from a JSON text, nothing otherwise. *)
Definition read_blob {T} `{Json_value (list T)} (data : option (blob (list T)))
  : list T :=
  match data with
  | Some (Json l) => read_back l
  | _ => []
  end.

(** The world after [saveDraft] wrote the draft of the form. *)
Definition draft_written (p : string) (w : World) : World :=
  set_localStorage
    (set_recipeDraft
       (Some (Json (Draft.mk p (difficultySelect (form w)) (servingsInput (form w))
                             (wishesInput (form w)))))) w.

(** The world after the draft was removed. *)
Definition draft_removed (w : World) : World :=
  set_localStorage (set_recipeDraft None) w.

(** ** Scaling *)

(** The texts the pattern matches: digits, or digits, a separator and
    digits. *)
Definition number_text (m : string) : Prop :=
  exists ip : string,
    JsString.all_digits ip = true /\ ip <> ""
    /\ (m = ip
        \/ exists (c : ascii) (fp : string),
            JsString.is_sep c = true /\ JsString.all_digits fp = true /\ fp <> ""
            /\ m = ip +:+ String c fp).

(** The rewriting of a match as the specification words it: parse with
    [','] read as ['.'], multiply by the factor, round to one decimal
    place, strip a trailing [".0"], and put [','] back when the match
    had one. *)
Definition spec_rewrite (factor : JsNumber.number) (m : string) : string :=
  let value := JsNumber.parseFloat (JsString.replace_first "," "." m) in
  let scaled := JsNumber.mul value factor in
  let rounded := JsNumber.toFixed1 scaled in
  let stripped := JsString.strip_dot_zero rounded in
  if JsString.contains "," m then JsString.replace_first "." "," stripped
  else stripped.

(** The absolute value of a finite number, as a rational. *)
Definition magnitude (x : JsNumber.number) : Q :=
  match x with
  | S754_finite _ m e =>
      if 0 <=? e then inject_Z (Zpos m * 2 ^ e)
      else Zpos m # Z.to_pos (2 ^ (- e))
  | _ => 0%Q
  end.

(** The decimal text of [n / 10] with the tenth left out when it is
    zero, written with the separator [sep]. *)
Definition tenths_text (sep : ascii) (n : Z) : string :=
  JsNumber.decimal (n / 10)
  +:+ (if n mod 10 =? 0 then "" else String sep (JsNumber.decimal (n mod 10))).

(** The separator of a match: its comma, or else the point. *)
Definition separator_of (m : string) : ascii :=
  if JsString.contains "," m then ","%char else "."%char.

(** ** The round trip *)

(** The tokens of a scan with every match rewritten. *)
Definition map_numbers (f : string -> string) (ts : list Scaling.token)
  : list Scaling.token :=
  (fun t => match t with
            | Scaling.Num m => Scaling.Num (f m)
            | Scaling.Text c => Scaling.Text c
            end) <$> ts.

(** The text a list of tokens stands for. *)
Definition flatten (ts : list Scaling.token) : string :=
  Scaling.concat_strings (Scaling.render (fun m => m) <$> ts).

(** The pattern matches the whole of [m]. *)
Definition is_number (m : string) : bool :=
  match Scaling.match_number m with
  | Some (_, EmptyString) => true
  | _ => false
  end.

Definition has_fraction (m : string) : bool :=
  JsString.contains "." m || JsString.contains "," m.

(** After the number [m], the tokens [ts] leave the match as it is: no
    number follows at once, and after a number without fraction no
    separator with a number behind it. *)
Definition stays_apart (m : string) (ts : list Scaling.token) : bool :=
  match ts with
  | [] => true
  | Scaling.Num _ :: _ => false
  | Scaling.Text c :: ts' =>
      if JsString.is_sep c && negb (has_fraction m)
      then match ts' with Scaling.Num _ :: _ => false | _ => true end
      else true
  end.

(** A list of tokens that a scan of its own text gives back: the texts
    are no digits, the numbers are matches of the pattern and stay
    apart from what follows. *)
Fixpoint canonical (ts : list Scaling.token) : bool :=
  match ts with
  | [] => true
  | Scaling.Text c :: ts' => negb (JsString.is_digit c) && canonical ts'
  | Scaling.Num m :: ts' => is_number m && stays_apart m ts' && canonical ts'
  end.

(** The value a match denotes, as a rational. *)
Definition value_of (m : string) : Q :=
  magnitude (JsNumber.parseFloat (JsString.replace_first "," "." m)).

(** Two tokens as the round-trip claim relates them: the same text, or
    two numbers that differ by at most [0.1] for each of the two
    roundings. *)
Definition close_tokens (t t' : Scaling.token) : Prop :=
  match t, t' with
  | Scaling.Text c, Scaling.Text c' => c = c'
  | Scaling.Num m, Scaling.Num m' => (Qabs (value_of m' - value_of m) <= 2 # 10)%Q
  | _, _ => False
  end.

(** The round-trip claim as the specification states it. *)
Definition round_trip_claim : Prop :=
  forall (line : string) (a b : JsNumber.number),
    JsNumber.truthy a = true -> JsNumber.truthy b = true ->
    Forall2 close_tokens
      (Scaling.scan line)
      (Scaling.scan (Scaling.scaleIngredientLine (Scaling.scaleIngredientLine line a b) b a)).

(** Two tokens, the second as the round trip leaves the first: the
    same text, or two numbers within the bound given for the first. *)
Definition close_within (bound : string -> Q) (t t' : Scaling.token) : Prop :=
  match t, t' with
  | Scaling.Text c, Scaling.Text c' => c = c'
  | Scaling.Num m, Scaling.Num m' => (Qabs (value_of m' - value_of m) <= bound m)%Q
  | _, _ => False
  end.

(** The bound on the drift of the number [m] on the way from [a] to
    [b] servings and back: a twentieth for the second rounding to one
    decimal place, a twentieth scaled by [a / b] for the first, and the
    rounding of the binary arithmetic, of relative size [2^-44]. *)
Definition drift (a b : JsNumber.number) (m : string) : Q :=
  (1 + magnitude a / magnitude b) * (1 # 20)
  + (1 + value_of m + magnitude a / magnitude b) * (1 # 17592186044416).

(** The scaled value of a match. *)
Definition scaled (factor : JsNumber.number) (m : string) : JsNumber.number :=
  JsNumber.mul (JsNumber.parseFloat (JsString.replace_first "," "." m)) factor.

(** A number that [toFixed(1)] writes as plain digits: zero, or
    positive and below [10^21]. *)
Definition in_range (x : JsNumber.number) : bool :=
  match x with
  | S754_zero _ => true
  | S754_finite false m e => negb (JsNumber.at_least_1e21 m e)
  | _ => false
  end.

(** The tenths [toFixed(1)] writes for it. *)
Definition tenths_of (x : JsNumber.number) : Z :=
  match x with
  | S754_finite _ m e => JsNumber.tenths m e
  | _ => 0
  end.

(** A separator and a number follow at once. *)
Definition follows_at_once (ts : list Scaling.token) : bool :=
  match ts with
  | Scaling.Text c :: Scaling.Num _ :: _ => JsString.is_sep c
  | _ => false
  end.

(** No number of the list is followed at once by a separator and
    another number, as in ["1,5,5"] or ["1.5.2020"]. *)
Fixpoint spaced (ts : list Scaling.token) : bool :=
  match ts with
  | [] => true
  | Scaling.Num _ :: ts' => negb (follows_at_once ts') && spaced ts'
  | Scaling.Text _ :: ts' => spaced ts'
  end.

(** What every scan gives: the texts are no digits, and no number
    follows a number at once. *)
Fixpoint scanned (ts : list Scaling.token) : bool :=
  match ts with
  | [] => true
  | Scaling.Text c :: ts' => negb (JsString.is_digit c) && scanned ts'
  | Scaling.Num _ :: ts' =>
      match ts' with Scaling.Num _ :: _ => false | _ => true end && scanned ts'
  end.

(** *** Binary rounding *)

(** Powers of two as rationals. *)
Definition pow2 (e : Z) : Q := (2 ^ e)%Q.

(** [m * 2^e] *)
Definition dyadic (m e : Z) : Q := (inject_Z m * pow2 e)%Q.

(** [v] lies in the cell of [m] on the grid of step [2^e]. *)
Definition in_cell (m e : Z) (v : Q) : Prop :=
  (dyadic m e <= v /\ v < dyadic (m + 1) e)%Q.

Definition unit_roundoff : Q := pow2 (-52).
Definition smallest : Q := pow2 (-1074).

(** [x] is [v] rounded: off by at most one unit in the last place of
    [x], or by the smallest positive number. *)
Definition rounded (x v : Q) : Prop :=
  (Qabs (x - v) <= unit_roundoff * x + smallest)%Q.

(** The value of a number, zero for what is no finite number. *)
Definition val (x : spec_float) : Q :=
  match x with
  | S754_finite _ m e => dyadic (Zpos m) e
  | _ => 0%Q
  end.

(** Zero or finite. *)
Definition is_real (x : spec_float) : bool :=
  match x with
  | S754_zero _ | S754_finite _ _ _ => true
  | _ => false
  end.

(** * Vocabulary of the further properties *)

(** The wait after invocation [j + 1] of the retry loop, in ms. *)
Definition backoff (j : nat) : Z := 3000 * 2 ^ Z.of_nat j.



(** A text without digits. *)
Fixpoint no_digits (s : string) : bool :=
  match s with
  | EmptyString => true
  | String c s' => negb (JsString.is_digit c) && no_digits s'
  end.

(** The tokens of a text without digits: its characters. *)
Fixpoint texts (s : string) : list Scaling.token :=
  match s with
  | EmptyString => []
  | String c s' => Scaling.Text c :: texts s'
  end.

(** A text of zeros only. *)
Fixpoint all_zeros (s : string) : bool :=
  match s with
  | EmptyString => true
  | String c s' => Ascii.eqb c "0" && all_zeros s'
  end.

(** A number field that JSON holds as it is: [null], [0] and the
    finite numbers other than [-0]. *)
Definition json_holds (x : Recipe.numeric) : bool :=
  match x with
  | Recipe.Null => true
  | Recipe.Number (S754_finite _ _ _) => true
  | Recipe.Number (S754_zero s) => negb s
  | Recipe.Number _ => false
  end.

(** The operation [callChef] hands to the retry wrapper: one request,
    and the parsed text of the response. *)
Definition chef_request : JS reply :=
  response ← generateContent;
  match response with
  | Some text =>
      if blob_truthy text then r ← JSON_parse text; mret (RecipeReply r)
      else mret EmptyObject
  | None => mret EmptyObject
  end.

(** The world after one more request to the service. *)
Definition requested (w : World) : World := snd (generateContent w).

(** The payload the click handler builds from the form. *)
Definition payload_of (p : string) (f : Form) : payload :=
  {| payload_prompt := p;
     payload_difficulty := difficultySelect f;
     payload_servings := servingsInput f;
     payload_wishes := wishesInput f |}.

(** What stays the same between two worlds when only requests and
    page effects happened. *)
Definition same_data (w w' : World) : Prop :=
  localStorage w' = localStorage w /\ form w' = form w
  /\ confirm_answer w' = confirm_answer w
  /\ random_id w' = random_id w /\ random_calls w' = random_calls w
  /\ ai_outcome w' = ai_outcome w /\ json_error w' = json_error w.

(** * Example data *)

(** The operation of the examples: the state counts its invocations; it
    is rate-limited as long as fewer than [n] came before. *)
Definition flaky (n : nat) (calls : nat) : completion string * nat :=
  if (calls <? n)%nat
  then (Throw (ErrorObject "Error" "429 Too Many Requests"), S calls)
  else (Return "ok", S calls).

Definition empty_storage : Storage :=
  {| savedRecipes := None; shoppingList := None; recipeDraft := None |}.

Definition empty_form : Form :=
  {| promptInput := Some ""; difficultySelect := Some "leicht";
     servingsInput := Some "2"; wishesInput := Some ""; recipeOutput := true |}.

(** A fresh page: nothing stored, an empty form, a user who declines
    every question, and a service that is offline. *)
Definition fresh_world : World :=
  {| localStorage := empty_storage; form := empty_form;
     confirm_answer := fun _ => false;
     random_id := fun n => "id" +:+ JsNumber.decimal (Z.of_nat n);
     random_calls := 0;
     ai_outcome := fun _ => Throw (ErrorObject "Error" "Failed to fetch");
     ai_calls := 0;
     json_error := fun raw => "Unexpected token in JSON: " +:+ raw;
     events := [] |}.

Definition with_storage (s : Storage) (w : World) : World :=
  set_localStorage (fun _ => s) w.

Definition with_form (f : Form) (w : World) : World :=
  {| localStorage := localStorage w; form := f;
     confirm_answer := confirm_answer w;
     random_id := random_id w; random_calls := random_calls w;
     ai_outcome := ai_outcome w; ai_calls := ai_calls w;
     json_error := json_error w;
     events := events w |}.

Definition with_confirm (answer : string -> bool) (w : World) : World :=
  {| localStorage := localStorage w; form := form w;
     confirm_answer := answer;
     random_id := random_id w; random_calls := random_calls w;
     ai_outcome := ai_outcome w; ai_calls := ai_calls w;
     json_error := json_error w;
     events := events w |}.

Definition with_ai (outcome : nat -> completion (option (blob Recipe.t))) (w : World) : World :=
  {| localStorage := localStorage w; form := form w;
     confirm_answer := confirm_answer w;
     random_id := random_id w; random_calls := random_calls w;
     ai_outcome := outcome; ai_calls := ai_calls w;
     json_error := json_error w;
     events := events w |}.

Definition recipe_named (name : string) : Recipe.t :=
  Recipe.mk "r1" name "Einfache Nudeln" ["500g Nudeln"; "2 Dosen Tomaten"]
            ["Kochen"; "Mischen"] (Recipe.Number (JsNumber.of_Z 4)) None
            (Recipe.Number (JsNumber.of_Z 1700000000000)) None.

(** A recipe as a caller may pass it, with any numbers. *)
Definition recipe_with (servings createdAt : JsNumber.number) : Recipe.t :=
  Recipe.mk "r2" "Suppe" "Klare Suppe" ["1 l Wasser"] ["Kochen"]
            (Recipe.Number servings) None (Recipe.Number createdAt) None.

Definition milk : ShoppingItem.t := ShoppingItem.mk "a1" "Milch" false.
Definition eggs : ShoppingItem.t := ShoppingItem.mk "b2" "3 Eier" true.

(** A service that answers every request with the recipe [r]. *)
Definition answers_with (r : Recipe.t) (n : nat) : completion (option (blob Recipe.t)) :=
  Return (Some (Json r)).

(** A service that is rate-limited on its first [k] requests and then
    answers with the recipe [r]. *)
Definition limited_then (k : nat) (r : Recipe.t) (n : nat)
  : completion (option (blob Recipe.t)) :=
  if (n <? k)%nat then Throw (ErrorObject "Error" "429 Too Many Requests")
  else Return (Some (Json r)).

(** A service whose first reply is the text [raw], which is no JSON,
    and which answers with the recipe [r] from then on. *)
Definition garbled_then (raw : string) (r : Recipe.t) (n : nat)
  : completion (option (blob Recipe.t)) :=
  if (n <? 1)%nat then Return (Some (Malformed raw)) else Return (Some (Json r)).

(** A form with the prompt [p] typed in. *)
Definition typed_form (p : string) : Form :=
  {| promptInput := Some p; difficultySelect := Some "leicht";
     servingsInput := Some "2"; wishesInput := Some ""; recipeOutput := true |}.

(** * Properties *)

(** ** Retry with backoff *)

Section RetryFacts.
Context {W T : Type}.
Variable wait : Z -> W -> W.
Variable operation : W -> completion T * W.

Lemma serverLimit_not_rate_limit : isRateLimit serverLimit = false.
Proof. reflexivity. Qed.

(** A successful attempt ends the loop with its value. *)
Lemma attempts_success maxRetries left i delay w v w' :
  operation w = (Return v, w') ->
  attempts wait operation maxRetries (S left) i delay w = (Return v, w').
Proof. intros H. simpl. now rewrite H. Qed.

(** A rate-limited attempt that is not the last one waits [delay] and
    goes on with the doubled delay. *)
Lemma attempts_retry maxRetries left i delay w e w' :
  operation w = (Throw e, w') ->
  isRateLimit e = true ->
  i < maxRetries - 1 ->
  attempts wait operation maxRetries (S left) i delay w
  = attempts wait operation maxRetries left (i + 1) (delay * 2) (wait delay w').
Proof.
  intros H He Hi. simpl. rewrite H, He.
  destruct (Z.ltb_spec i (maxRetries - 1)); [reflexivity | lia].
Qed.

(** Any other failure is thrown on as it is. *)
Lemma attempts_rethrow maxRetries left i delay w e w' :
  operation w = (Throw e, w') ->
  isRateLimit e = false \/ maxRetries - 1 <= i ->
  attempts wait operation maxRetries (S left) i delay w = (Throw e, w').
Proof.
  intros H Hc. simpl. rewrite H.
  destruct Hc as [-> | Hi]; [reflexivity |].
  destruct (Z.ltb_spec i (maxRetries - 1)); [lia |].
  now rewrite andb_false_r.
Qed.

(** When every invocation is rate-limited, the loop ends in its last
    iteration by throwing what the operation threw there. *)
Lemma attempts_all_rate_limited maxRetries :
  (forall w, exists e w', operation w = (Throw e, w') /\ isRateLimit e = true) ->
  forall left i delay w,
    (left <> 0)%nat -> i + Z.of_nat left = maxRetries ->
    exists e w', attempts wait operation maxRetries left i delay w = (Throw e, w')
                 /\ isRateLimit e = true.
Proof.
  intros Hop left. induction left as [| left IH]; intros i delay w Hne Hi.
  - congruence.
  - destruct (Hop w) as (e & w' & Hw & He).
    destruct left as [| left'].
    + exists e, w'. split; [| exact He].
      apply attempts_rethrow; [exact Hw | right; lia].
    + rewrite (attempts_retry _ _ _ _ _ _ _ Hw He) by lia.
      apply IH; [discriminate | lia].
Qed.

End RetryFacts.

(** C4. An operation that is rate-limited on its first two invocations
    and succeeds on its third: with [maxRetries = 3] the wrapper returns
    the value of the third invocation, and what it has done is, in this
    order: the first invocation, a wait of 3000 ms, the second
    invocation, a wait of 6000 ms, the third invocation. So the
    operation is invoked exactly three times, 3000 ms pass before the
    second invocation and 6000 ms before the third, and the second and
    third invocation start in the state the wait before them left. *)
Theorem retry_succeeds_on_third_attempt :
  forall (W T : Type) (wait : Z -> W -> W) (operation : W -> completion T * W)
         (w0 w1 w2 w3 : W) (e1 e2 : thrown) (v : T),
    operation w0 = (Throw e1, w1) -> isRateLimit e1 = true ->
    operation (wait 3000 w1) = (Throw e2, w2) -> isRateLimit e2 = true ->
    operation (wait 6000 w2) = (Return v, w3) ->
    retryWithBackoff (traced_wait wait) (traced operation) 3 (w0, [])
    = (Return v, (w3, [Invocation; Sleep 3000; Invocation; Sleep 6000; Invocation])).
Proof.
  intros W T wait operation w0 w1 w2 w3 e1 e2 v H1 R1 H2 R2 H3.
  unfold retryWithBackoff. change (Z.to_nat 3) with 3%nat.
  rewrite (attempts_retry _ _ _ _ _ _ (w0, []) e1 (w1, [Invocation]));
    [| simpl; now rewrite H1 | exact R1 | lia].
  rewrite (attempts_retry _ _ _ _ _ _ _ e2 (w2, [Invocation; Sleep 3000; Invocation]));
    [| simpl; now rewrite H2 | exact R2 | lia].
  apply attempts_success. simpl. change (3000 * 2) with 6000. now rewrite H3.
Qed.

Lemma retry_succeeds_on_third_attempt_witness :
  retryWithBackoff (traced_wait (fun _ calls => calls)) (traced (flaky 2)) 3 (0%nat, [])
  = (Return "ok"%string,
     (3%nat, [Invocation; Sleep 3000; Invocation; Sleep 6000; Invocation])).
Proof.
  apply (retry_succeeds_on_third_attempt nat string (fun _ calls => calls) (flaky 2)
           0%nat 1%nat 2%nat 3%nat
           (ErrorObject "Error" "429 Too Many Requests")
           (ErrorObject "Error" "429 Too Many Requests") "ok"%string);
    reflexivity.
Defined.

(** C2. The code at the input the claim is about: an operation that is
    rate-limited on every invocation. For every [maxRetries >= 1] the
    wrapper ends by throwing the error of the operation's last
    invocation; that error mentions the rate limit, so it is not the
    error [serverLimit], which the statement after the loop would
    throw. *)
Theorem retry_exhausted_rethrows_last_error :
  forall (W T : Type) (wait : Z -> W -> W) (operation : W -> completion T * W)
         (maxRetries : Z) (w : W),
    1 <= maxRetries ->
    (forall w, exists e w', operation w = (Throw e, w') /\ isRateLimit e = true) ->
    exists e w',
      retryWithBackoff wait operation maxRetries w = (Throw e, w')
      /\ isRateLimit e = true
      /\ e <> serverLimit.
Proof.
  intros W T wait operation maxRetries w Hmax Hop.
  destruct (attempts_all_rate_limited wait operation maxRetries Hop
              (Z.to_nat maxRetries) 0 3000 w) as (e & w' & Hrun & He); [lia | lia |].
  exists e, w'. repeat split; [exact Hrun | exact He |].
  intros ->. discriminate He.
Qed.

Lemma retry_exhausted_rethrows_last_error_witness :
  retryWithBackoff recorded_wait (counted (flaky 5)) 3 (0%nat, 0%nat, [])
  = (Throw (ErrorObject "Error" "429 Too Many Requests"), (3%nat, 3%nat, [3000; 6000]))
  /\ exists e w',
      retryWithBackoff recorded_wait (counted (fun u : unit =>
        (@Throw string (ErrorObject "Error" "429 Too Many Requests"), u))) 3 (tt, 0%nat, [])
      = (Throw e, w')
      /\ isRateLimit e = true /\ e <> serverLimit.
Proof.
  split; [reflexivity |].
  apply (retry_exhausted_rethrows_last_error (unit * nat * list Z) string);
    [lia |].
  intros [[u n] waits]. eexists _, _. split; reflexivity.
Defined.

(** ** Stored collections *)

Ltac js_unfold :=
  unfold getItem, confirm, emit, modify, get, try_catch, throw, JSON_parse,
    mbind, mret, JS_bind, JS_ret in *.

Lemma getShoppingList_reads w :
  getShoppingList w = (Return (read_blob (shoppingList (localStorage w))), w).
Proof.
  unfold getShoppingList. js_unfold.
  destruct (shoppingList (localStorage w)) as [[raw | l] |]; simpl; try reflexivity.
  destruct (JsString.truthy raw); reflexivity.
Qed.

Lemma getSavedRecipes_reads w :
  getSavedRecipes w = (Return (read_blob (savedRecipes (localStorage w))), w).
Proof.
  unfold getSavedRecipes. js_unfold.
  destruct (savedRecipes (localStorage w)) as [[raw | l] |]; simpl; try reflexivity.
  destruct (JsString.truthy raw); reflexivity.
Qed.

(** What is read from the store has been through JSON: reading it
    back once more changes nothing. *)
Lemma read_back_numeric_idem x :
  Recipe.read_back_numeric (Recipe.read_back_numeric x) = Recipe.read_back_numeric x.
Proof. now destruct x as [| [[] | | |]]. Qed.

Lemma read_back_idem r : Recipe.read_back (Recipe.read_back r) = Recipe.read_back r.
Proof.
  unfold Recipe.read_back. cbn [Recipe.id Recipe.recipeName Recipe.description
    Recipe.ingredients Recipe.instructions Recipe.servings Recipe.difficulty
    Recipe.createdAt Recipe.nutrition].
  now rewrite !read_back_numeric_idem.
Qed.

Lemma read_back_fixed (l : list Recipe.t) :
  Forall (fun r => Recipe.read_back r = r) l -> read_back l = l.
Proof.
  unfold read_back, read_back_recipes. induction 1 as [| r l Hr _ IH]; [reflexivity |].
  rewrite fmap_cons, Hr, IH. reflexivity.
Qed.

Lemma read_blob_fixed (data : option (blob (list Recipe.t))) :
  Forall (fun r => Recipe.read_back r = r) (read_blob data).
Proof.
  destruct data as [[raw | l] |]; simpl; try constructor.
  unfold read_back, read_back_recipes. apply Forall_fmap, Forall_forall.
  intros r _. apply read_back_idem.
Qed.

Lemma getSavedRecipes_fixed w saved :
  getSavedRecipes w = (Return saved, w) ->
  Forall (fun r => Recipe.read_back r = r) saved.
Proof.
  rewrite getSavedRecipes_reads. intros H. injection H as <-. apply read_blob_fixed.
Qed.

(** C5. Reading a collection never throws: [getSavedRecipes] and
    [getShoppingList] return a list in every state of the storage and
    leave the world as it is, and the list is empty when the key is
    absent or holds text that is not JSON. *)
Theorem list_fails_soft :
  forall w : World,
    (exists l, getSavedRecipes w = (Return l, w))
    /\ (exists l, getShoppingList w = (Return l, w))
    /\ (savedRecipes (localStorage w) = None
        \/ (exists raw, savedRecipes (localStorage w) = Some (Malformed raw)) ->
        getSavedRecipes w = (Return [], w))
    /\ (shoppingList (localStorage w) = None
        \/ (exists raw, shoppingList (localStorage w) = Some (Malformed raw)) ->
        getShoppingList w = (Return [], w)).
Proof.
  intros w. rewrite getSavedRecipes_reads, getShoppingList_reads.
  repeat split; eauto.
  - intros [-> | [raw ->]]; reflexivity.
  - intros [-> | [raw ->]]; reflexivity.
Qed.

Lemma list_fails_soft_witness :
  let w := with_storage {| savedRecipes := Some (Malformed "[{recipeName:");
                           shoppingList := Some (Malformed "undefined");
                           recipeDraft := None |} fresh_world in
  getSavedRecipes w = (Return [], w) /\ getShoppingList w = (Return [], w).
Proof.
  intros w. destruct (list_fails_soft w) as (_ & _ & Hr & Hs).
  split; [apply Hr | apply Hs]; right; eexists; reflexivity.
Defined.

(** ** Shopping list *)

Lemma saveShoppingList_runs l w :
  saveShoppingList l w
  = (Return tt,
     add_event RenderedShoppingList
       (set_localStorage (set_shoppingList (Some (Json l))) w)).
Proof. reflexivity. Qed.

Lemma list_find_id_insert (l : list ShoppingItem.t) id index item :
  list_find (fun i => ShoppingItem.id i = id) l = Some (index, item) ->
  list_find (fun i => ShoppingItem.id i = id) (<[index := toggle item]> l)
  = Some (index, toggle item).
Proof.
  intros Hfind. apply list_find_Some in Hfind as (Hl & Hid & Hbefore).
  apply list_find_Some. split; [| split].
  - apply list_lookup_insert_eq. eapply lookup_lt_Some, Hl.
  - exact Hid.
  - intros j y Hj Hlt. rewrite list_lookup_insert_ne in Hj by lia.
    eapply Hbefore; eassumption.
Qed.

Lemma toggle_toggle item : toggle (toggle item) = item.
Proof. destruct item as [i t c]. unfold toggle. simpl. now rewrite negb_involutive. Qed.

(** C10. [toggleShoppingItem id] flips [completed] of the first item
    with that id and nothing else: the list keeps its length and every
    other position, the item keeps its id and text, the other
    collections stay as they are, and a second call gives back the
    original list. Without an item of that id the world is unchanged. *)
Theorem toggle_changes_only_completed :
  forall (w : World) (id : string) (l : list ShoppingItem.t),
    getShoppingList w = (Return l, w) ->
    (forall index item,
        list_find (fun i => ShoppingItem.id i = id) l = Some (index, item) ->
        exists w' l',
          toggleShoppingItem id w = (Return tt, w')
          /\ getShoppingList w' = (Return l', w')
          /\ length l' = length l
          /\ l' !! index = Some (toggle item)
          /\ ShoppingItem.id (toggle item) = ShoppingItem.id item
          /\ ShoppingItem.text (toggle item) = ShoppingItem.text item
          /\ ShoppingItem.completed (toggle item) = negb (ShoppingItem.completed item)
          /\ (forall j, j <> index -> l' !! j = l !! j)
          /\ savedRecipes (localStorage w') = savedRecipes (localStorage w)
          /\ recipeDraft (localStorage w') = recipeDraft (localStorage w)
          /\ exists w'',
              toggleShoppingItem id w' = (Return tt, w'')
              /\ getShoppingList w'' = (Return l, w''))
    /\ ((forall item, item ∈ l -> ShoppingItem.id item <> id) ->
        toggleShoppingItem id w = (Return tt, w)).
Proof.
  intros w id l Hread. rewrite getShoppingList_reads in Hread.
  injection Hread as Hl. split.
  - intros index item Hfind.
    pose proof (list_find_id_insert l id index item Hfind) as Hfind'.
    pose proof Hfind as (Hlook & _ & _)%list_find_Some.
    eexists _, (<[index := toggle item]> l). split; [| split].
    + unfold toggleShoppingItem. unfold mbind at 1, JS_bind.
      rewrite getShoppingList_reads, Hl, Hfind. apply saveShoppingList_runs.
    + rewrite getShoppingList_reads. reflexivity.
    + split; [apply length_insert |].
      split; [apply list_lookup_insert_eq; eapply lookup_lt_Some, Hlook |].
      split; [reflexivity |]. split; [reflexivity |]. split; [reflexivity |].
      split; [intros j Hj; now apply list_lookup_insert_ne |].
      split; [reflexivity |]. split; [reflexivity |].
      eexists. split.
      * unfold toggleShoppingItem. unfold mbind at 1, JS_bind.
        rewrite getShoppingList_reads.
        cbn [read_blob shoppingList localStorage add_event set_localStorage set_shoppingList].
        unfold read_back, read_back_shopping. rewrite Hfind'.
        apply saveShoppingList_runs.
      * rewrite getShoppingList_reads. simpl.
        rewrite list_insert_insert_eq, toggle_toggle, list_insert_id by exact Hlook.
        reflexivity.
  - intros Hnone. unfold toggleShoppingItem. unfold mbind at 1, JS_bind.
    rewrite getShoppingList_reads, Hl.
    destruct (list_find _ l) as [[index item] |] eqn:Hfind; [| reflexivity].
    apply list_find_Some in Hfind as (Hlook & Hid & _).
    exfalso. eapply Hnone; [| exact Hid]. eapply list_elem_of_lookup_2, Hlook.
Qed.

Lemma toggle_changes_only_completed_witness :
  let w := with_storage {| savedRecipes := None;
                           shoppingList := Some (Json [milk; eggs; milk]);
                           recipeDraft := None |} fresh_world in
  (exists w' l', toggleShoppingItem "a1" w = (Return tt, w')
                 /\ getShoppingList w' = (Return l', w')
                 /\ length l' = 3%nat
                 /\ l' !! 0%nat = Some (ShoppingItem.mk "a1" "Milch" true))
  /\ toggleShoppingItem "zz" w = (Return tt, w).
Proof.
  intros w.
  pose proof (toggle_changes_only_completed w "a1" [milk; eggs; milk] eq_refl) as [Hhit _].
  pose proof (toggle_changes_only_completed w "zz" [milk; eggs; milk] eq_refl) as [_ Hmiss].
  split.
  - destruct (Hhit 0%nat milk eq_refl) as (w' & l' & Hrun & Hread & Hlen & Hnew & _).
    exists w', l'. auto.
  - apply Hmiss. intros item Hin.
    repeat (apply elem_of_cons in Hin as [-> | Hin]; [discriminate |]).
    now apply elem_of_nil in Hin.
Defined.

Lemma same_text_true a b :
  same_text a b = true <-> JsString.toLowerCase a = JsString.toLowerCase b.
Proof. unfold same_text. apply String.eqb_eq. Qed.

(** [distinct_texts], read position by position: two positions whose
    texts compare equal without regard to case are one position. *)
Lemma distinct_texts_pairwise l :
  distinct_texts l <->
  forall i j a b, l !! i = Some a -> l !! j = Some b ->
                  same_text (ShoppingItem.text a) (ShoppingItem.text b) = true -> i = j.
Proof.
  unfold distinct_texts. rewrite NoDup_alt. split.
  - intros H i j a b Ha Hb Hs. apply same_text_true in Hs.
    apply (H i j (JsString.toLowerCase (ShoppingItem.text a))).
    + rewrite list_lookup_fmap, Ha. reflexivity.
    + rewrite list_lookup_fmap, Hb. simpl. now rewrite Hs.
  - intros H i j x Hi Hj. rewrite list_lookup_fmap in Hi, Hj.
    destruct (l !! i) as [a |] eqn:Ha; [| discriminate].
    destruct (l !! j) as [b |] eqn:Hb; [| discriminate].
    simpl in Hi, Hj. apply (H i j a b Ha Hb). apply same_text_true. congruence.
Qed.

Lemma existsb_same_text current text :
  existsb (fun item => same_text (ShoppingItem.text item) text) current = true
  <-> JsString.toLowerCase text
      ∈ (fun item => JsString.toLowerCase (ShoppingItem.text item)) <$> current.
Proof.
  rewrite existsb_exists, list_elem_of_fmap. split.
  - intros (item & Hin & Hs). apply same_text_true in Hs.
    exists item. split; [congruence | now apply list_elem_of_In].
  - intros (item & Hs & Hin). exists item.
    split; [now apply list_elem_of_In | apply same_text_true; congruence].
Qed.

(** One round of the loop: a text that is already there, whatever its
    case, is skipped; any other text is pushed with a fresh id. *)
Lemma add_text_runs current text w :
  exists current' w',
    add_text current text w = (Return current', w')
    /\ localStorage w' = localStorage w
    /\ (distinct_texts current -> distinct_texts current')
    /\ (existsb (fun item => same_text (ShoppingItem.text item) text) current = true ->
        current' = current)
    /\ (forall item, item ∈ current -> item ∈ current').
Proof.
  unfold add_text.
  destruct (existsb _ current) eqn:Hex; simpl.
  - exists current, w. repeat split; auto.
  - eexists _, _. split; [reflexivity |]. split; [reflexivity |].
    split; [| split; [discriminate |]].
    + unfold distinct_texts. rewrite fmap_app. intros Hnd.
      apply NoDup_app. split; [exact Hnd |]. split; [| apply NoDup_singleton].
      intros x Hx Hx'. apply list_elem_of_singleton in Hx'. subst x.
      apply existsb_same_text in Hx. simpl in Hx. congruence.
    + intros item Hin. apply elem_of_app. now left.
Qed.

Lemma forEach_add_text_runs items :
  forall current w,
  exists current' w',
    forEach add_text current items w = (Return current', w')
    /\ localStorage w' = localStorage w
    /\ (distinct_texts current -> distinct_texts current')
    /\ (Forall (fun text =>
                  existsb (fun item => same_text (ShoppingItem.text item) text) current
                  = true) items ->
        current' = current).
Proof.
  induction items as [| text items IH]; intros current w.
  - exists current, w. repeat split; auto.
  - destruct (add_text_runs current text w) as (c1 & w1 & Hrun & Hls & Hinv & Hskip & _).
    destruct (IH c1 w1) as (c2 & w2 & Hrun2 & Hls2 & Hinv2 & Hskip2).
    exists c2, w2. split; [| split; [congruence | split; [auto |]]].
    + simpl. unfold mbind, JS_bind. now rewrite Hrun.
    + intros Hall. apply Forall_cons in Hall as [Hhere Hrest].
      specialize (Hskip Hhere). subst c1. now apply Hskip2.
Qed.

(** C6. [addToShoppingList] keeps the invariant of the shopping list:
    from a list without two texts that are equal up to case, any batch
    of texts leads to such a list again. A batch whose texts all occur
    in the list already, up to case, leaves the list, and so its size,
    as it was. *)
Theorem add_keeps_texts_distinct :
  forall (w : World) (items : list string) (l : list ShoppingItem.t),
    getShoppingList w = (Return l, w) ->
    distinct_texts l ->
    exists w' l',
      addToShoppingList items w = (Return tt, w')
      /\ getShoppingList w' = (Return l', w')
      /\ distinct_texts l'
      /\ ((forall text, text ∈ items ->
             exists item, item ∈ l
                          /\ same_text (ShoppingItem.text item) text = true) ->
          l' = l /\ length l' = length l).
Proof.
  intros w items l Hread Hinv.
  rewrite getShoppingList_reads in Hread. injection Hread as Hl.
  destruct (forEach_add_text_runs items l w) as (l' & w1 & Hrun & Hls & Hinv' & Hskip).
  eexists _, l'. split; [| split; [| split]].
  - unfold addToShoppingList. unfold mbind at 1, JS_bind.
    rewrite getShoppingList_reads, Hl. unfold mbind, JS_bind. rewrite Hrun.
    apply saveShoppingList_runs.
  - rewrite getShoppingList_reads. reflexivity.
  - auto.
  - intros Hall. enough (l' = l) as -> by auto. apply Hskip.
    apply Forall_forall. intros text Hin.
    destruct (Hall text Hin) as (item & Hitem & Hs).
    apply existsb_exists. exists item. split; [now apply list_elem_of_In | exact Hs].
Qed.

Lemma add_keeps_texts_distinct_witness :
  let w := with_storage {| savedRecipes := None;
                           shoppingList := Some (Json [milk; eggs]);
                           recipeDraft := None |} fresh_world in
  (exists w' l', addToShoppingList ["MILCH"; "Butter"; "butter"] w = (Return tt, w')
                 /\ getShoppingList w' = (Return l', w')
                 /\ distinct_texts l')
  /\ (exists w' l', addToShoppingList ["MILCH"] w = (Return tt, w')
                    /\ getShoppingList w' = (Return l', w')
                    /\ length l' = 2%nat).
Proof.
  intros w.
  assert (Hinv : distinct_texts [milk; eggs]).
  { unfold distinct_texts. apply NoDup_cons. split; [| apply NoDup_singleton].
    intros Hin%list_elem_of_singleton. discriminate Hin. }
  split.
  - destruct (add_keeps_texts_distinct w ["MILCH"; "Butter"; "butter"] [milk; eggs]
                eq_refl Hinv) as (w' & l' & Hrun & Hread & Hinv' & _).
    exists w', l'. auto.
  - destruct (add_keeps_texts_distinct w ["MILCH"] [milk; eggs] eq_refl Hinv)
      as (w' & l' & Hrun & Hread & _ & Hsame).
    exists w', l'. split; [exact Hrun | split; [exact Hread |]].
    apply Hsame. intros text Hin. apply list_elem_of_singleton in Hin. subst text.
    exists milk. split; [apply elem_of_cons; now left | reflexivity].
Defined.

(** ** Draft *)

Lemma trimEnd_blank s : JsString.trimEnd s = "" <-> forallb JsString.is_space (list_ascii_of_string s) = true.
Proof.
  induction s as [| c s IH]; simpl; [tauto |].
  destruct (JsString.trimEnd s) eqn:Ht.
  - destruct (JsString.is_space c); simpl; [tauto | split; discriminate].
  - split; [discriminate |]. intros H. apply andb_true_iff in H as [_ H].
    apply IH in H. discriminate.
Qed.

Lemma trimStart_blank s :
  forallb JsString.is_space (list_ascii_of_string (JsString.trimStart s))
  = forallb JsString.is_space (list_ascii_of_string s).
Proof.
  induction s as [| c s IH]; simpl; [reflexivity |].
  destruct (JsString.is_space c) eqn:Hc; simpl; [exact IH | now rewrite Hc].
Qed.

(** The trimmed text is empty exactly for a text of white space only. *)
Lemma trim_blank s :
  JsString.trim s = "" <-> forallb JsString.is_space (list_ascii_of_string s) = true.
Proof. unfold JsString.trim. now rewrite trimEnd_blank, trimStart_blank. Qed.

Lemma truthy_not_empty s : JsString.truthy s = true <-> s <> "".
Proof. destruct s; simpl; split; congruence. Qed.

Lemma trim_not_empty p : JsString.trim p <> "" -> p <> "".
Proof. intros H ->. now apply H. Qed.

Lemma clearDraft_runs w :
  clearDraft w = (Return tt, add_event (DraftNotification true) (draft_removed w)).
Proof. reflexivity. Qed.

(** C9. The draft lives in the one slot [recipeDraft]. When the prompt
    is not empty after trimming, [saveDraft] leaves in that slot the
    text of the record with the prompt as typed and the three other
    fields of the form, whatever the slot held before. When the prompt
    is empty or blank, or the prompt field is missing, it leaves the
    slot empty. In all three cases the saved recipes, the shopping list,
    the form and the page stay as they are: the world afterwards differs
    in that slot only. A click on [btn-generate] that gets a recipe from
    [callChef] leaves the slot empty. *)
Theorem draft_lifecycle :
  forall w : World,
    (forall p, promptInput (form w) = Some p -> JsString.trim p <> "" ->
       exists w',
         saveDraft w = (Return tt, w')
         /\ recipeDraft (localStorage w')
            = Some (Json (Draft.mk p (difficultySelect (form w))
                                   (servingsInput (form w)) (wishesInput (form w))))
         /\ savedRecipes (localStorage w') = savedRecipes (localStorage w)
         /\ shoppingList (localStorage w') = shoppingList (localStorage w)
         /\ form w' = form w
         /\ events w' = events w
         /\ w' = draft_written p w)
    /\ (promptInput (form w) = None
        \/ (exists p, promptInput (form w) = Some p /\ JsString.trim p = "") ->
        exists w',
          saveDraft w = (Return tt, w')
          /\ recipeDraft (localStorage w') = None
          /\ savedRecipes (localStorage w') = savedRecipes (localStorage w)
          /\ shoppingList (localStorage w') = shoppingList (localStorage w)
          /\ form w' = form w
          /\ events w' = events w
          /\ w' = draft_removed w)
    /\ (forall p r w1,
           promptInput (form w) = Some p -> p <> "" ->
           callChef {| payload_prompt := p;
                       payload_difficulty := difficultySelect (form w);
                       payload_servings := servingsInput (form w);
                       payload_wishes := wishesInput (form w) |}
                    (add_event (Loading true) w)
           = (Return (Some (RecipeReply r)), w1) ->
           exists w', generate_click w = (Return tt, w')
                      /\ recipeDraft (localStorage w') = None
                      /\ savedRecipes (localStorage w') = savedRecipes (localStorage w1)
                      /\ shoppingList (localStorage w') = shoppingList (localStorage w1)).
Proof.
  intros w. split; [| split].
  - intros p Hp Ht. exists (draft_written p w).
    split; [| repeat split].
    unfold saveDraft. js_unfold. rewrite Hp.
    pose proof (trim_not_empty p Ht) as Hne.
    apply truthy_not_empty in Ht, Hne. rewrite Ht, Hne. reflexivity.
  - intros Hblank. exists (draft_removed w).
    split; [| repeat split].
    unfold saveDraft. js_unfold.
    destruct Hblank as [Hp | (p & Hp & Ht)]; rewrite Hp; [reflexivity |].
    rewrite Ht. now rewrite andb_false_r.
  - intros p r w1 Hp Hne Hchef. apply truthy_not_empty in Hne.
    unfold generate_click, startLoading, stopLoading. js_unfold.
    rewrite Hp, Hne. cbn [negb]. cbv beta.
    change (form (add_event (Loading true) w)) with (form w).
    rewrite Hchef. unfold renderRecipeOutput, clearDraft. js_unfold. simpl.
    destruct (recipeOutput (form w1)); simpl; eexists; repeat split; reflexivity.
Qed.

Lemma draft_lifecycle_witness :
  let typed := with_form {| promptInput := Some " Pizza ";
                            difficultySelect := Some "leicht";
                            servingsInput := Some "2"; wishesInput := Some "";
                            recipeOutput := true |} fresh_world in
  let blank := with_form {| promptInput := Some "   ";
                            difficultySelect := Some "leicht";
                            servingsInput := Some "2"; wishesInput := Some "";
                            recipeOutput := true |} typed in
  let gone := with_form {| promptInput := None;
                           difficultySelect := None;
                           servingsInput := None; wishesInput := None;
                           recipeOutput := false |} typed in
  (exists w', saveDraft typed = (Return tt, w')
              /\ recipeDraft (localStorage w')
                 = Some (Json (Draft.mk " Pizza " (Some "leicht") (Some "2") (Some ""))))
  /\ (exists w', saveDraft (draft_written " Pizza " blank) = (Return tt, w')
                 /\ recipeDraft (localStorage w') = None)
  /\ (exists w', saveDraft (draft_written " Pizza " gone) = (Return tt, w')
                 /\ recipeDraft (localStorage w') = None)
  /\ exists w', generate_click
                  (with_ai (answers_with (recipe_named "Pizza")) (draft_written " Pizza " typed))
                = (Return tt, w')
                /\ recipeDraft (localStorage w') = None.
Proof.
  intros typed blank gone. split; [| split; [| split]].
  - destruct (proj1 (draft_lifecycle typed) " Pizza "%string eq_refl ltac:(discriminate))
      as (w' & Hrun & Hslot & _).
    exists w'. split; [exact Hrun | exact Hslot].
  - destruct (proj1 (proj2 (draft_lifecycle (draft_written " Pizza " blank))))
      as (w' & Hrun & Hslot & _).
    + right. exists "   "%string. split; reflexivity.
    + exists w'. split; [exact Hrun | exact Hslot].
  - destruct (proj1 (proj2 (draft_lifecycle (draft_written " Pizza " gone))))
      as (w' & Hrun & Hslot & _).
    + left. reflexivity.
    + exists w'. split; [exact Hrun | exact Hslot].
  - destruct (proj2 (proj2 (draft_lifecycle
                (with_ai (answers_with (recipe_named "Pizza"))
                         (draft_written " Pizza " typed))))
               " Pizza "%string (Recipe.read_back (recipe_named "Pizza"))
               (requested (add_event (Logged "AI_REQUEST_START")
                  (add_event (Loading true)
                     (with_ai (answers_with (recipe_named "Pizza"))
                              (draft_written " Pizza " typed)))))
               eq_refl ltac:(discriminate) eq_refl)
      as (w' & Hrun & Hslot & _).
    exists w'. split; [exact Hrun | exact Hslot].
Defined.

(** ** Saved recipes *)

Lemma existsb_recipeName (saved : list Recipe.t) name :
  existsb (fun sr => String.eqb (Recipe.recipeName sr) name) saved = true
  <-> exists sr, sr ∈ saved /\ Recipe.recipeName sr = name.
Proof.
  rewrite existsb_exists. split; intros (sr & H1 & H2).
  - exists sr. split; [now apply list_elem_of_In | now apply String.eqb_eq].
  - exists sr. split; [now apply list_elem_of_In | now apply String.eqb_eq].
Qed.

(** What [saveRecipeToStorage] does, with names compared as they are
    written: without a stored recipe of exactly the name of [r], [r] is
    appended; with one, the user is asked, a refusal leaves the world
    untouched and returns [false], a consent puts [r] at the position
    of the first such recipe. *)
Lemma saveRecipeToStorage_exact_name (w : World) (r : Recipe.t) (saved : list Recipe.t) :
  getSavedRecipes w = (Return saved, w) ->
  ((forall sr, sr ∈ saved -> Recipe.recipeName sr <> Recipe.recipeName r) ->
   saveRecipeToStorage r w
   = (Return true,
      add_event UpdatedSavedCount
        (set_localStorage (set_savedRecipes (Some (Json (saved ++ [r])))) w)))
  /\ (forall index sr,
         list_find (fun sr => Recipe.recipeName sr = Recipe.recipeName r) saved
         = Some (index, sr) ->
         (confirm_answer w overwrite_question = false ->
          saveRecipeToStorage r w = (Return false, w))
         /\ (confirm_answer w overwrite_question = true ->
             saveRecipeToStorage r w
             = (Return true,
                add_event UpdatedSavedCount
                  (set_localStorage
                     (set_savedRecipes (Some (Json (<[index := r]> saved)))) w)))).
Proof.
  intros Hread. rewrite getSavedRecipes_reads in Hread. injection Hread as Hsaved.
  split.
  - intros Hnone. unfold saveRecipeToStorage. unfold mbind at 1, JS_bind.
    rewrite getSavedRecipes_reads, Hsaved.
    destruct (existsb _ saved) eqn:Hex; [| reflexivity].
    apply existsb_recipeName in Hex as (sr & Hin & Hname).
    now destruct (Hnone sr Hin).
  - intros index sr Hfind.
    assert (Hex : existsb (fun sr => String.eqb (Recipe.recipeName sr) (Recipe.recipeName r))
                    saved = true).
    { apply list_find_Some in Hfind as (Hlook & Hname & _).
      apply existsb_recipeName. exists sr. split; [| exact Hname].
      eapply list_elem_of_lookup_2, Hlook. }
    split; intros Hanswer; unfold saveRecipeToStorage; unfold mbind at 1, JS_bind;
      rewrite getSavedRecipes_reads, Hsaved, Hex; js_unfold;
      rewrite Hanswer; simpl; [reflexivity |].
    now rewrite Hfind.
Qed.

(** C1. The code at the input the claim is about: a stored recipe
    "Pasta Pomodoro" and a recipe "pasta pomodoro" to save. The two
    names are equal without regard to case, yet no conflict is seen:
    whatever the user would answer, nobody is asked, the call returns
    [true] and the recipe is appended as a second entry.
    [removeRecipeFromStorage], which compares without regard to case,
    then removes both entries at once. *)
Theorem save_misses_conflict_in_other_case :
  forall answer : string -> bool,
    let w := with_confirm answer
               (with_storage {| savedRecipes := Some (Json [recipe_named "Pasta Pomodoro"]);
                                shoppingList := None; recipeDraft := None |}
                             fresh_world) in
    same_text "Pasta Pomodoro" "pasta pomodoro" = true
    /\ exists w',
        saveRecipeToStorage (recipe_named "pasta pomodoro") w = (Return true, w')
        /\ getSavedRecipes w'
           = (Return [recipe_named "Pasta Pomodoro"; recipe_named "pasta pomodoro"], w')
        /\ exists w'',
            removeRecipeFromStorage "Pasta Pomodoro" w' = (Return tt, w'')
            /\ getSavedRecipes w'' = (Return [], w'').
Proof.
  intros answer w. split; [reflexivity |].
  eexists. split; [reflexivity |]. split; [reflexivity |].
  eexists. split; [rewrite (surjective_pairing (removeRecipeFromStorage _ _)) |];
    [f_equal; reflexivity | reflexivity].
Qed.

(** ** Scaling: the scan *)

Import JsString JsNumber Scaling.

Lemma append_assoc (a b c : string) : (a +:+ b) +:+ c = a +:+ (b +:+ c).
Proof. induction a as [| x a IH]; simpl; [reflexivity | now f_equal]. Qed.

Lemma append_empty_r (a : string) : a +:+ "" = a.
Proof. induction a as [| x a IH]; simpl; [reflexivity | now f_equal]. Qed.

Lemma all_digits_app a b :
  all_digits (a +:+ b) = all_digits a && all_digits b.
Proof.
  induction a as [| x a IH]; simpl; [reflexivity |].
  now rewrite IH, andb_assoc.
Qed.

(** [span_digits] splits the input into its digits in front and a rest
    that does not begin with a digit. *)
Lemma span_digits_spec s :
  let '(ds, r) := span_digits s in
  s = ds +:+ r /\ all_digits ds = true
  /\ match r with String c _ => is_digit c = false | EmptyString => True end.
Proof.
  induction s as [| c s IH]; simpl; [auto |].
  destruct (is_digit c) eqn:Hc.
  - destruct (span_digits s) as [ds r]. destruct IH as (-> & Hd & Hr).
    simpl. rewrite Hc, Hd. auto.
  - simpl. auto.
Qed.

Lemma span_digits_digits ds r :
  all_digits ds = true ->
  match r with String c _ => is_digit c = false | EmptyString => True end ->
  span_digits (ds +:+ r) = (ds, r).
Proof.
  intros Hd Hr. induction ds as [| c ds IH]; simpl.
  - destruct r as [| c r]; [reflexivity |]. simpl. now rewrite Hr.
  - simpl in Hd. apply andb_true_iff in Hd as [Hc Hd].
    rewrite Hc, (IH Hd). reflexivity.
Qed.

Lemma is_sep_not_digit c : is_sep c = true -> is_digit c = false.
Proof.
  unfold is_sep. intros H. apply orb_true_iff in H as [H | H];
    apply Ascii.eqb_eq in H; subst c; reflexivity.
Qed.

(** A match is a number text, and the input is the match followed by
    the rest. *)
Lemma match_number_spec s m rest :
  match_number s = Some (m, rest) -> number_text m /\ s = m +:+ rest.
Proof.
  unfold match_number.
  pose proof (span_digits_spec s) as Hs.
  destruct (span_digits s) as [ip r]. destruct Hs as (-> & Hip & Hr).
  destruct ip as [| d ip]; [discriminate |].
  assert (Hplain : number_text (String d ip)).
  { exists (String d ip). split; [exact Hip |]. split; [discriminate | now left]. }
  destruct r as [| c r'].
  - intros [= <- <-]. split; [exact Hplain |]. now rewrite append_empty_r.
  - destruct (is_sep c) eqn:Hc.
    + pose proof (span_digits_spec r') as Hs'.
      destruct (span_digits r') as [fp r'']. destruct Hs' as (-> & Hfp & Hr'').
      destruct fp as [| f fp].
      * intros [= <- <-]. split; [exact Hplain | reflexivity].
      * intros [= <- <-]. split.
        -- exists (String d ip). split; [exact Hip |]. split; [discriminate |].
           right. exists c, (String f fp).
           split; [exact Hc |]. split; [exact Hfp |]. split; [discriminate | reflexivity].
        -- exact (eq_sym (append_assoc (String d ip) (String c (String f fp)) r'')).
    + intros [= <- <-]. split; [exact Hplain | reflexivity].
Qed.

Lemma scan_fuel_numbers fuel : forall s m,
  In (Num m) (scan_fuel fuel s) -> number_text m.
Proof.
  induction fuel as [| fuel IH]; intros s m; simpl; [tauto |].
  destruct s as [| c s]; [simpl; tauto |].
  destruct (match_number (String c s)) as [[m' rest] |] eqn:Hm.
  - intros [[= <-] | Hin]; [apply (match_number_spec _ _ _ Hm) | eauto].
  - intros [[=] | Hin]. eauto.
Qed.

(** Every match of a scan is a number text. *)
Lemma scan_numbers line m : In (Num m) (scan line) -> number_text m.
Proof. apply scan_fuel_numbers. Qed.

Lemma string_length_app a b : String.length (a +:+ b) = (String.length a + String.length b)%nat.
Proof. induction a as [| x a IH]; simpl; [reflexivity | now rewrite IH]. Qed.

(** The scan loses nothing: with fuel for every character, the tokens
    spell the input. *)
Lemma scan_fuel_covers fuel : forall s,
  (String.length s <= fuel)%nat -> flatten (scan_fuel fuel s) = s.
Proof.
  induction fuel as [| fuel IH]; intros s Hfuel.
  - destruct s; [reflexivity | simpl in Hfuel; lia].
  - destruct s as [| c s]; [reflexivity |]. cbn [scan_fuel].
    destruct (match_number (String c s)) as [[m rest] |] eqn:Hm.
    + destruct (match_number_spec _ _ _ Hm) as [(ip & _ & Hne & Hshape) Heq].
      change (flatten (Num m :: scan_fuel fuel rest))
        with (m +:+ flatten (scan_fuel fuel rest)).
      rewrite IH; [now symmetry |].
      assert (Hlen : String.length (String c s) = (String.length m + String.length rest)%nat)
        by (rewrite Heq; apply string_length_app).
      assert (Hpos : (0 < String.length m)%nat).
      { destruct ip as [| d ip]; [congruence |].
        destruct Hshape as [-> | (x & fp & _ & _ & _ & ->)]; simpl; lia. }
      simpl in Hfuel, Hlen. lia.
    + change (flatten (Text c :: scan_fuel fuel s))
        with (String c (flatten (scan_fuel fuel s))).
      rewrite IH; [reflexivity | simpl in Hfuel; lia].
Qed.

Lemma scan_covers line : flatten (scan line) = line.
Proof. apply scan_fuel_covers. unfold scan. lia. Qed.

(** ** Scaling: numbers *)

Lemma iter_pos_invariant {A} (P : A -> Prop) (f : A -> A) :
  (forall x, P x -> P (f x)) -> forall n x, P x -> P (SpecFloat.iter_pos f n x).
Proof.
  intros Hf n. induction n as [n IH | n IH |]; intros x Hx; simpl; auto.
Qed.

Lemma shr_1_nonneg mrs : 0 <= shr_m mrs -> 0 <= shr_m (shr_1 mrs).
Proof.
  destruct mrs as [m r s]. simpl.
  destruct m as [| [p | p |] | [p | p |]]; simpl; lia.
Qed.

Lemma shr_fexp_nonneg m e l :
  0 <= m -> 0 <= shr_m (fst (shr_fexp prec emax m e l)).
Proof.
  intros Hm. unfold shr_fexp, shr.
  assert (H0 : 0 <= shr_m (shr_record_of_loc m l)) by (destruct l as [| []]; exact Hm).
  destruct (fexp prec emax (Zdigits2 m + e) - e) as [| p | p]; simpl; try exact H0.
  apply (iter_pos_invariant (fun mrs => 0 <= shr_m mrs)); [apply shr_1_nonneg | exact H0].
Qed.

Lemma round_nearest_even_nonneg m l : 0 <= m -> 0 <= round_nearest_even m l.
Proof.
  intros Hm. destruct l as [| []]; simpl; try lia.
  destruct (Z.even m); lia.
Qed.

(** Rounding a non-negative mantissa never yields [NaN]. *)
Lemma binary_round_aux_not_nan s m e l :
  0 <= m -> isNaN (binary_round_aux prec emax s m e l) = false.
Proof.
  intros Hm. unfold binary_round_aux.
  pose proof (shr_fexp_nonneg m e l Hm) as H1.
  destruct (shr_fexp prec emax m e l) as [mrs' e']. simpl in H1.
  pose proof (shr_fexp_nonneg _ e' loc_Exact
                (round_nearest_even_nonneg _ (loc_of_shr_record mrs') H1)) as H2.
  destruct (shr_fexp prec emax _ e' loc_Exact) as [mrs'' e'']. simpl in H2.
  destruct (shr_m mrs'') as [| p | p]; [reflexivity | | lia].
  destruct (e'' <=? emax - prec); reflexivity.
Qed.

Lemma div_finite_not_nan s1 m1 e1 s2 m2 e2 :
  isNaN (div (S754_finite s1 m1 e1) (S754_finite s2 m2 e2)) = false.
Proof.
  unfold div, SFdiv, SFdiv_core_binary.
  set (m' := match _ - _ - _ with Z0 => Zpos m1 | Zpos _ => _ | Zneg _ => 0 end).
  assert (Hm' : 0 <= m').
  { subst m'. destruct (_ - _ - _); [lia | | lia]. apply Z.shiftl_nonneg. lia. }
  pose proof (Z.div_pos m' (Zpos m2) Hm' eq_refl) as Hq.
  unfold Z.div in Hq. destruct (Z.div_eucl m' (Zpos m2)) as [q r].
  now apply binary_round_aux_not_nan.
Qed.

Lemma nearest_not_nan p q : isNaN (nearest p q) = false.
Proof.
  destruct p as [| m | m]; unfold nearest; [reflexivity | |]; apply div_finite_not_nan.
Qed.

Lemma prefix_char c a s : String.prefix (String c "") (String a s) = Ascii.eqb a c.
Proof.
  change (String.prefix (String c "") (String a s))
    with (if ascii_dec c a then String.prefix "" s else false).
  destruct (ascii_dec c a) as [-> | Hne].
  - rewrite Ascii.eqb_refl. now destruct s.
  - destruct (Ascii.eqb_spec a c); congruence.
Qed.

Lemma includes_comma s : includes "," s = contains "," s.
Proof.
  induction s as [| a s IH]; [reflexivity |].
  cbn [includes contains]. now rewrite prefix_char, IH.
Qed.

Lemma all_digits_no_char c s :
  is_digit c = false -> all_digits s = true -> contains c s = false.
Proof.
  intros Hc. induction s as [| a s IH]; simpl; [reflexivity |].
  intros H. apply andb_true_iff in H as [Ha Hs].
  rewrite (IH Hs), orb_false_r.
  destruct (Ascii.eqb_spec a c); [congruence | reflexivity].
Qed.

Lemma replace_first_absent c d s : contains c s = false -> replace_first c d s = s.
Proof.
  induction s as [| a s IH]; simpl; [reflexivity |].
  intros H. apply orb_false_iff in H as [Ha Hs]. now rewrite Ha, (IH Hs).
Qed.

Lemma replace_first_digits c d ip rest :
  is_digit c = false -> all_digits ip = true ->
  replace_first c d (ip +:+ rest) = ip +:+ replace_first c d rest.
Proof.
  intros Hc. induction ip as [| a ip IH]; simpl; [reflexivity |].
  intros H. apply andb_true_iff in H as [Ha Hs].
  destruct (Ascii.eqb_spec a c); [congruence |]. now rewrite (IH Hs).
Qed.

(** With the comma read as a point, a number text begins with digits,
    so [parseFloat] finds a number. *)
Lemma parseFloat_number_text m :
  number_text m -> isNaN (parseFloat (replace_first "," "." m)) = false.
Proof.
  intros (ip & Hip & Hne & Hm).
  assert (Hparse : forall rest,
             match rest with String c _ => is_digit c = false | EmptyString => True end ->
             isNaN (parseFloat (ip +:+ rest)) = false).
  { intros rest Hrest. unfold parseFloat.
    rewrite (span_digits_digits ip rest Hip Hrest).
    destruct ip as [| d ip]; [congruence |].
    destruct (match rest with String "."%char r' => fst (span_digits r') | _ => "" end);
      apply nearest_not_nan. }
  destruct Hm as [-> | (c & fp & Hc & Hfp & Hfne & ->)].
  - rewrite replace_first_absent by (now apply all_digits_no_char).
    rewrite <- (append_empty_r ip). now apply Hparse.
  - rewrite replace_first_digits by (auto using is_sep_not_digit).
    apply Hparse. simpl. destruct (Ascii.eqb c ","); reflexivity || now apply is_sep_not_digit.
Qed.

Lemma span_digits_all ds : all_digits ds = true -> span_digits ds = (ds, "").
Proof.
  intros H. rewrite <- (append_empty_r ds) at 1. now apply span_digits_digits.
Qed.

(** The number read from a match: its digits as an integer, divided by
    ten for every digit behind the separator, be it point or comma. *)
Lemma parseFloat_match ip c fp :
  all_digits ip = true -> ip <> "" -> is_sep c = true -> all_digits fp = true ->
  parseFloat (replace_first "," "." ip) = nearest (digits_value 0 ip) 1
  /\ parseFloat (replace_first "," "." (ip +:+ String c fp))
     = nearest (digits_value (digits_value 0 ip) fp)
               (Z.to_pos (10 ^ Z.of_nat (String.length fp))).
Proof.
  intros Hip Hne Hc Hfp. split.
  - rewrite replace_first_absent by (now apply all_digits_no_char).
    unfold parseFloat. rewrite (span_digits_all ip Hip).
    destruct ip as [| d ip]; [congruence | reflexivity].
  - rewrite replace_first_digits by (auto using is_sep_not_digit).
    assert (Hpoint : replace_first "," "." (String c fp) = String "." fp).
    { unfold is_sep in Hc. cbn [replace_first].
      destruct (Ascii.eqb_spec c ",") as [-> | Hne']; [reflexivity |].
      destruct (Ascii.eqb_spec c ".") as [-> | Hne'']; [| discriminate Hc].
      f_equal. apply replace_first_absent. now apply all_digits_no_char. }
    rewrite Hpoint. unfold parseFloat.
    rewrite (span_digits_digits ip (String "." fp) Hip eq_refl).
    rewrite (span_digits_all fp Hfp). cbn [fst].
    destruct ip as [| d ip]; [congruence | reflexivity].
Qed.

(** On a match, the callback does what the specification's steps say. *)
Lemma scale_match_steps factor m :
  number_text m -> scale_match factor m = spec_rewrite factor m.
Proof.
  intros Hm. unfold scale_match, spec_rewrite.
  now rewrite (parseFloat_number_text m Hm), includes_comma.
Qed.

(** ** Scaling: the text of a number *)

Lemma count_app c a b : count c (a +:+ b) = (count c a + count c b)%nat.
Proof. induction a as [| x a IH]; simpl; [reflexivity | rewrite IH; lia]. Qed.

Lemma contains_count c s : contains c s = false <-> count c s = 0%nat.
Proof.
  induction s as [| a s IH]; simpl; [tauto |].
  destruct (Ascii.eqb a c); simpl; [split; [discriminate | lia] | exact IH].
Qed.

Lemma all_digits_count c s :
  is_digit c = false -> all_digits s = true -> count c s = 0%nat.
Proof. intros Hc Hs. apply contains_count. now apply all_digits_no_char. Qed.

Lemma all_digits_string_of_uint d : all_digits (NilEmpty.string_of_uint d) = true.
Proof. induction d; simpl; auto. Qed.

Lemma decimal_digits n : all_digits (decimal n) = true.
Proof.
  unfold decimal, NilZero.string_of_uint.
  destruct (N.to_uint (Z.to_N n)); try reflexivity; apply all_digits_string_of_uint.
Qed.

Lemma decimal_nonempty n : decimal n <> "".
Proof.
  unfold decimal, NilZero.string_of_uint.
  destruct (N.to_uint (Z.to_N n)); discriminate.
Qed.

Lemma fixed1_shape n : count "," (fixed1 n) = 0%nat /\ count "." (fixed1 n) = 1%nat.
Proof.
  unfold fixed1. rewrite !count_app.
  rewrite !(all_digits_count "," _ eq_refl (decimal_digits _)).
  rewrite !(all_digits_count "." _ eq_refl (decimal_digits _)). split; reflexivity.
Qed.

Lemma exponential_shape m e :
  count "," (exponential m e) = 0%nat /\ (count "." (exponential m e) <= 1)%nat.
Proof.
  unfold exponential.
  set (v := shortest _ _ _ _ _). set (n := num_digits v).
  pose proof (decimal_digits (strip_zeros (Z.to_nat n) v)) as Hs.
  pose proof (decimal_digits (n - 1)) as Hn.
  destruct (decimal (strip_zeros (Z.to_nat n) v)) as [| d [| d' rest]].
  - split; simpl; lia.
  - simpl in Hs. rewrite andb_true_r in Hs.
    change (String d "e+" +:+ decimal (n - 1))
      with (String d "" +:+ ("e+" +:+ decimal (n - 1))).
    rewrite !count_app.
    rewrite (all_digits_count "," (String d "") eq_refl), (all_digits_count "," _ eq_refl Hn),
      (all_digits_count "." (String d "") eq_refl), (all_digits_count "." _ eq_refl Hn);
      simpl; rewrite ?Hs; auto.
  - change (String d ("." +:+ String d' rest) +:+ "e+" +:+ decimal (n - 1))
      with (String d "" +:+ ("." +:+ (String d' rest +:+ ("e+" +:+ decimal (n - 1))))).
    simpl in Hs. apply andb_true_iff in Hs as [Hd Hrest].
    rewrite !count_app.
    rewrite (all_digits_count "," (String d "") eq_refl), (all_digits_count "," _ eq_refl Hn),
      (all_digits_count "." (String d "") eq_refl), (all_digits_count "." _ eq_refl Hn),
      (all_digits_count "," (String d' rest) eq_refl Hrest),
      (all_digits_count "." (String d' rest) eq_refl Hrest);
      simpl; rewrite ?Hd; auto.
Qed.

(** The text of [toFixed(1)] has no comma and at most one point. *)
Lemma toFixed1_shape x :
  count "," (toFixed1 x) = 0%nat /\ (count "." (toFixed1 x) <= 1)%nat.
Proof.
  destruct x as [s | s | | s m e]; try (destruct s; simpl; lia); [simpl; lia |].
  unfold toFixed1. rewrite !count_app.
  assert (Hsign : count "," (if s then "-" else "") = 0%nat
                  /\ count "." (if s then "-" else "") = 0%nat)
    by (destruct s; split; reflexivity).
  destruct Hsign as [-> ->].
  destruct (at_least_1e21 m e).
  - apply exponential_shape.
  - destruct (fixed1_shape (tenths m e)) as [-> ->]. lia.
Qed.

Lemma strip_dot_zero_count c s : (count c (strip_dot_zero s) <= count c s)%nat.
Proof.
  induction s as [| a s IH]; [simpl; lia |].
  cbn [strip_dot_zero]. destruct (String.eqb (String a s) ".0"); simpl; lia.
Qed.

Lemma replace_first_count c d s :
  c <> d -> count c (replace_first c d s) = pred (count c s).
Proof.
  intros Hcd. induction s as [| a s IH]; simpl; [reflexivity |].
  destruct (Ascii.eqb_spec a c) as [-> | Hne]; simpl.
  - destruct (Ascii.eqb_spec d c); [congruence | reflexivity].
  - destruct (Ascii.eqb_spec a c); [congruence |]. simpl. exact IH.
Qed.

(** The rewritten text never holds the separator the match did not
    use. *)
Lemma spec_rewrite_separator factor m :
  (contains "," m = true -> contains "." (spec_rewrite factor m) = false)
  /\ (contains "," m = false -> contains "," (spec_rewrite factor m) = false).
Proof.
  unfold spec_rewrite.
  set (x := mul _ factor).
  destruct (toFixed1_shape x) as [Hcomma Hpoint].
  pose proof (strip_dot_zero_count "," (toFixed1 x)) as Hc.
  pose proof (strip_dot_zero_count "." (toFixed1 x)) as Hp.
  split; intros ->; apply contains_count.
  - rewrite replace_first_count by discriminate. lia.
  - lia.
Qed.

Lemma strip_dot_zero_digits a rest :
  all_digits a = true -> strip_dot_zero (a +:+ rest) = a +:+ strip_dot_zero rest.
Proof.
  induction a as [| x a IH]; [reflexivity |].
  intros H. simpl in H. apply andb_true_iff in H as [Hx Ha].
  cbn [String.append strip_dot_zero]. rewrite (IH Ha).
  destruct (Ascii.eqb_spec x ".") as [-> | Hne]; [discriminate |].
  cbn [String.eqb]. destruct (Ascii.eqb_spec x "."); [congruence | reflexivity].
Qed.

Lemma replace_first_prefix c d a rest :
  contains c a = false -> replace_first c d (a +:+ rest) = a +:+ replace_first c d rest.
Proof.
  induction a as [| x a IH]; simpl; [reflexivity |].
  intros H. apply orb_false_iff in H as [Hx Ha]. now rewrite Hx, (IH Ha).
Qed.

Lemma mod10_cases n :
  n mod 10 = 0 \/ n mod 10 = 1 \/ n mod 10 = 2 \/ n mod 10 = 3 \/ n mod 10 = 4
  \/ n mod 10 = 5 \/ n mod 10 = 6 \/ n mod 10 = 7 \/ n mod 10 = 8 \/ n mod 10 = 9.
Proof. pose proof (Z.mod_pos_bound n 10 eq_refl). lia. Qed.

(** Stripping [".0"] from the fixed notation leaves the whole part for
    a whole number, and everything otherwise. *)
Lemma strip_dot_zero_fixed1 n : strip_dot_zero (fixed1 n) = tenths_text "." n.
Proof.
  unfold fixed1, tenths_text.
  rewrite strip_dot_zero_digits by apply decimal_digits. f_equal.
  destruct (mod10_cases n) as [H | [H | [H | [H | [H | [H | [H | [H | [H | H]]]]]]]]];
    rewrite H; reflexivity.
Qed.

Lemma replace_point_tenths_text n : replace_first "." "," (tenths_text "." n) = tenths_text "," n.
Proof.
  unfold tenths_text.
  rewrite replace_first_prefix
    by (apply all_digits_no_char; [reflexivity | apply decimal_digits]).
  now destruct (n mod 10 =? 0).
Qed.

(** The rewritten text of a match whose scaled value is finite and
    below [10^21]: the sign, and the tenths nearest to the value,
    written with the separator of the match. *)
Lemma spec_rewrite_fixed factor m s mant e :
  mul (parseFloat (replace_first "," "." m)) factor = S754_finite s mant e ->
  at_least_1e21 mant e = false ->
  spec_rewrite factor m
  = (if s then "-" else "") +:+ tenths_text (separator_of m) (tenths mant e).
Proof.
  intros Hx Hrange. unfold spec_rewrite, separator_of. rewrite Hx.
  unfold toFixed1. rewrite Hrange.
  assert (Hstrip : strip_dot_zero ((if s then "-" else "") +:+ fixed1 (tenths mant e))
                   = (if s then "-" else "") +:+ tenths_text "." (tenths mant e)).
  { rewrite <- strip_dot_zero_fixed1. destruct s; [| reflexivity].
    cbn [String.append strip_dot_zero]. reflexivity. }
  rewrite Hstrip. destruct (contains "," m); [| reflexivity].
  rewrite replace_first_prefix by (now destruct s).
  now rewrite replace_point_tenths_text.
Qed.

Lemma spec_rewrite_zero factor m s :
  mul (parseFloat (replace_first "," "." m)) factor = S754_zero s ->
  spec_rewrite factor m = "0".
Proof.
  intros Hx. unfold spec_rewrite. rewrite Hx. now destruct (contains "," m).
Qed.

(** [tenths] rounds to the nearest tenth: the integer it yields is at
    most one half away from ten times the value. *)
Lemma tenths_nearest s mant e :
  (Qabs (inject_Z (tenths mant e) - 10 * magnitude (S754_finite s mant e)) <= 1 # 2)%Q.
Proof.
  unfold tenths, magnitude. destruct (Z.leb_spec 0 e) as [He | He].
  - apply Qabs_Qle_condition. unfold Qle, Qminus, Qplus, Qopp, Qmult, inject_Z. simpl.
    split; nia.
  - set (P := 2 ^ (- e)). assert (HP : 0 < P) by (apply Z.pow_pos_nonneg; lia).
    set (n := (20 * Z.pos mant + P) / (2 * P)).
    assert (Hn : 2 * P * n <= 20 * Z.pos mant + P < 2 * P * n + 2 * P).
    { pose proof (Z.div_mod (20 * Z.pos mant + P) (2 * P) ltac:(lia)) as Hdm.
      pose proof (Z.mod_pos_bound (20 * Z.pos mant + P) (2 * P) ltac:(lia)) as Hb.
      fold n in Hdm. lia. }
    apply Qabs_Qle_condition.
    unfold Qle, Qminus, Qplus, Qopp, Qmult, inject_Z. simpl.
    rewrite !Pos.mul_1_l, !Z2Pos.id by lia. split; nia.
Qed.

(** ** Scaling: the claims *)




(** C3, as the claim states it, fails: "1,5" scaled from 2 to 4
    servings is rewritten to "3", a text without the comma of the
    match. *)
Lemma separator_kept_counterexample :
  ~ (forall line fromS toS m,
        truthy fromS = true -> truthy toS = true -> strict_eq fromS toS = false ->
        In (Num m) (scan line) ->
        (contains "," m = true -> contains "," (scale_match (div toS fromS) m) = true)
        /\ (contains "." m = true -> contains "." (scale_match (div toS fromS) m) = true)).
Proof.
  intros H.
  destruct (H "1,5kg Mehl"%string (of_Z 2) (of_Z 4) "1,5"%string
              eq_refl eq_refl eq_refl) as [Hcomma _].
  - left. reflexivity.
  - specialize (Hcomma eq_refl). vm_compute in Hcomma. discriminate Hcomma.
Qed.

Lemma contains_app c a b : contains c (a +:+ b) = contains c a || contains c b.
Proof. induction a as [| x a IH]; simpl; [reflexivity | now rewrite IH, orb_assoc]. Qed.

(** C3, amended. A rewritten number never holds the separator its match
    did not use: after a match with a comma it has no point, after any
    other match no comma. For a scaled value below [10^21] it holds the
    separator of the match when the rounded value is not whole, and no
    separator at all when it is whole. *)
Theorem separator_never_swapped :
  forall line fromS toS m,
    truthy fromS = true -> truthy toS = true -> strict_eq fromS toS = false ->
    In (Num m) (scan line) ->
    let out := scale_match (div toS fromS) m in
    (contains "," m = true -> contains "." out = false)
    /\ (contains "," m = false -> contains "," out = false)
    /\ (forall s mant e,
           mul (parseFloat (replace_first "," "." m)) (div toS fromS)
           = S754_finite s mant e ->
           at_least_1e21 mant e = false ->
           (tenths mant e mod 10 <> 0 -> contains (separator_of m) out = true)
           /\ (tenths mant e mod 10 = 0 ->
               contains "," out = false /\ contains "." out = false)).
Proof.
  intros line fromS toS m _ _ _ Hin out. subst out.
  rewrite (scale_match_steps _ m (scan_numbers line m Hin)).
  destruct (spec_rewrite_separator (div toS fromS) m) as [Hcomma Hpoint].
  split; [exact Hcomma |]. split; [exact Hpoint |].
  intros s mant e Hx Hrange.
  rewrite (spec_rewrite_fixed _ _ _ _ _ Hx Hrange). unfold tenths_text.
  rewrite !contains_app. split.
  - intros Hfrac. apply Z.eqb_neq in Hfrac. rewrite Hfrac. simpl.
    rewrite Ascii.eqb_refl. now rewrite !orb_true_r.
  - intros Hwhole. apply Z.eqb_eq in Hwhole. rewrite Hwhole. simpl.
    rewrite !orb_false_r.
    rewrite (all_digits_no_char "," _ eq_refl (decimal_digits _)).
    rewrite (all_digits_no_char "." _ eq_refl (decimal_digits _)).
    now destruct s.
Qed.

Lemma separator_never_swapped_witness :
  contains "." (scale_match (div (of_Z 3) (of_Z 2)) "1,5") = false
  /\ contains "," (scale_match (div (of_Z 3) (of_Z 2)) "1,5") = true
  /\ contains "," (scale_match (div (of_Z 4) (of_Z 2)) "1,5") = false.
Proof.
  destruct (separator_never_swapped "1,5kg Mehl" (of_Z 2) (of_Z 3) "1,5"
              eq_refl eq_refl eq_refl (or_introl eq_refl)) as (Hcomma & _ & Hsep).
  destruct (separator_never_swapped "1,5kg Mehl" (of_Z 2) (of_Z 4) "1,5"
              eq_refl eq_refl eq_refl (or_introl eq_refl)) as (_ & _ & Hwhole).
  split; [exact (Hcomma eq_refl) |]. split.
  - apply (Hsep false 5066549580791808%positive (-51) eq_refl eq_refl). discriminate.
  - apply (Hwhole false 6755399441055744%positive (-51) eq_refl eq_refl). reflexivity.
Defined.

(** ** Scaling: the round trip *)

(** A number followed by a rest that stays apart is matched as it is. *)
Lemma match_number_app m rest :
  is_number m = true ->
  match rest with
  | String c rest' =>
      is_digit c = false
      /\ (is_sep c = true -> has_fraction m = false ->
          match rest' with String c' _ => is_digit c' = false | EmptyString => True end)
  | EmptyString => True
  end ->
  match_number (m +:+ rest) = Some (m, rest).
Proof.
  unfold is_number. intros Hm Hrest.
  destruct (match_number m) as [[m' [| x r]] |] eqn:Hmatch; try discriminate.
  destruct (match_number_spec m m' "" Hmatch) as [(ip & Hip & Hne & Hshape) Heq].
  rewrite append_empty_r in Heq. subst m'.
  assert (Hfirst : match rest with String c _ => is_digit c = false | EmptyString => True end)
    by (destruct rest; tauto).
  destruct Hshape as [-> | (c & fp & Hc & Hfp & Hfne & ->)].
  - unfold match_number. rewrite (span_digits_digits ip rest Hip Hfirst).
    destruct ip as [| d ip]; [congruence |].
    destruct rest as [| c rest']; [reflexivity |].
    destruct (is_sep c) eqn:Hc; [| reflexivity].
    destruct Hrest as [_ Hnext].
    assert (Hfrac : has_fraction (String d ip) = false).
    { unfold has_fraction.
      now rewrite (all_digits_no_char "." (String d ip) eq_refl Hip),
        (all_digits_no_char "," (String d ip) eq_refl Hip). }
    specialize (Hnext eq_refl Hfrac).
    pose proof (span_digits_digits "" rest' eq_refl Hnext) as Hspan.
    cbn [String.append] in Hspan. rewrite Hspan. reflexivity.
  - rewrite append_assoc. cbn [String.append].
    unfold match_number.
    rewrite (span_digits_digits ip (String c (fp +:+ rest)) Hip (is_sep_not_digit c Hc)).
    destruct ip as [| d ip]; [congruence |].
    rewrite Hc, (span_digits_digits fp rest Hfp Hfirst).
    destruct fp as [| f fp]; [congruence | reflexivity].
Qed.

Lemma is_number_first_digit m :
  is_number m = true -> exists d m', m = String d m' /\ is_digit d = true.
Proof.
  unfold is_number. intros Hm.
  destruct (match_number m) as [[m' [| x r]] |] eqn:Hmatch; try discriminate.
  destruct (match_number_spec m m' "" Hmatch) as [(ip & Hip & Hne & Hshape) Heq].
  rewrite append_empty_r in Heq. subst m'.
  destruct ip as [| d ip]; [congruence |].
  simpl in Hip. apply andb_true_iff in Hip as [Hd _].
  destruct Hshape as [-> | (c & fp & _ & _ & _ & ->)]; eauto.
Qed.

Lemma match_number_not_digit c s :
  is_digit c = false -> match_number (String c s) = None.
Proof. intros Hc. unfold match_number. simpl. now rewrite Hc. Qed.

(** Scanning the text of a canonical list of tokens gives the list. *)
Lemma scan_fuel_flatten ts :
  canonical ts = true ->
  forall fuel, (String.length (flatten ts) <= fuel)%nat ->
  scan_fuel fuel (flatten ts) = ts.
Proof.
  induction ts as [| t ts IH]; intros Hcan fuel Hfuel.
  - destruct fuel; reflexivity.
  - destruct t as [c | m].
    + simpl in Hcan. apply andb_true_iff in Hcan as [Hc Hts].
      apply negb_true_iff in Hc.
      change (flatten (Text c :: ts)) with (String c (flatten ts)) in *.
      destruct fuel as [| fuel]; [simpl in Hfuel; lia |].
      cbn [scan_fuel]. rewrite (match_number_not_digit c _ Hc).
      f_equal. apply IH; [exact Hts | simpl in Hfuel; lia].
    + simpl in Hcan. apply andb_true_iff in Hcan as [Hcan Hts].
      apply andb_true_iff in Hcan as [Hm Hapart].
      change (flatten (Num m :: ts)) with (m +:+ flatten ts) in *.
      rewrite string_length_app in Hfuel.
      destruct (is_number_first_digit m Hm) as (d & m' & -> & Hd).
      destruct fuel as [| fuel]; [simpl in Hfuel; lia |].
      cbn [scan_fuel String.append].
      change (String d (m' +:+ flatten ts)) with (String d m' +:+ flatten ts).
      rewrite (match_number_app (String d m') (flatten ts) Hm).
      * f_equal. apply IH; [exact Hts | simpl in Hfuel; lia].
      * destruct ts as [| [c | m2] ts']; [exact I | | discriminate Hapart].
        change (flatten (Text c :: ts')) with (String c (flatten ts')).
        simpl in Hts. apply andb_true_iff in Hts as [Hc Hts'].
        apply negb_true_iff in Hc. split; [exact Hc |].
        intros Hsep Hfrac. simpl in Hapart. rewrite Hsep, Hfrac in Hapart. simpl in Hapart.
        destruct ts' as [| [c2 | m3] ts'']; [exact I | | discriminate Hapart].
        change (flatten (Text c2 :: ts'')) with (String c2 (flatten ts'')).
        simpl in Hts'. apply andb_true_iff in Hts' as [Hc2 _].
        now apply negb_true_iff in Hc2.
Qed.

Lemma scan_flatten ts : canonical ts = true -> scan (flatten ts) = ts.
Proof. intros H. apply scan_fuel_flatten; [exact H | lia]. Qed.

Lemma flatten_map_numbers f ts :
  flatten (map_numbers f ts) = concat_strings (render f <$> ts).
Proof.
  unfold flatten, map_numbers. rewrite <- list_fmap_compose. f_equal.
  apply list_fmap_ext. intros i [c | m] _; reflexivity.
Qed.

Lemma render_map_numbers g f ts :
  render g <$> map_numbers f ts = render (fun m => g (f m)) <$> ts.
Proof.
  unfold map_numbers. rewrite <- list_fmap_compose.
  apply list_fmap_ext. intros i [c | m] _; reflexivity.
Qed.

Lemma strict_eq_sym x y : strict_eq x y = strict_eq y x.
Proof.
  unfold strict_eq, SFeqb, SFcompare.
  destruct x as [sx | sx | | sx mx ex], y as [sy | sy | | sy my ey];
    try reflexivity; try (destruct sx, sy; reflexivity);
    try (destruct sx; reflexivity); try (destruct sy; reflexivity).
  pose proof (Pos.compare_cont_antisym mx my Eq) as Hm. simpl in Hm.
  rewrite (Z.compare_antisym ex ey), <- Hm.
  destruct sx, sy; try reflexivity;
    destruct (ex ?= ey); simpl; try reflexivity;
    destruct (Pos.compare_cont Eq mx my); reflexivity.
Qed.

(** C8, as the claim states it, fails: "1 Ei" scaled from 100
    servings to 1 reads "0 Ei", and scaling back leaves "0 Ei": the
    number has moved by 1. *)
Lemma round_trip_counterexample : ~ round_trip_claim.
Proof.
  intros H. specialize (H "1 Ei"%string (of_Z 100) (of_Z 1) eq_refl eq_refl).
  assert (Hback : scaleIngredientLine (scaleIngredientLine "1 Ei" (of_Z 100) (of_Z 1))
                                      (of_Z 1) (of_Z 100) = "0 Ei"%string)
    by (vm_compute; reflexivity).
  rewrite Hback in H.
  change (scan "1 Ei") with [Num "1"; Text " "; Text "E"; Text "i"] in H.
  change (scan "0 Ei") with [Num "0"; Text " "; Text "E"; Text "i"] in H.
  inversion H as [| t t' ts ts' Hclose _]. subst.
  unfold close_tokens in Hclose. vm_compute in Hclose.
  apply Hclose. reflexivity.
Qed.

(** ** The accuracy of the arithmetic *)

Lemma pow2_pos e : (0 < pow2 e)%Q.
Proof. apply Qpower_0_lt. reflexivity. Qed.

Lemma pow2_add a b : (pow2 (a + b) == pow2 a * pow2 b)%Q.
Proof. apply Qpower_plus. discriminate. Qed.

Lemma pow2_le a b : a <= b -> (pow2 a <= pow2 b)%Q.
Proof. intros H. apply Qpower_le_compat_l; [exact H | discriminate]. Qed.

Lemma pow2_Z n : 0 <= n -> (inject_Z (2 ^ n) == pow2 n)%Q.
Proof. intros H. unfold pow2. now rewrite Zpower_Qpower. Qed.

Lemma pow2_1 : (pow2 1 == 2)%Q.
Proof. reflexivity. Qed.

Lemma dyadic_shift m e n : 0 <= n -> (dyadic (m * 2 ^ n) e == dyadic m (e + n))%Q.
Proof.
  intros Hn. unfold dyadic. rewrite inject_Z_mult, pow2_Z by exact Hn.
  rewrite pow2_add. ring.
Qed.

Lemma dyadic_le m m' e : m <= m' -> (dyadic m e <= dyadic m' e)%Q.
Proof.
  intros H. unfold dyadic. apply Qmult_le_compat_r; [| apply Qlt_le_weak, pow2_pos].
  now rewrite <- Zle_Qle.
Qed.

(** Dropping [n] bits keeps the value in the cell. *)
Lemma in_cell_div m e n v :
  0 <= n -> in_cell m e v -> in_cell (m / 2 ^ n) (e + n) v.
Proof.
  intros Hn [Hlo Hhi].
  assert (Hp : 0 < 2 ^ n) by (apply Z.pow_pos_nonneg; lia).
  pose proof (Z.mul_div_le m (2 ^ n) Hp) as H1.
  pose proof (Z.mul_succ_div_gt m (2 ^ n) Hp) as H2.
  split.
  - rewrite <- dyadic_shift by exact Hn.
    eapply Qle_trans; [| exact Hlo]. apply dyadic_le. lia.
  - rewrite <- dyadic_shift by exact Hn.
    eapply Qlt_le_trans; [exact Hhi |]. apply dyadic_le. lia.
Qed.

(** ** The shifts of [SpecFloat] *)

Lemma shr_1_div2 mrs : 0 <= shr_m mrs -> shr_m (shr_1 mrs) = shr_m mrs / 2.
Proof.
  destruct mrs as [m r s]. simpl. intros Hm.
  destruct m as [| [p | p |] | p]; try lia; simpl.
  - reflexivity.
  - rewrite Pos2Z.inj_xI. apply (Z.div_unique _ _ _ 1); lia.
  - rewrite Pos2Z.inj_xO. apply (Z.div_unique _ _ _ 0); lia.
  - reflexivity.
Qed.

Lemma iter_pos_counted {A} (P : Z -> A -> Prop) (f : A -> A) :
  (forall k x, 0 <= k -> P k x -> P (k + 1) (f x)) ->
  forall n k x, 0 <= k -> P k x -> P (k + Zpos n) (SpecFloat.iter_pos f n x).
Proof.
  intros Hf n. induction n as [n IH | n IH |]; intros k x Hk Hx; simpl.
  - replace (k + Zpos n~1) with (k + 1 + Zpos n + Zpos n) by lia.
    apply IH; [lia |]. apply IH; [lia |]. now apply Hf.
  - replace (k + Zpos n~0) with (k + Zpos n + Zpos n) by lia.
    apply IH; [lia |]. now apply IH.
  - now apply Hf.
Qed.

(** [n] shifts to the right divide the mantissa by [2^n]. *)
Lemma shr_div mrs e n :
  0 <= shr_m mrs -> 0 < n ->
  shr_m (fst (shr mrs e n)) = shr_m mrs / 2 ^ n /\ snd (shr mrs e n) = e + n.
Proof.
  intros Hm Hn. destruct n as [| p | p]; try lia. simpl. split; [| reflexivity].
  assert (Hstep : forall k x, 0 <= k ->
             shr_m x = shr_m mrs / 2 ^ k -> shr_m (shr_1 x) = shr_m mrs / 2 ^ (k + 1)).
  { intros k x Hk Hx.
    assert (Hp : 0 < 2 ^ k) by (apply Z.pow_pos_nonneg; lia).
    rewrite shr_1_div2 by (rewrite Hx; apply Z.div_pos; [exact Hm | exact Hp]).
    rewrite Hx, Z.div_div by lia.
    now rewrite Z.pow_add_r by lia. }
  apply (iter_pos_counted (fun k x => shr_m x = shr_m mrs / 2 ^ k) shr_1 Hstep p 0 mrs);
    [lia |].
  now rewrite Z.div_1_r.
Qed.

Lemma loc_of_record m l : loc_of_shr_record (shr_record_of_loc m l) = l.
Proof. now destruct l as [| []]. Qed.

Lemma shr_m_record m l : shr_m (shr_record_of_loc m l) = m.
Proof. now destruct l as [| []]. Qed.

(** What [shr_fexp] does to the mantissa and the exponent. *)
Lemma shr_fexp_spec m e l :
  0 <= m ->
  let n := fexp prec emax (Zdigits2 m + e) - e in
  (n <= 0 ->
   shr_m (fst (shr_fexp prec emax m e l)) = m
   /\ snd (shr_fexp prec emax m e l) = e
   /\ loc_of_shr_record (fst (shr_fexp prec emax m e l)) = l)
  /\ (0 < n ->
      shr_m (fst (shr_fexp prec emax m e l)) = m / 2 ^ n
      /\ snd (shr_fexp prec emax m e l) = e + n).
Proof.
  intros Hm n. unfold shr_fexp. fold n. split; intros Hn.
  - destruct n as [| p | p]; try lia; simpl;
      now rewrite shr_m_record, loc_of_record.
  - rewrite <- (shr_m_record m l) at 2.
    apply shr_div; [now rewrite shr_m_record | exact Hn].
Qed.

Lemma pow2_step d : 0 < d -> 2 ^ d = 2 * 2 ^ (d - 1).
Proof.
  intros Hd. rewrite <- Z.pow_succ_r by lia. f_equal. lia.
Qed.

Lemma digits2_pos_spec p :
  2 ^ (Zpos (digits2_pos p) - 1) <= Zpos p < 2 ^ Zpos (digits2_pos p).
Proof.
  induction p as [p IH | p IH |]; cbn [digits2_pos].
  - pose proof (Pos2Z.is_pos (digits2_pos p)) as Hd.
    rewrite Pos2Z.inj_succ.
    rewrite (pow2_step (Z.succ _)) by lia.
    replace (Z.succ (Zpos (digits2_pos p)) - 1) with (Zpos (digits2_pos p)) by lia.
    rewrite (pow2_step (Zpos (digits2_pos p))) in * by lia. lia.
  - pose proof (Pos2Z.is_pos (digits2_pos p)) as Hd.
    rewrite Pos2Z.inj_succ.
    rewrite (pow2_step (Z.succ _)) by lia.
    replace (Z.succ (Zpos (digits2_pos p)) - 1) with (Zpos (digits2_pos p)) by lia.
    rewrite (pow2_step (Zpos (digits2_pos p))) in * by lia. lia.
  - simpl. lia.
Qed.

Lemma Zdigits2_spec m :
  0 < m -> 2 ^ (Zdigits2 m - 1) <= m < 2 ^ Zdigits2 m.
Proof. destruct m as [| p | p]; try lia. intros _. apply digits2_pos_spec. Qed.

Lemma Zdigits2_nonneg m : 0 <= Zdigits2 m.
Proof. destruct m; simpl; lia. Qed.

Lemma Zdigits2_le m k : 0 <= k -> 0 <= m < 2 ^ k -> Zdigits2 m <= k.
Proof.
  intros Hk [H0 Hm]. destruct (Z.eq_dec m 0) as [-> | Hne]; [simpl; lia |].
  destruct (Zdigits2_spec m ltac:(lia)) as [Hlo _].
  destruct (Z.le_gt_cases (Zdigits2 m) k) as [H | H]; [exact H | exfalso].
  assert (2 ^ k <= 2 ^ (Zdigits2 m - 1)) by (apply Z.pow_le_mono_r; lia).
  lia.
Qed.

Lemma Zdigits2_pow2 k : 0 <= k -> Zdigits2 (2 ^ k) = k + 1.
Proof.
  intros Hk.
  assert (Hp : 0 < 2 ^ k) by (apply Z.pow_pos_nonneg; lia).
  destruct (Zdigits2_spec (2 ^ k) Hp) as [Hlo Hhi].
  pose proof (Zdigits2_nonneg (2 ^ k)) as Hd.
  apply Z.pow_lt_mono_r_iff in Hhi; [| lia | lia].
  apply Z.pow_le_mono_r_iff in Hlo; [| lia | lia].
  lia.
Qed.

(** ** Rounding *)

Lemma fexp_eq x : fexp prec emax x = Z.max (x - 53) (-1074).
Proof. reflexivity. Qed.

Lemma dyadic_succ m e : (dyadic (m + 1) e == dyadic m e + pow2 e)%Q.
Proof. unfold dyadic. rewrite inject_Z_plus. ring. Qed.

Lemma dyadic_nonneg m e : 0 <= m -> (0 <= dyadic m e)%Q.
Proof.
  intros H. unfold dyadic. apply Qmult_le_0_compat; [| apply Qlt_le_weak, pow2_pos].
  change 0%Q with (inject_Z 0). now rewrite <- Zle_Qle.
Qed.

(** The first shift of [binary_round_aux]: the mantissa has at most 53
    bits, the value stays in its cell, and the mantissa is exact, or has
    53 bits, or lies on the lowest grid. *)
Lemma shr_fexp_first m0 e0 l v :
  0 <= m0 -> in_cell m0 e0 v ->
  (fexp prec emax (Zdigits2 m0 + e0) <= e0 ->
   (l = loc_Exact /\ (v == dyadic m0 e0)%Q) \/ 2 ^ 52 <= m0 \/ e0 = -1074) ->
  let m' := shr_m (fst (shr_fexp prec emax m0 e0 l)) in
  let e1 := snd (shr_fexp prec emax m0 e0 l) in
  let l' := loc_of_shr_record (fst (shr_fexp prec emax m0 e0 l)) in
  0 <= m' < 2 ^ 53
  /\ in_cell m' e1 v
  /\ -1074 <= e1
  /\ ((l' = loc_Exact /\ (v == dyadic m' e1)%Q) \/ 2 ^ 52 <= m' \/ e1 = -1074).
Proof.
  intros Hm Hcell Hsmall m' e1 l'. subst m' e1 l'.
  destruct (shr_fexp_spec m0 e0 l Hm) as [Hkeep Hshift].
  rewrite fexp_eq in *.
  pose proof (Zdigits2_nonneg m0) as Hd0.
  destruct (Z.le_gt_cases (Z.max (Zdigits2 m0 + e0 - 53) (-1074) - e0) 0) as [Hn | Hn].
  - destruct (Hkeep Hn) as (-> & -> & ->).
    split; [| split; [exact Hcell | split; [lia | apply Hsmall; lia]]].
    split; [exact Hm |].
    destruct (Z.eq_dec m0 0) as [-> | Hne]; [reflexivity |].
    destruct (Zdigits2_spec m0 ltac:(lia)) as [_ Hhi].
    eapply Z.lt_le_trans; [exact Hhi |]. apply Z.pow_le_mono_r; lia.
  - destruct (Hshift Hn) as (-> & ->).
    set (n := Z.max (Zdigits2 m0 + e0 - 53) (-1074) - e0) in *.
    assert (Hp : 0 < 2 ^ n) by (apply Z.pow_pos_nonneg; lia).
    split; [| split; [apply in_cell_div; [lia | exact Hcell] | split; [lia |]]].
    + split; [apply Z.div_pos; [exact Hm | exact Hp] |].
      apply Z.div_lt_upper_bound; [exact Hp |].
      destruct (Z.eq_dec m0 0) as [-> | Hne].
      * apply Z.mul_pos_pos; [exact Hp | reflexivity].
      * destruct (Zdigits2_spec m0 ltac:(lia)) as [_ Hhi].
        eapply Z.lt_le_trans; [exact Hhi |].
        rewrite <- Z.pow_add_r by lia. apply Z.pow_le_mono_r; lia.
    + destruct (Z.le_gt_cases (Zdigits2 m0 + e0 - 53) (-1074)) as [Hsub | Hnorm].
      * right. right. lia.
      * right. left.
        assert (Hne : m0 <> 0) by (intros ->; simpl in *; lia).
        destruct (Zdigits2_spec m0 ltac:(lia)) as [Hlo _].
        apply Z.div_le_lower_bound; [exact Hp |].
        eapply Z.le_trans; [| exact Hlo].
        rewrite <- Z.pow_add_r by lia. apply Z.pow_le_mono_r; lia.
Qed.

(** Rounding to nearest, ties to even, keeps the mantissa or adds one. *)
Lemma round_nearest_even_cases m l :
  (round_nearest_even m l = m \/ round_nearest_even m l = m + 1)
  /\ (l = loc_Exact -> round_nearest_even m l = m).
Proof.
  split; [| now intros ->].
  destruct l as [| []]; simpl; auto. destruct (Z.even m); auto.
Qed.

(** The second shift: a mantissa of at most 53 bits stays, and [2^53]
    becomes [2^52] on the next grid; the value is the same. *)
Lemma shr_fexp_second m e :
  0 <= m <= 2 ^ 53 -> -1074 <= e ->
  let m3 := shr_m (fst (shr_fexp prec emax m e loc_Exact)) in
  let e3 := snd (shr_fexp prec emax m e loc_Exact) in
  0 <= m3 < 2 ^ 53 /\ (dyadic m3 e3 == dyadic m e)%Q /\ e <= e3 <= e + 1.
Proof.
  intros Hm He m3 e3. subst m3 e3.
  destruct (shr_fexp_spec m e loc_Exact ltac:(lia)) as [Hkeep Hshift].
  rewrite fexp_eq in *.
  destruct (Z.eq_dec m (2 ^ 53)) as [-> | Hne].
  - rewrite (Zdigits2_pow2 53) in * by lia.
    destruct Hshift as (-> & ->); [lia |].
    replace (Z.max (53 + 1 + e - 53) (-1074) - e) with 1 by lia.
    split; [split; reflexivity || (vm_compute; congruence) |]. split; [| lia].
    rewrite <- dyadic_shift by lia. reflexivity.
  - assert (Hd : Zdigits2 m <= 53) by (apply Zdigits2_le; lia).
    destruct Hkeep as (-> & -> & _); [lia |].
    split; [lia |]. split; [reflexivity | lia].
Qed.

(** The rounding that ends every operation: from a mantissa whose cell
    holds the exact value [v], the result is never [NaN], it is [v]
    rounded when it is a number, and it is infinite only for a [v] of
    [2^972] or more. *)
Lemma binary_round_aux_accurate sx m0 e0 l v :
  0 <= m0 -> in_cell m0 e0 v ->
  (fexp prec emax (Zdigits2 m0 + e0) <= e0 ->
   (l = loc_Exact /\ (v == dyadic m0 e0)%Q) \/ 2 ^ 52 <= m0 \/ e0 = -1074) ->
  match binary_round_aux prec emax sx m0 e0 l with
  | S754_finite s m e =>
      s = sx /\ rounded (dyadic (Zpos m) e) v /\ Zpos m < 2 ^ 53 /\ e <= 971
  | S754_zero s => s = sx /\ rounded 0 v
  | S754_infinity _ => (pow2 972 <= v)%Q
  | S754_nan => False
  end.
Proof.
  intros Hm Hcell Hsmall.
  destruct (shr_fexp_first m0 e0 l v Hm Hcell Hsmall) as (Hm' & Hcell' & He1 & Hcases).
  unfold binary_round_aux.
  destruct (shr_fexp prec emax m0 e0 l) as [mrs' e1]. cbn [fst snd] in *.
  set (m' := shr_m mrs') in *. set (l' := loc_of_shr_record mrs') in *.
  destruct (round_nearest_even_cases m' l') as [Hr Hexact].
  set (mr := round_nearest_even m' l') in *.
  destruct (shr_fexp_second mr e1 ltac:(lia) He1) as (Hm3 & Hval & He3).
  destruct (shr_fexp prec emax mr e1 loc_Exact) as [mrs'' e3]. cbn [fst snd] in *.
  assert (Hclose : rounded (dyadic mr e1) v).
  { unfold rounded, unit_roundoff, smallest.
    destruct Hcell' as [Hlo Hhi]. rewrite dyadic_succ in Hhi.
    pose proof (pow2_pos e1) as HP.
    assert (Hval_nonneg : (0 <= dyadic mr e1)%Q) by (apply dyadic_nonneg; lia).
    assert (Hdist : (Qabs (dyadic mr e1 - v) <= pow2 e1)%Q).
    { apply Qabs_Qle_condition.
      destruct Hr as [-> | ->]; [| rewrite dyadic_succ]; split; lra. }
    pose proof (pow2_pos (-52)) as Hu. pose proof (pow2_pos (-1074)) as Heta.
    destruct Hcases as [[Hl Hv] | [Hbig | ->]].
    - rewrite (Hexact Hl), Hv.
      setoid_replace (dyadic m' e1 - dyadic m' e1)%Q with 0%Q using relation Qeq by ring.
      assert ((0 <= pow2 (-52) * dyadic m' e1)%Q).
      { apply Qmult_le_0_compat; [lra | apply dyadic_nonneg; lia]. }
      change (Qabs 0) with 0%Q. lra.
    - eapply Qle_trans; [exact Hdist |].
      assert (Hone : (pow2 (-52) * dyadic (2 ^ 52) e1 == pow2 e1)%Q).
      { unfold dyadic. rewrite pow2_Z by lia.
        rewrite Qmult_assoc, <- pow2_add.
        change (pow2 (-52 + 52)) with 1%Q. ring. }
      assert (Hmono : (dyadic (2 ^ 52) e1 <= dyadic mr e1)%Q) by (apply dyadic_le; lia).
      assert ((pow2 (-52) * dyadic (2 ^ 52) e1 <= pow2 (-52) * dyadic mr e1)%Q).
      { rewrite !(Qmult_comm (pow2 (-52))). apply Qmult_le_compat_r; lra. }
      lra.
    - eapply Qle_trans; [exact Hdist |].
      assert ((0 <= pow2 (-52) * dyadic mr (-1074))%Q).
      { apply Qmult_le_0_compat; lra. }
      lra. }
  unfold rounded in *. rewrite <- Hval in Hclose.
  destruct (shr_m mrs'') as [| m | m] eqn:Hm3'; [| | lia].
  - split; [reflexivity |].
    setoid_replace (dyadic 0 e3) with 0%Q using relation Qeq in Hclose by (unfold dyadic; ring).
    exact Hclose.
  - destruct (Z.leb_spec e3 (emax - prec)) as [Hle | Hgt].
    + split; [reflexivity |]. split; [exact Hclose |]. split; [lia |].
      unfold emax, prec in Hle. lia.
    + unfold emax, prec in Hgt. destruct Hcell' as [Hlo _].
      destruct Hcases as [[Hl Hv] | [Hbig | ->]]; [| | lia].
      * rewrite Hv, <- (Hexact Hl). fold mr. rewrite <- Hval.
        apply Qle_trans with (dyadic 1 e3); [| apply dyadic_le; lia].
        unfold dyadic. rewrite Qmult_1_l. apply pow2_le. lia.
      * eapply Qle_trans; [| exact Hlo].
        apply Qle_trans with (dyadic (2 ^ 52) e1); [| apply dyadic_le; lia].
        unfold dyadic. rewrite pow2_Z, <- pow2_add by lia. apply pow2_le. lia.
Qed.

(** ** Multiplication and division *)

Lemma rounded_zero : rounded 0 0.
Proof.
  unfold rounded, unit_roundoff, smallest.
  pose proof (pow2_pos (-1074)). change (Qabs (0 - 0)) with 0%Q. lra.
Qed.

Lemma dyadic_mul m1 e1 m2 e2 :
  (dyadic (m1 * m2) (e1 + e2) == dyadic m1 e1 * dyadic m2 e2)%Q.
Proof. unfold dyadic. rewrite inject_Z_mult, pow2_add. ring. Qed.

Lemma val_nonneg x : (0 <= val x)%Q.
Proof. destruct x; simpl; try lra. now apply dyadic_nonneg. Qed.

Lemma in_cell_exact m e : in_cell m e (dyadic m e).
Proof.
  split; [lra |]. rewrite dyadic_succ. pose proof (pow2_pos e). lra.
Qed.

Lemma rounded_zero_eq v : (v == 0)%Q -> rounded 0 v.
Proof.
  intros H. unfold rounded. rewrite H. exact rounded_zero.
Qed.

(** A product that is a number is the product of the values, rounded. *)
Lemma mul_accurate x y :
  is_real x = true -> is_real y = true -> is_real (SFmul prec emax x y) = true ->
  rounded (val (SFmul prec emax x y)) (val x * val y).
Proof.
  intros Hx Hy.
  destruct x as [sx | sx | | sx mx ex]; [| discriminate Hx | discriminate Hx |];
    (destruct y as [sy | sy | | sy my ey]; [| discriminate Hy | discriminate Hy |]);
    try (intros _; apply rounded_zero_eq; simpl; ring).
  cbn [SFmul val].
  pose proof (binary_round_aux_accurate (xorb sx sy) (Zpos (mx * my)) (ex + ey) loc_Exact
                (dyadic (Zpos mx) ex * dyadic (Zpos my) ey)) as H.
  rewrite Pos2Z.inj_mul in H.
  assert (Hv : (dyadic (Zpos mx) ex * dyadic (Zpos my) ey
                == dyadic (Zpos mx * Zpos my) (ex + ey))%Q)
    by (now rewrite dyadic_mul).
  specialize (H ltac:(lia)).
  assert (Hcell : in_cell (Zpos mx * Zpos my) (ex + ey)
                          (dyadic (Zpos mx) ex * dyadic (Zpos my) ey)).
  { unfold in_cell. rewrite Hv. apply in_cell_exact. }
  specialize (H Hcell ltac:(intros _; left; split; [reflexivity | exact Hv])).
  rewrite <- Pos2Z.inj_mul in H.
  destruct (binary_round_aux prec emax (xorb sx sy) (Zpos (mx * my)) (ex + ey) loc_Exact)
    as [s | s | | s m e]; try discriminate; intros _; cbn [val]; tauto.
Qed.

(** The integer division at the core of [SFdiv]: the cell of its
    quotient holds the exact quotient, and a quotient that the rounding
    does not shift has 53 bits or more, or lies on the lowest grid. *)
Lemma div_core_spec m1 e1 m2 e2 :
  let '(q, e', l) := SFdiv_core_binary prec emax (Zpos m1) e1 (Zpos m2) e2 in
  0 <= q
  /\ in_cell q e' (dyadic (Zpos m1) e1 / dyadic (Zpos m2) e2)
  /\ (fexp prec emax (Zdigits2 q + e') <= e' -> 2 ^ 52 <= q \/ e' = -1074).
Proof.
  unfold SFdiv_core_binary. rewrite !fexp_eq.
  set (D := Zdigits2 (Zpos m1) + e1 - (Zdigits2 (Zpos m2) + e2)).
  set (e' := Z.min (Z.max (D - 53) (-1074)) (e1 - e2)).
  set (s := e1 - e2 - e').
  assert (Hs : 0 <= s) by (subst s e'; lia).
  set (m' := match s with Z0 => Zpos m1 | Zpos _ => Z.shiftl (Zpos m1) s | Zneg _ => 0 end).
  assert (Hm' : m' = Zpos m1 * 2 ^ s).
  { subst m'. destruct s as [| p | p]; [simpl; lia | | lia].
    now rewrite Z.shiftl_mul_pow2 by lia. }
  clearbody m'.
  assert (Hp : 0 < 2 ^ s) by (apply Z.pow_pos_nonneg; lia).
  pose proof (Z.div_pos m' (Zpos m2) ltac:(lia) eq_refl) as Hq.
  pose proof (Z.mul_div_le m' (Zpos m2) eq_refl) as Hlo.
  pose proof (Z.mul_succ_div_gt m' (Zpos m2) eq_refl) as Hhi.
  unfold Z.div in Hq, Hlo, Hhi.
  destruct (Z.div_eucl m' (Zpos m2)) as [q r]. cbn [fst] in *.
  split; [exact Hq |]. split.
  - assert (Hv : (dyadic (Zpos m1) e1 / dyadic (Zpos m2) e2
                  == inject_Z m' * pow2 e' / inject_Z (Zpos m2))%Q).
    { assert (H1 : (dyadic (Zpos m1) e1 == inject_Z m' * pow2 e' * pow2 e2)%Q).
      { rewrite Hm'. rewrite <- Qmult_assoc, <- pow2_add.
        change (inject_Z (Zpos m1 * 2 ^ s) * pow2 (e' + e2))%Q
          with (dyadic (Zpos m1 * 2 ^ s) (e' + e2)).
        rewrite dyadic_shift by lia. replace (e' + e2 + s) with e1 by (subst s; lia).
        reflexivity. }
      rewrite H1. unfold dyadic.
      pose proof (pow2_pos e2) as He2.
      assert (Hm2 : ~ (inject_Z (Zpos m2) == 0)%Q) by discriminate.
      field. split; [exact Hm2 | lra]. }
    unfold in_cell. rewrite Hv.
    assert (Ha : (0 < inject_Z (Zpos m2))%Q) by reflexivity.
    pose proof (pow2_pos e') as HP.
    unfold dyadic. split.
    + apply Qle_shift_div_l; [exact Ha |].
      rewrite <- Qmult_assoc, (Qmult_comm (pow2 e')), Qmult_assoc.
      apply Qmult_le_compat_r; [| lra].
      rewrite <- inject_Z_mult, <- Zle_Qle. lia.
    + apply Qlt_shift_div_r; [exact Ha |].
      rewrite <- Qmult_assoc, (Qmult_comm (pow2 e')), Qmult_assoc.
      apply Qmult_lt_compat_r; [exact HP |].
      rewrite <- inject_Z_mult, <- Zlt_Qlt. lia.
  - intros Hsmall. rewrite fexp_eq in Hsmall.
    pose proof (Zdigits2_nonneg q) as Hdq.
    assert (He' : e' <= Z.max (D - 53) (-1074)) by (unfold e'; lia).
    assert (Hse : s = e1 - e2 - e') by reflexivity.
    assert (HD : D = Zdigits2 (Zpos m1) + e1 - (Zdigits2 (Zpos m2) + e2)) by reflexivity.
    clearbody s e' D.
    destruct (Z.le_gt_cases e' (D - 53)) as [Hnorm | Hsub]; [left | right; lia].
    destruct (digits2_pos_spec m1) as [Hlo1 _].
    destruct (digits2_pos_spec m2) as [_ Hhi2].
    change (Zpos (digits2_pos m1)) with (Zdigits2 (Zpos m1)) in Hlo1.
    change (Zpos (digits2_pos m2)) with (Zdigits2 (Zpos m2)) in Hhi2.
    pose proof (Zdigits2_nonneg (Zpos m2)) as Hd2.
    assert (Hd1 : 0 < Zdigits2 (Zpos m1)) by reflexivity.
    assert (Hbound : 2 ^ 52 * Zpos m2 <= m').
    { rewrite Hm'.
      apply Z.le_trans with (2 ^ 52 * 2 ^ Zdigits2 (Zpos m2)).
      - apply Z.mul_le_mono_nonneg_l; lia.
      - apply Z.le_trans with (2 ^ (Zdigits2 (Zpos m1) - 1) * 2 ^ s).
        + rewrite <- !Z.pow_add_r by lia. apply Z.pow_le_mono_r; [lia |]. lia.
        + apply Z.mul_le_mono_nonneg_r; lia. }
    nia.
Qed.

(** A quotient that is a number is the quotient of the values,
    rounded. *)
Lemma div_accurate x y :
  is_real x = true -> (0 < val y)%Q -> is_real (SFdiv prec emax x y) = true ->
  rounded (val (SFdiv prec emax x y)) (val x / val y).
Proof.
  intros Hx Hy.
  destruct y as [sy | sy | | sy my ey]; try (simpl in Hy; lra).
  destruct x as [sx | sx | | sx mx ex]; [| discriminate Hx | discriminate Hx |].
  - intros _. apply rounded_zero_eq. simpl. unfold Qdiv. ring.
  - cbn [SFdiv val].
    pose proof (div_core_spec mx ex my ey) as Hcore.
    destruct (SFdiv_core_binary prec emax (Zpos mx) ex (Zpos my) ey) as [[q e'] l].
    destruct Hcore as (Hq & Hcell & Hsmall).
    pose proof (binary_round_aux_accurate (xorb sx sy) q e' l _ Hq Hcell
                  ltac:(intros H; right; now apply Hsmall)) as H.
    destruct (binary_round_aux prec emax (xorb sx sy) q e' l)
      as [s | s | | s m e]; try discriminate; intros _; cbn [val]; tauto.
Qed.

Local Open Scope Q_scope.

Section Drift.
Variables u eta c0 : Q.
Hypothesis Hu : 0 < u /\ u <= 1 # 2.
Hypothesis Heta : 0 < eta /\ eta <= c0.
Hypothesis Hc0 : 0 < c0 /\ c0 <= 1 # 100.

Lemma rnd_bounds p v :
  Qabs (p - v) <= u * p + eta -> - (u * p + eta) <= p - v /\ p - v <= u * p + eta.
Proof. intros H. now apply Qabs_Qle_condition in H. Qed.

Lemma rnd_upper p v : 0 <= p -> Qabs (p - v) <= u * p + eta -> p <= 2 * v + 2 * eta.
Proof.
  intros Hp H. apply rnd_bounds in H as [_ H].
  assert (u * p <= (1 # 2) * p) by (apply Qmult_le_compat_r; tauto).
  lra.
Qed.

Lemma rnd_lower p v : 0 <= p -> Qabs (p - v) <= u * p + eta -> v <= 2 * p + eta.
Proof.
  intros Hp H. apply rnd_bounds in H as [H _].
  assert (u * p <= (1 # 2) * p) by (apply Qmult_le_compat_r; tauto).
  lra.
Qed.

Lemma mul_le a b c : 0 <= c -> a <= b -> a * c <= b * c.
Proof. intros Hc H. now apply Qmult_le_compat_r. Qed.

Lemma mul_nonneg a b : 0 <= a -> 0 <= b -> 0 <= a * b.
Proof. apply Qmult_le_0_compat. Qed.

(** The drift of a round trip, from the accuracy of each step. *)
Lemma drift_bound (A B x f g X1 y yh X2 z zh : Q) :
  0 < A -> 0 < B -> 0 <= x -> 0 <= f -> 0 <= g -> 0 <= X1 -> 0 <= y -> 0 <= yh ->
  0 <= X2 -> 0 <= z -> 0 <= zh ->
  eta * f <= c0 -> eta * g <= c0 ->
  Qabs (f - B / A) <= u * f + eta -> Qabs (g - A / B) <= u * g + eta ->
  Qabs (X1 - x * f) <= u * X1 + eta -> Qabs (y - X1) <= 1 # 20 ->
  Qabs (yh - y) <= u * yh + eta ->
  Qabs (X2 - yh * g) <= u * X2 + eta -> Qabs (z - X2) <= 1 # 20 ->
  Qabs (zh - z) <= u * zh + eta ->
  Qabs (zh - x) <= (1 + A / B) * (1 # 20) + (1 + x + A / B) * (200 * u + 10 * c0).
Proof.
  intros HA HB Hx Hf Hg HX1 Hy Hyh HX2 Hz Hzh Hef Heg Rf Rg R1 T1 Ry R2 T2 Rz.
  set (R := A / B) in *. set (F := B / A) in *.
  assert (HR : 0 < R) by (apply Qlt_shift_div_l; [exact HB | lra]).
  assert (HF : 0 < F) by (apply Qlt_shift_div_l; [exact HA | lra]).
  assert (HFR : F * R == 1) by (subst F R; field; split; lra).
  clearbody R F.
  destruct Hu as [Hu0 Hu1]. destruct Heta as [He0 He1]. destruct Hc0 as [Hc00 Hc01].
  (* sizes *)
  pose proof (rnd_upper g R Hg Rg) as Bg.
  pose proof (rnd_lower g R Hg Rg) as BR.
  pose proof (rnd_upper f F Hf Rf) as Bf.
  pose proof (rnd_lower f F Hf Rf) as BF.
  assert (Bee : eta * eta <= c0 * eta).
  { apply Qmult_le_compat_r; lra. }
  assert (Bee' : c0 * eta <= c0).
  { setoid_replace c0 with (c0 * 1) using relation Qeq at 2 by ring. rewrite !(Qmult_comm c0).
    apply Qmult_le_compat_r; lra. }
  assert (BeR : eta * R <= 3 * c0).
  { assert (eta * R <= eta * (2 * g + eta)).
    { rewrite !(Qmult_comm eta). apply Qmult_le_compat_r; lra. }
    lra. }
  assert (BeF : eta * F <= 3 * c0).
  { assert (eta * F <= eta * (2 * f + eta)).
    { rewrite !(Qmult_comm eta). apply Qmult_le_compat_r; lra. }
    lra. }
  assert (BFg : F * g <= 2 + 6 * c0).
  { assert (F * g <= F * (2 * R + 2 * eta)).
    { rewrite !(Qmult_comm F). apply Qmult_le_compat_r; lra. }
    lra. }
  assert (Bfg : f * g <= 5).
  { assert (f * g <= (2 * F + 2 * eta) * g) by (apply Qmult_le_compat_r; lra).
    lra. }
  assert (Hfg0 : 0 <= f * g) by (apply mul_nonneg; assumption).
  assert (HFg0 : 0 <= F * g) by (apply mul_nonneg; lra).
  assert (Bxfg : x * (f * g) <= 5 * x).
  { rewrite (Qmult_comm x). apply Qmult_le_compat_r; lra. }
  assert (BxFg : x * (F * g) <= 3 * x).
  { rewrite (Qmult_comm x). apply Qmult_le_compat_r; lra. }
  assert (Hxfg0 : 0 <= x * (f * g)) by (apply mul_nonneg; assumption).
  assert (HxFg0 : 0 <= x * (F * g)) by (apply mul_nonneg; assumption).
  pose proof (rnd_upper X1 (x * f) HX1 R1) as BX1.
  assert (BX1g : X1 * g <= 10 * x + 2 * c0).
  { assert (X1 * g <= (2 * (x * f) + 2 * eta) * g) by (apply Qmult_le_compat_r; lra).
    lra. }
  assert (HX1g0 : 0 <= X1 * g) by (apply mul_nonneg; assumption).
  apply Qabs_Qle_condition in T1 as [T1a T1b].
  apply Qabs_Qle_condition in T2 as [T2a T2b].
  pose proof (rnd_upper yh y Hyh Ry) as Byh.
  assert (Byhg : yh * g <= 20 * x + (1 # 10) * g + 6 * c0).
  { assert (yh * g <= (2 * (X1 + (1 # 20)) + 2 * eta) * g)
      by (apply Qmult_le_compat_r; lra).
    lra. }
  assert (Hyhg0 : 0 <= yh * g) by (apply mul_nonneg; assumption).
  pose proof (rnd_upper X2 (yh * g) HX2 R2) as BX2.
  pose proof (rnd_upper zh z Hzh Rz) as Bzh.
  (* the eight steps *)
  destruct (rnd_bounds zh z Rz) as [E1a E1b].
  destruct (rnd_bounds X2 (yh * g) R2) as [E3a E3b].
  destruct (rnd_bounds yh y Ry) as [E4a E4b].
  assert (E4 : - ((u * yh + eta) * g) <= yh * g - y * g
               /\ yh * g - y * g <= (u * yh + eta) * g).
  { split.
    - assert ((- (u * yh + eta)) * g <= (yh - y) * g) by (apply Qmult_le_compat_r; lra).
      lra.
    - assert ((yh - y) * g <= (u * yh + eta) * g) by (apply Qmult_le_compat_r; lra).
      lra. }
  assert (E5 : - ((1 # 20) * g) <= y * g - X1 * g /\ y * g - X1 * g <= (1 # 20) * g).
  { split.
    - assert ((- (1 # 20)) * g <= (y - X1) * g) by (apply Qmult_le_compat_r; lra).
      lra.
    - assert ((y - X1) * g <= (1 # 20) * g) by (apply Qmult_le_compat_r; lra).
      lra. }
  destruct (rnd_bounds X1 (x * f) R1) as [E6a E6b].
  assert (E6 : - ((u * X1 + eta) * g) <= X1 * g - x * (f * g)
               /\ X1 * g - x * (f * g) <= (u * X1 + eta) * g).
  { split.
    - assert ((- (u * X1 + eta)) * g <= (X1 - x * f) * g)
        by (apply Qmult_le_compat_r; lra).
      lra.
    - assert ((X1 - x * f) * g <= (u * X1 + eta) * g)
        by (apply Qmult_le_compat_r; lra).
      lra. }
  destruct (rnd_bounds f F Rf) as [E7a E7b].
  assert (Hxg0 : 0 <= x * g) by (apply mul_nonneg; assumption).
  assert (E7 : - ((u * f + eta) * (x * g)) <= x * (f * g) - x * (F * g)
               /\ x * (f * g) - x * (F * g) <= (u * f + eta) * (x * g)).
  { split.
    - assert ((- (u * f + eta)) * (x * g) <= (f - F) * (x * g))
        by (apply Qmult_le_compat_r; lra).
      lra.
    - assert ((f - F) * (x * g) <= (u * f + eta) * (x * g))
        by (apply Qmult_le_compat_r; lra).
      lra. }
  destruct (rnd_bounds g R Rg) as [E8a E8b].
  assert (HxF0 : 0 <= x * F) by (apply mul_nonneg; lra).
  assert (E8 : - ((u * g + eta) * (x * F)) <= x * (F * g) - x
               /\ x * (F * g) - x <= (u * g + eta) * (x * F)).
  { assert (Hx1 : x * (F * R) == x) by (rewrite HFR; ring).
    split.
    - assert ((- (u * g + eta)) * (x * F) <= (g - R) * (x * F))
        by (apply Qmult_le_compat_r; lra).
      lra.
    - assert ((g - R) * (x * F) <= (u * g + eta) * (x * F))
        by (apply Qmult_le_compat_r; lra).
      lra. }
  (* the products of the error terms *)
  assert (P4 : (u * yh + eta) * g <= u * (yh * g) + c0) by lra.
  assert (P6 : (u * X1 + eta) * g <= u * (X1 * g) + c0) by lra.
  assert (P7 : (u * f + eta) * (x * g) <= u * (x * (f * g)) + c0 * x).
  { assert (eta * g * x <= c0 * x) by (apply Qmult_le_compat_r; lra). lra. }
  assert (P8 : (u * g + eta) * (x * F) <= u * (x * (F * g)) + 3 * c0 * x).
  { assert (eta * F * x <= 3 * c0 * x) by (apply Qmult_le_compat_r; lra). lra. }
  (* sizes of what [u] multiplies *)
  assert (S1 : u * zh <= u * (80 * x + g + 1)).
  { rewrite !(Qmult_comm u). apply Qmult_le_compat_r; lra. }
  assert (S3 : u * X2 <= u * (40 * x + g + 1)).
  { rewrite !(Qmult_comm u). apply Qmult_le_compat_r; lra. }
  assert (S4 : u * (yh * g) <= u * (20 * x + g + 1)).
  { rewrite !(Qmult_comm u). apply Qmult_le_compat_r; lra. }
  assert (S6 : u * (X1 * g) <= u * (10 * x + 1)).
  { rewrite !(Qmult_comm u). apply Qmult_le_compat_r; lra. }
  assert (S7 : u * (x * (f * g)) <= u * (5 * x)).
  { rewrite !(Qmult_comm u). apply Qmult_le_compat_r; lra. }
  assert (S8 : u * (x * (F * g)) <= u * (3 * x)).
  { rewrite !(Qmult_comm u). apply Qmult_le_compat_r; lra. }
  assert (Sg : u * g <= u * (2 * R + 1)).
  { rewrite !(Qmult_comm u). apply Qmult_le_compat_r; lra. }
  assert (HuR : 0 <= u * R) by (apply mul_nonneg; lra).
  assert (Hux : 0 <= u * x) by (apply mul_nonneg; lra).
  assert (Hc0R : 0 <= c0 * R) by (apply mul_nonneg; lra).
  assert (Hc0x : 0 <= c0 * x) by (apply mul_nonneg; lra).
  apply Qabs_Qle_condition. split; lra.
Qed.

End Drift.

Local Close Scope Q_scope.

(** ** Values of numbers *)

Lemma magnitude_val x : (magnitude x == val x)%Q.
Proof.
  destruct x as [s | s | | s m e]; try reflexivity.
  unfold magnitude, val, dyadic.
  destruct (Z.leb_spec 0 e) as [He | He].
  - now rewrite inject_Z_mult, pow2_Z.
  - assert (Hp : 0 < 2 ^ (- e)) by (apply Z.pow_pos_nonneg; lia).
    rewrite (Qmake_Qdiv (Zpos m) (Z.to_pos (2 ^ (- e)))).
    rewrite Z2Pos.id by exact Hp. rewrite pow2_Z by lia.
    replace e with (- - e) at 2 by lia. unfold pow2 at 2. rewrite Qpower_opp.
    reflexivity.
Qed.

Lemma magnitude_nonneg x : (0 <= magnitude x)%Q.
Proof. rewrite magnitude_val. apply val_nonneg. Qed.

(** A number that is finite and not zero has a positive value. *)
Lemma val_positive s m e : (0 < val (S754_finite s m e))%Q.
Proof.
  unfold val, dyadic. apply Qmult_lt_0_compat; [reflexivity | apply pow2_pos].
Qed.

(** The result of a division of finite numbers: never [NaN], infinite
    only for a large quotient, and below [2^1024]. *)
Lemma div_finite_cases sx mx ex sy my ey :
  match div (S754_finite sx mx ex) (S754_finite sy my ey) with
  | S754_finite s m e =>
      rounded (dyadic (Zpos m) e) (dyadic (Zpos mx) ex / dyadic (Zpos my) ey)
      /\ (dyadic (Zpos m) e <= pow2 1024)%Q
  | S754_zero _ => rounded 0 (dyadic (Zpos mx) ex / dyadic (Zpos my) ey)
  | S754_infinity _ => (pow2 972 <= dyadic (Zpos mx) ex / dyadic (Zpos my) ey)%Q
  | S754_nan => False
  end.
Proof.
  unfold div. cbn [SFdiv].
  pose proof (div_core_spec mx ex my ey) as Hcore.
  destruct (SFdiv_core_binary prec emax (Zpos mx) ex (Zpos my) ey) as [[q e'] l].
  destruct Hcore as (Hq & Hcell & Hsmall).
  pose proof (binary_round_aux_accurate (xorb sx sy) q e' l _ Hq Hcell
                ltac:(intros H; right; now apply Hsmall)) as H.
  destruct (binary_round_aux prec emax (xorb sx sy) q e' l) as [s | s | | s m e];
    try tauto.
  destruct H as (_ & Hr & Hm & He). split; [exact Hr |].
  apply Qle_trans with (dyadic (2 ^ 53) e); [apply dyadic_le; lia |].
  unfold dyadic. rewrite pow2_Z, <- pow2_add by lia. apply pow2_le. lia.
Qed.

Lemma mul_finite_cases sx mx ex sy my ey :
  match mul (S754_finite sx mx ex) (S754_finite sy my ey) with
  | S754_finite s m e =>
      rounded (dyadic (Zpos m) e) (dyadic (Zpos mx) ex * dyadic (Zpos my) ey)
  | S754_zero _ => rounded 0 (dyadic (Zpos mx) ex * dyadic (Zpos my) ey)
  | S754_infinity _ => (pow2 972 <= dyadic (Zpos mx) ex * dyadic (Zpos my) ey)%Q
  | S754_nan => False
  end.
Proof.
  unfold mul. cbn [SFmul].
  pose proof (binary_round_aux_accurate (xorb sx sy) (Zpos (mx * my)) (ex + ey) loc_Exact
                (dyadic (Zpos mx) ex * dyadic (Zpos my) ey)) as H.
  rewrite Pos2Z.inj_mul in H.
  assert (Hv : (dyadic (Zpos mx) ex * dyadic (Zpos my) ey
                == dyadic (Zpos mx * Zpos my) (ex + ey))%Q)
    by (now rewrite dyadic_mul).
  specialize (H ltac:(lia)).
  assert (Hcell : in_cell (Zpos mx * Zpos my) (ex + ey)
                          (dyadic (Zpos mx) ex * dyadic (Zpos my) ey)).
  { unfold in_cell. rewrite Hv. apply in_cell_exact. }
  specialize (H Hcell ltac:(intros _; left; split; [reflexivity | exact Hv])).
  rewrite <- Pos2Z.inj_mul in H.
  destruct (binary_round_aux prec emax (xorb sx sy) (Zpos (mx * my)) (ex + ey) loc_Exact)
    as [s | s | | s m e]; tauto.
Qed.

(** The number nearest to [p / q]: never [NaN], and a number when the
    quotient is below [2^972]. *)
Lemma nearest_accurate p q :
  0 <= p -> (inject_Z p / inject_Z (Zpos q) < pow2 972)%Q ->
  is_real (nearest p q) = true
  /\ rounded (val (nearest p q)) (inject_Z p / inject_Z (Zpos q)).
Proof.
  intros Hp Hsmall. destruct p as [| m | m]; [| | lia].
  - split; [reflexivity |]. apply rounded_zero_eq. unfold Qdiv. ring.
  - unfold nearest.
    pose proof (div_finite_cases false m 0 false q 0) as H.
    assert (Hv : (dyadic (Zpos m) 0 / dyadic (Zpos q) 0
                  == inject_Z (Zpos m) / inject_Z (Zpos q))%Q).
    { unfold dyadic. change (pow2 0) with 1%Q. now rewrite !Qmult_1_r. }
    destruct (div (S754_finite false m 0) (S754_finite false q 0)) as [s | s | | s m' e].
    + split; [reflexivity |]. unfold rounded in *. cbn [val]. now rewrite <- Hv.
    + rewrite Hv in H. lra.
    + destruct H.
    + split; [reflexivity |]. destruct H as [H _].
      unfold rounded in *. cbn [val]. now rewrite <- Hv.
Qed.

(** ** The text of a rounded number, read again *)

Ltac digit_values :=
  repeat match goal with
         | |- context [digit_value ?c] =>
             let v := eval vm_compute in (digit_value c) in
             change (digit_value c) with v
         end.

Lemma digits_value_of_uint_acc d :
  forall acc, digits_value (Zpos acc) (NilEmpty.string_of_uint d)
              = Zpos (Pos.of_uint_acc d acc).
Proof.
  induction d as [| d IH | d IH | d IH | d IH | d IH | d IH | d IH | d IH | d IH | d IH];
    intros acc; cbn [NilEmpty.string_of_uint digits_value Pos.of_uint_acc];
    [reflexivity | ..]; rewrite <- IH; f_equal; digit_values; lia.
Qed.

Lemma digits_value_of_uint d :
  digits_value 0 (NilEmpty.string_of_uint d) = Z.of_N (Pos.of_uint d).
Proof.
  induction d as [| d IH | d IH | d IH | d IH | d IH | d IH | d IH | d IH | d IH | d IH];
    cbn [NilEmpty.string_of_uint digits_value Pos.of_uint];
    [reflexivity | digit_values; exact IH | ..];
    digit_values; cbn [Z.of_N]; rewrite <- digits_value_of_uint_acc; reflexivity.
Qed.

(** The digits of a natural number read as that number. *)
Lemma digits_value_decimal n : 0 <= n -> digits_value 0 (decimal n) = n.
Proof.
  intros Hn. unfold decimal.
  pose proof (DecimalN.Unsigned.of_to (Z.to_N n)) as Hof. unfold N.of_uint in Hof.
  unfold NilZero.string_of_uint.
  destruct (N.to_uint (Z.to_N n)) eqn:E;
    try (rewrite digits_value_of_uint, Hof; lia).
  simpl in Hof. cbn [digits_value]. digit_values. lia.
Qed.

Lemma decimal_digit d :
  0 <= d <= 9 ->
  exists c, decimal d = String c "" /\ digit_value c = d.
Proof.
  intros Hd.
  assert (H : d = 0 \/ d = 1 \/ d = 2 \/ d = 3 \/ d = 4 \/ d = 5 \/ d = 6 \/ d = 7
              \/ d = 8 \/ d = 9) by lia.
  repeat (destruct H as [-> | H]; [eexists; split; reflexivity |]).
  subst d. eexists; split; reflexivity.
Qed.

Lemma tenths_nonneg m e : 0 <= tenths m e.
Proof.
  unfold tenths. destruct (Z.leb_spec 0 e) as [He | He].
  - assert (0 < 2 ^ e) by (apply Z.pow_pos_nonneg; lia). lia.
  - assert (0 < 2 ^ (- e)) by (apply Z.pow_pos_nonneg; lia).
    apply Z.div_pos; lia.
Qed.

Lemma tenths_of_nonneg x : 0 <= tenths_of x.
Proof. destruct x; simpl; try lia. apply tenths_nonneg. Qed.

(** What [toFixed(1)] and the clean-up write for a number in range. *)
Lemma rewrite_in_range factor m :
  number_text m ->
  in_range (mul (parseFloat (replace_first "," "." m)) factor) = true ->
  scale_match factor m
  = tenths_text (separator_of m)
                (tenths_of (mul (parseFloat (replace_first "," "." m)) factor)).
Proof.
  intros Hm Hrange. rewrite (scale_match_steps _ m Hm).
  destruct (mul (parseFloat (replace_first "," "." m)) factor) as [s | s | | s mant e] eqn:Hx;
    try discriminate.
  - rewrite (spec_rewrite_zero factor m s Hx). reflexivity.
  - destruct s; [discriminate |]. simpl in Hrange. apply negb_true_iff in Hrange.
    now rewrite (spec_rewrite_fixed factor m false mant e Hx Hrange).
Qed.

(** The text of tenths is a number text. *)
Lemma tenths_text_number sep n :
  is_sep sep = true -> 0 <= n -> number_text (tenths_text sep n).
Proof.
  intros Hsep Hn. unfold tenths_text.
  exists (decimal (n / 10)).
  split; [apply decimal_digits |]. split; [apply decimal_nonempty |].
  destruct (Z.eqb_spec (n mod 10) 0) as [Hz | Hnz].
  - left. apply append_empty_r.
  - right. exists sep, (decimal (n mod 10)).
    split; [exact Hsep |]. split; [apply decimal_digits |].
    split; [apply decimal_nonempty | reflexivity].
Qed.

(** The number read from the text of tenths is nearest to the tenths. *)
Lemma parseFloat_tenths_text sep n :
  is_sep sep = true -> 0 <= n ->
  exists p q,
    parseFloat (replace_first "," "." (tenths_text sep n)) = nearest p q
    /\ 0 <= p
    /\ (inject_Z p / inject_Z (Zpos q) == inject_Z n / 10)%Q.
Proof.
  intros Hsep Hn. unfold tenths_text.
  pose proof (Z.div_pos n 10 Hn eq_refl) as Hq.
  pose proof (Z.mod_pos_bound n 10 eq_refl) as Hr.
  pose proof (Z.div_mod n 10 ltac:(lia)) as Hdm.
  destruct (parseFloat_match (decimal (n / 10)) sep (decimal (n mod 10))
              (decimal_digits _) (decimal_nonempty _) Hsep (decimal_digits _))
    as [Hwhole Hfrac].
  rewrite digits_value_decimal in Hwhole, Hfrac by exact Hq.
  destruct (Z.eqb_spec (n mod 10) 0) as [Hz | Hnz].
  - rewrite append_empty_r. exists (n / 10), 1%positive.
    split; [exact Hwhole |]. split; [exact Hq |].
    replace n with (10 * (n / 10)) at 2 by lia.
    rewrite inject_Z_mult. field.
  - destruct (decimal_digit (n mod 10) ltac:(lia)) as (c & Hc & Hv).
    rewrite Hc in Hfrac. cbn [digits_value String.length] in Hfrac.
    rewrite Hv in Hfrac. rewrite Hc.
    exists (10 * (n / 10) + n mod 10), 10%positive.
    split; [exact Hfrac |]. split; [lia |].
    replace (10 * (n / 10) + n mod 10) with n by lia. reflexivity.
Qed.

Lemma at_least_1e21_val s m e :
  at_least_1e21 m e = false -> (val (S754_finite s m e) < inject_Z (10 ^ 21))%Q.
Proof.
  unfold at_least_1e21. intros H. rewrite <- magnitude_val. unfold magnitude.
  destruct (Z.leb_spec 0 e) as [He | He].
  - apply Z.leb_gt in H. now rewrite <- Zlt_Qlt.
  - apply Z.leb_gt in H.
    assert (Hp : 0 < 2 ^ (- e)) by (apply Z.pow_pos_nonneg; lia).
    unfold Qlt. cbn [Qnum Qden inject_Z]. rewrite Z2Pos.id by exact Hp. lia.
Qed.

(** The tenths written for a number in range are at most one
    twentieth away from it. *)
Lemma tenths_of_close x :
  in_range x = true ->
  (Qabs (inject_Z (tenths_of x) / 10 - val x) <= 1 # 20)%Q
  /\ (val x < inject_Z (10 ^ 21))%Q.
Proof.
  destruct x as [s | s | | s m e]; try discriminate; intros H.
  - split; [vm_compute; discriminate | reflexivity].
  - destruct s; [discriminate |]. simpl in H. apply negb_true_iff in H.
    split; [| now apply at_least_1e21_val].
    pose proof (tenths_nearest false m e) as Hn. rewrite magnitude_val in Hn.
    cbn [tenths_of]. apply Qabs_Qle_condition in Hn as [H1 H2].
    apply Qabs_Qle_condition.
    set (t := inject_Z (tenths m e)) in *. set (v := val (S754_finite false m e)) in *.
    clearbody t v.
    setoid_replace (t / 10)%Q with (t * (1 # 10))%Q using relation Qeq
      by (unfold Qdiv; reflexivity).
    split; lra.
Qed.

(** ** The tokens of a scan *)

Lemma match_number_rest s m rest :
  match_number s = Some (m, rest) ->
  match rest with String c _ => is_digit c = false | EmptyString => True end.
Proof.
  unfold match_number.
  pose proof (span_digits_spec s) as Hs.
  destruct (span_digits s) as [ip r]. destruct Hs as (-> & Hip & Hr).
  destruct ip as [| d ip]; [discriminate |].
  destruct r as [| c r'].
  - intros [= <- <-]. exact I.
  - destruct (is_sep c) eqn:Hc.
    + pose proof (span_digits_spec r') as Hs'.
      destruct (span_digits r') as [fp r'']. destruct Hs' as (-> & Hfp & Hr'').
      destruct fp as [| f fp].
      * intros [= <- <-]. exact Hr.
      * intros [= <- <-]. exact Hr''.
    + intros [= <- <-]. exact Hr.
Qed.

Lemma match_number_digit c s :
  is_digit c = true -> match_number (String c s) <> None.
Proof.
  intros Hc. unfold match_number. cbn [span_digits]. rewrite Hc.
  destruct (span_digits s) as [ds r].
  destruct r as [| x r]; [discriminate |].
  destruct (is_sep x); [| discriminate].
  destruct (span_digits r) as [fp r'']. destruct fp; discriminate.
Qed.

Lemma scan_fuel_after fuel rest :
  match rest with String c _ => is_digit c = false | EmptyString => True end ->
  match scan_fuel fuel rest with Num _ :: _ => False | _ => True end.
Proof.
  intros Hrest. destruct fuel as [| fuel]; [exact I |].
  destruct rest as [| c rest]; [exact I |].
  cbn [scan_fuel]. now rewrite (match_number_not_digit c rest Hrest).
Qed.

Lemma scanned_scan_fuel fuel : forall s, scanned (scan_fuel fuel s) = true.
Proof.
  induction fuel as [| fuel IH]; intros s; [reflexivity |].
  destruct s as [| c s]; [reflexivity |]. cbn [scan_fuel].
  destruct (match_number (String c s)) as [[m rest] |] eqn:Hm.
  - cbn [scanned]. rewrite IH, andb_true_r.
    pose proof (scan_fuel_after fuel rest (match_number_rest _ _ _ Hm)) as H.
    destruct (scan_fuel fuel rest) as [| [c' | m'] ts];
      [reflexivity | reflexivity | destruct H].
  - cbn [scanned]. rewrite IH, andb_true_r. apply negb_true_iff.
    destruct (is_digit c) eqn:Hc; [| reflexivity].
    now destruct (match_number_digit c s Hc).
Qed.

(** Every scan is a list of digit-free texts and separate numbers. *)
Lemma scanned_scan s : scanned (scan s) = true.
Proof. apply scanned_scan_fuel. Qed.

Lemma number_text_is_number m : number_text m -> is_number m = true.
Proof.
  intros (ip & Hip & Hne & [-> | (c & fp & Hc & Hfp & Hfne & ->)]);
    unfold is_number, match_number.
  - rewrite (span_digits_all ip Hip). destruct ip; [congruence | reflexivity].
  - rewrite (span_digits_digits ip (String c fp) Hip (is_sep_not_digit c Hc)).
    destruct ip as [| d ip]; [congruence |].
    rewrite Hc, (span_digits_all fp Hfp).
    destruct fp; [congruence | reflexivity].
Qed.

Lemma scanned_map_numbers f ts : scanned (map_numbers f ts) = scanned ts.
Proof.
  induction ts as [| [c | m] ts IH]; [reflexivity | |].
  - cbn [map_numbers fmap list_fmap scanned]. fold (map_numbers f ts). now rewrite IH.
  - cbn [map_numbers fmap list_fmap scanned]. fold (map_numbers f ts). rewrite IH.
    now destruct ts as [| [c' | m'] ts'].
Qed.

Lemma spaced_map_numbers f ts : spaced (map_numbers f ts) = spaced ts.
Proof.
  induction ts as [| [c | m] ts IH]; [reflexivity | |].
  - cbn [map_numbers fmap list_fmap spaced]. fold (map_numbers f ts). now rewrite IH.
  - cbn [map_numbers fmap list_fmap spaced]. fold (map_numbers f ts). rewrite IH.
    now destruct ts as [| [c' | m'] [| [c'' | m''] ts']].
Qed.

(** Rewriting the numbers of a scan whose numbers are spaced by other
    matches of the pattern gives tokens that a scan of their text gives
    back. *)
Lemma canonical_map_numbers f ts :
  scanned ts = true -> spaced ts = true ->
  (forall m, In (Num m) ts -> is_number (f m) = true) ->
  canonical (map_numbers f ts) = true.
Proof.
  induction ts as [| [c | m] ts IH]; intros Hscan Hspaced Hnum; [reflexivity | |].
  - cbn [scanned spaced] in Hscan, Hspaced. apply andb_true_iff in Hscan as [Hc Hscan].
    cbn [map_numbers fmap list_fmap canonical]. fold (map_numbers f ts).
    rewrite Hc, IH; [reflexivity | exact Hscan | exact Hspaced |].
    intros m Hin. apply Hnum. now right.
  - cbn [scanned spaced] in Hscan, Hspaced.
    apply andb_true_iff in Hscan as [Hnext Hscan].
    apply andb_true_iff in Hspaced as [Hfollow Hspaced].
    apply negb_true_iff in Hfollow.
    cbn [map_numbers fmap list_fmap canonical]. fold (map_numbers f ts).
    rewrite (Hnum m (or_introl eq_refl)), IH;
      [| exact Hscan | exact Hspaced | intros m' Hin; apply Hnum; now right].
    rewrite andb_true_r. cbn [andb].
    destruct ts as [| [c | m2] ts']; [reflexivity | | discriminate Hnext].
    cbn [map_numbers fmap list_fmap stays_apart].
    destruct ts' as [| [c2 | m3] ts'']; cbn [fmap list_fmap].
    + now destruct (is_sep c && negb (has_fraction (f m))).
    + now destruct (is_sep c && negb (has_fraction (f m))).
    + cbn [follows_at_once] in Hfollow. now rewrite Hfollow.
Qed.

Lemma map_numbers_compose g f ts :
  map_numbers g (map_numbers f ts) = map_numbers (fun m => g (f m)) ts.
Proof.
  unfold map_numbers. rewrite <- list_fmap_compose.
  apply list_fmap_ext. intros i [c | m] _; reflexivity.
Qed.

Lemma in_map_numbers f ts m' :
  In (Num m') (map_numbers f ts) -> exists m, m' = f m /\ In (Num m) ts.
Proof.
  unfold map_numbers. intros H. apply in_map_iff in H as ([c | m] & Heq & Hin);
    [discriminate |].
  injection Heq as <-. eauto.
Qed.

Lemma close_map_numbers bound f ts :
  (forall m, In (Num m) ts -> (Qabs (value_of (f m) - value_of m) <= bound m)%Q) ->
  Forall2 (close_within bound) ts (map_numbers f ts).
Proof.
  induction ts as [| [c | m] ts IH]; intros H; [constructor | |].
  - constructor; [reflexivity |]. apply IH. intros m Hin. apply H. now right.
  - constructor; [apply H; now left |]. apply IH. intros m' Hin. apply H. now right.
Qed.

(** ** One number on the round trip *)

Lemma in_range_real x : in_range x = true -> is_real x = true.
Proof. destruct x as [s | s | | s m e]; try discriminate; reflexivity. Qed.

(** A product that is a number is one of two numbers. *)
Lemma mul_real x y :
  is_real (mul x y) = true -> is_real x = true /\ is_real y = true.
Proof.
  destruct x as [sx | sx | | sx mx ex], y as [sy | sy | | sy my ey];
    try discriminate; auto.
Qed.

(** When both quotients of two numbers that are not zero are numbers,
    the two are finite. *)
Lemma div_real_both a b :
  truthy a = true -> truthy b = true ->
  is_real (div b a) = true -> is_real (div a b) = true ->
  (0 < val a)%Q /\ (0 < val b)%Q /\ is_real a = true /\ is_real b = true.
Proof.
  destruct a as [sa | sa | | sa ma ea], b as [sb | sb | | sb mb eb];
    try discriminate; intros _ _ _ _.
  repeat split; apply val_positive.
Qed.

Lemma separator_of_sep m : is_sep (separator_of m) = true.
Proof. unfold separator_of. now destruct (contains "," m). Qed.

(** A quotient that is a number stays below [2^1024]. *)
Lemma div_below x y :
  is_real x = true -> (0 < val y)%Q -> (val (div x y) <= pow2 1024)%Q.
Proof.
  intros Hx Hy.
  destruct y as [sy | sy | | sy my ey]; try (simpl in Hy; lra).
  destruct x as [sx | sx | | sx mx ex]; try discriminate;
    try (simpl; pose proof (pow2_pos 1024); lra).
  pose proof (div_finite_cases sx mx ex sy my ey) as H.
  destruct (div (S754_finite sx mx ex) (S754_finite sy my ey)) as [s | s | | s m e];
    try (simpl; pose proof (pow2_pos 1024); lra).
  cbn [val]. tauto.
Qed.

(** The number read from the text of tenths below [10^21 + 1]. *)
Lemma reading_rounded sep n :
  is_sep sep = true -> 0 <= n -> (inject_Z n / 10 <= inject_Z (10 ^ 21) + 1)%Q ->
  is_real (parseFloat (replace_first "," "." (tenths_text sep n))) = true
  /\ rounded (val (parseFloat (replace_first "," "." (tenths_text sep n))))
             (inject_Z n / 10).
Proof.
  intros Hsep Hn Hsmall.
  destruct (parseFloat_tenths_text sep n Hsep Hn) as (p & q & -> & Hp & Hpq).
  assert (Hbig : (inject_Z (10 ^ 21) + 1 < pow2 972)%Q) by reflexivity.
  destruct (nearest_accurate p q Hp) as [Hreal Hr].
  { rewrite Hpq. lra. }
  split; [exact Hreal |]. unfold rounded in *. now rewrite <- Hpq.
Qed.

(** One rewriting: the text is a number text, and the number read from
    it is within a twentieth and the rounding of the arithmetic of the
    scaled value. *)
Lemma rewriting_accurate factor m :
  number_text m -> in_range (scaled factor m) = true ->
  exists X y : Q,
    number_text (scale_match factor m)
    /\ is_real (parseFloat (replace_first "," "." m)) = true
    /\ is_real factor = true
    /\ is_real (parseFloat (replace_first "," "." (scale_match factor m))) = true
    /\ (0 <= X)%Q /\ (0 <= y)%Q
    /\ rounded X (val (parseFloat (replace_first "," "." m)) * val factor)
    /\ (Qabs (y - X) <= 1 # 20)%Q
    /\ rounded (val (parseFloat (replace_first "," "." (scale_match factor m)))) y.
Proof.
  intros Hm Hrange. unfold scaled in Hrange.
  pose proof (rewrite_in_range factor m Hm Hrange) as Htext.
  pose proof (tenths_of_close _ Hrange) as [Hclose Hbelow].
  pose proof (tenths_of_nonneg (mul (parseFloat (replace_first "," "." m)) factor)) as Ht.
  destruct (mul_real _ _ (in_range_real _ Hrange)) as [Hx Hf].
  pose proof (mul_accurate _ _ Hx Hf (in_range_real _ Hrange)) as Hmul.
  set (t := tenths_of (mul (parseFloat (replace_first "," "." m)) factor)) in *.
  set (X := val (mul (parseFloat (replace_first "," "." m)) factor)) in *.
  assert (HX : (0 <= X)%Q) by apply val_nonneg.
  assert (Hy : (0 <= inject_Z t / 10)%Q).
  { apply Qle_shift_div_l; [reflexivity |]. rewrite Qmult_0_l.
    change 0%Q with (inject_Z 0). now rewrite <- Zle_Qle. }
  assert (Hsmall : (inject_Z t / 10 <= inject_Z (10 ^ 21) + 1)%Q).
  { apply Qabs_Qle_condition in Hclose as [_ Hclose].
    set (y := (inject_Z t / 10)%Q) in *. clearbody y X. lra. }
  destruct (reading_rounded (separator_of m) t (separator_of_sep m) Ht Hsmall)
    as [Hreal Hread].
  exists X, (inject_Z t / 10)%Q. rewrite Htext.
  repeat split; try assumption.
  apply tenths_text_number; [apply separator_of_sep | exact Ht].
Qed.

Lemma slack_bound :
  (200 * unit_roundoff + 10 * pow2 (-50) <= 1 # 17592186044416)%Q.
Proof. vm_compute. discriminate. Qed.

(** A number of the line against what the round trip has made of it. *)
Lemma round_trip_number a b m :
  truthy a = true -> truthy b = true -> number_text m ->
  in_range (scaled (div b a) m) = true ->
  in_range (scaled (div a b) (scale_match (div b a) m)) = true ->
  number_text (scale_match (div b a) m)
  /\ number_text (scale_match (div a b) (scale_match (div b a) m))
  /\ (Qabs (value_of (scale_match (div a b) (scale_match (div b a) m)) - value_of m)
      <= drift a b m)%Q.
Proof.
  intros Ha Hb Hm H1 H2.
  destruct (rewriting_accurate (div b a) m Hm H1)
    as (X1 & y & Hm1 & Hx & Hf & Hyh & HX1 & Hy & R1 & T1 & Ry).
  destruct (rewriting_accurate (div a b) _ Hm1 H2)
    as (X2 & z & Hm2 & _ & Hg & Hzh & HX2 & Hz & R2 & T2 & Rz).
  split; [exact Hm1 |]. split; [exact Hm2 |].
  destruct (div_real_both a b Ha Hb Hf Hg) as (HA & HB & Hra & Hrb).
  pose proof (div_accurate b a Hrb HA Hf) as Rf.
  pose proof (div_accurate a b Hra HB Hg) as Rg.
  pose proof (div_below b a Hrb HA) as Bf.
  pose proof (div_below a b Hra HB) as Bg.
  unfold drift, value_of. rewrite !magnitude_val.
  assert (Hsmallest : forall v, (0 <= v)%Q -> (v <= pow2 1024)%Q ->
                                (smallest * v <= pow2 (-50))%Q).
  { intros v Hv Hle. unfold smallest.
    apply Qle_trans with (pow2 (-1074) * pow2 1024)%Q.
    - apply Qmult_le_l; [apply pow2_pos | exact Hle].
    - rewrite <- pow2_add. apply Qle_refl. }
  pose proof (drift_bound unit_roundoff smallest (pow2 (-50))
                ltac:(split; [apply pow2_pos | vm_compute; discriminate])
                ltac:(split; [apply pow2_pos | vm_compute; discriminate])
                ltac:(split; [apply pow2_pos | vm_compute; discriminate])
                (val a) (val b) (val (parseFloat (replace_first "," "." m)))
                (val (div b a)) (val (div a b)) X1 y
                (val (parseFloat (replace_first "," "." (scale_match (div b a) m))))
                X2 z
                (val (parseFloat (replace_first "," "."
                        (scale_match (div a b) (scale_match (div b a) m)))))
                HA HB (val_nonneg _) (val_nonneg _) (val_nonneg _) HX1 Hy (val_nonneg _)
                HX2 Hz (val_nonneg _)
                (Hsmallest _ (val_nonneg _) Bf) (Hsmallest _ (val_nonneg _) Bg)
                Rf Rg R1 T1 Ry R2 T2 Rz) as Hdrift.
  eapply Qle_trans; [exact Hdrift |].
  apply Qplus_le_r. apply Qmult_le_l; [| exact slack_bound].
  pose proof (val_nonneg (parseFloat (replace_first "," "." m))).
  assert (0 <= val a / val b)%Q by (apply Qle_shift_div_l; [exact HB | lra]).
  lra.
Qed.

Lemma drift_nonneg a b m :
  (Qabs (value_of m - value_of m) <= drift a b m)%Q.
Proof.
  unfold drift.
  pose proof (magnitude_nonneg a) as HA. pose proof (magnitude_nonneg b) as HB.
  pose proof (magnitude_nonneg (parseFloat (replace_first "," "." m))) as Hx.
  fold (value_of m) in Hx.
  assert (HR : (0 <= magnitude a / magnitude b)%Q).
  { destruct (Qlt_le_dec 0 (magnitude b)) as [Hpos | Hzero].
    - apply Qle_shift_div_l; [exact Hpos | lra].
    - assert (Hb0 : (magnitude b == 0)%Q) by lra.
      unfold Qdiv. rewrite Hb0. change (/ 0)%Q with 0%Q. lra. }
  setoid_replace (value_of m - value_of m)%Q with 0%Q using relation Qeq by ring.
  change (Qabs 0) with 0%Q.
  set (R := (magnitude a / magnitude b)%Q) in *. set (x := value_of m) in *.
  clearbody R x. lra.
Qed.


(** C8, amended. For every line and every pair of serving counts [a]
    and [b] that are not zero, the line scaled from [a] to [b] and back
    scans to the tokens of the line with all text identical and every
    number within [drift a b] of the original: [0.05] for the second
    rounding, [0.05 * a / b] for the first, whose error is scaled on
    the way back, and the rounding of the binary arithmetic. This
    holds when no number of the line is followed at once by a separator
    and another number, and when every scaled value, on the way forth
    and on the way back, is zero or positive and below [10^21], so that
    it is written as plain digits. *)
Theorem round_trip_drift :
  forall (line : string) (a b : number),
    truthy a = true -> truthy b = true ->
    spaced (scan line) = true ->
    (forall m, In (Num m) (scan line) ->
               in_range (scaled (div b a) m) = true
               /\ in_range (scaled (div a b) (scale_match (div b a) m)) = true) ->
    Forall2 (close_within (drift a b))
      (scan line)
      (scan (scaleIngredientLine (scaleIngredientLine line a b) b a)).
Proof.
  intros line a b Ha Hb Hspaced Hrange.
  destruct (strict_eq a b) eqn:Hne.
  - assert (Hsame : scaleIngredientLine (scaleIngredientLine line a b) b a = line).
    { unfold scaleIngredientLine. rewrite (strict_eq_sym b a), Hne, !orb_true_r.
      reflexivity. }
    rewrite Hsame.
    assert (Hid : scan line = map_numbers (fun m => m) (scan line)).
    { unfold map_numbers. rewrite <- (list_fmap_id (scan line)) at 1.
      apply list_fmap_ext. intros i [c | m] _; reflexivity. }
    rewrite Hid at 2. apply close_map_numbers. intros m _.
    apply drift_nonneg.
  - set (f1 := scale_match (div b a)). set (f2 := scale_match (div a b)).
    assert (Hnum : forall m, In (Num m) (scan line) ->
                             number_text (f1 m) /\ number_text (f2 (f1 m))
                             /\ (Qabs (value_of (f2 (f1 m)) - value_of m)
                                 <= drift a b m)%Q).
    { intros m Hin. destruct (Hrange m Hin) as [H1 H2].
      exact (round_trip_number a b m Ha Hb (scan_numbers line m Hin) H1 H2). }
    assert (Hforth : scaleIngredientLine line a b = flatten (map_numbers f1 (scan line))).
    { rewrite flatten_map_numbers. unfold scaleIngredientLine, replace_numbers.
      now rewrite Ha, Hb, Hne. }
    assert (Hcan1 : canonical (map_numbers f1 (scan line)) = true).
    { apply canonical_map_numbers; [apply scanned_scan | exact Hspaced |].
      intros m Hin. apply number_text_is_number. now apply Hnum. }
    assert (Hback : scaleIngredientLine (scaleIngredientLine line a b) b a
                    = flatten (map_numbers (fun m => f2 (f1 m)) (scan line))).
    { rewrite Hforth. unfold scaleIngredientLine at 1, replace_numbers.
      rewrite Ha, Hb, strict_eq_sym, Hne. cbn [negb orb].
      rewrite (scan_flatten _ Hcan1), <- (map_numbers_compose f2 f1).
      now rewrite (flatten_map_numbers f2). }
    assert (Hcan2 : canonical (map_numbers (fun m => f2 (f1 m)) (scan line)) = true).
    { apply canonical_map_numbers; [apply scanned_scan | exact Hspaced |].
      intros m Hin. apply number_text_is_number. now apply Hnum. }
    rewrite Hback, (scan_flatten _ Hcan2).
    apply close_map_numbers. intros m Hin. now apply Hnum.
Qed.

Lemma round_trip_drift_witness :
  Forall2 (close_within (drift (of_Z 4) (of_Z 1)))
    (scan "1 Ei, 2,5 l Milch")
    (scan (scaleIngredientLine (scaleIngredientLine "1 Ei, 2,5 l Milch" (of_Z 4) (of_Z 1))
                               (of_Z 1) (of_Z 4))).
Proof.
  apply (round_trip_drift "1 Ei, 2,5 l Milch" (of_Z 4) (of_Z 1)); try reflexivity.
  intros m Hin. vm_compute in Hin.
  repeat (destruct Hin as [Hin | Hin]; try discriminate Hin;
          try (injection Hin as <-; split; vm_compute; reflexivity)).
  destruct Hin.
Defined.

(** The three conditions of the amended claim are needed: without
    each of them the round trip gives a line that scans to other
    tokens, whatever the bound on the numbers. *)

(** A number followed at once by a separator and a number: ["1,5,5 kg"]
    doubled reads ["3,10 kg"], whose one number comes back as
    ["1,6 kg"]. *)
Lemma round_trip_needs_spacing :
  spaced (scan "1,5,5 kg") = false
  /\ scaleIngredientLine "1,5,5 kg" (of_Z 1) (of_Z 2) = "3,10 kg"%string
  /\ scaleIngredientLine "3,10 kg" (of_Z 2) (of_Z 1) = "1,6 kg"%string
  /\ forall bound,
      ~ Forall2 (close_within bound)
          (scan "1,5,5 kg")
          (scan (scaleIngredientLine (scaleIngredientLine "1,5,5 kg" (of_Z 1) (of_Z 2))
                                     (of_Z 2) (of_Z 1))).
Proof.
  split; [vm_compute; reflexivity |].
  split; [vm_compute; reflexivity |].
  split; [vm_compute; reflexivity |].
  intros bound H. apply Forall2_length in H. vm_compute in H. discriminate H.
Qed.

(** A scaled value of [10^21]: it is written ["1e+21"], which scans to
    two numbers. *)
Lemma round_trip_needs_range :
  in_range (scaled (div (of_Z (10 ^ 21)) (of_Z 1)) "1") = false
  /\ scaleIngredientLine "1 l" (of_Z 1) (of_Z (10 ^ 21)) = "1e+21 l"%string
  /\ scaleIngredientLine "1e+21 l" (of_Z (10 ^ 21)) (of_Z 1) = "0e+0 l"%string
  /\ forall bound,
      ~ Forall2 (close_within bound)
          (scan "1 l")
          (scan (scaleIngredientLine (scaleIngredientLine "1 l" (of_Z 1) (of_Z (10 ^ 21)))
                                     (of_Z (10 ^ 21)) (of_Z 1))).
Proof.
  split; [vm_compute; reflexivity |].
  split; [vm_compute; reflexivity |].
  split; [vm_compute; reflexivity |].
  intros bound H. apply Forall2_length in H. vm_compute in H. discriminate H.
Qed.

(** A negative scaled value: its sign is text on the way back, and
    the number gets a second one. *)
Lemma round_trip_needs_sign :
  in_range (scaled (div (of_Z 1) (of_Z (-1))) "1") = false
  /\ scaleIngredientLine "1 l" (of_Z (-1)) (of_Z 1) = "-1 l"%string
  /\ scaleIngredientLine "-1 l" (of_Z 1) (of_Z (-1)) = "--1 l"%string
  /\ forall bound,
      ~ Forall2 (close_within bound)
          (scan "1 l")
          (scan (scaleIngredientLine (scaleIngredientLine "1 l" (of_Z (-1)) (of_Z 1))
                                     (of_Z 1) (of_Z (-1)))).
Proof.
  split; [vm_compute; reflexivity |].
  split; [vm_compute; reflexivity |].
  split; [vm_compute; reflexivity |].
  intros bound H. apply Forall2_length in H. vm_compute in H. discriminate H.
Qed.

(** * Further properties of the code *)

(** ** Retry with backoff: invocations and waits *)




(** X2. An error that is not a rate limit is thrown on at once: one
    invocation, no wait. *)
Theorem retry_other_error_propagates :
  forall (W T : Type) (operation : W -> completion T * W) (maxRetries : Z)
         (w w' : W) (e : thrown),
    1 <= maxRetries ->
    operation w = (Throw e, w') -> isRateLimit e = false ->
    retryWithBackoff recorded_wait (counted operation) maxRetries (w, 0%nat, [])
    = (Throw e, (w', 1%nat, [])).
Proof.
  intros W T operation maxRetries w w' e Hmax Hop He.
  unfold retryWithBackoff.
  destruct (Z.to_nat maxRetries) as [| left] eqn:Hleft; [lia |].
  apply attempts_rethrow; [simpl; now rewrite Hop | now left].
Qed.

Lemma retry_other_error_propagates_witness :
  retryWithBackoff recorded_wait
    (counted (fun u : unit => (@Throw string (ErrorObject "Error" "API key not valid"), u)))
    3 (tt, 0%nat, [])
  = (Throw (ErrorObject "Error" "API key not valid"), (tt, 1%nat, [])).
Proof.
  apply (retry_other_error_propagates unit string); [lia | reflexivity | reflexivity].
Defined.

(** ** Retry with backoff: which errors are retried *)

Lemma prefix_iff n h : String.prefix n h = true <-> exists b, h = n +:+ b.
Proof.
  revert h. induction n as [| c n IH]; intros h.
  - split; [intros _; now exists h | now destruct h].
  - destruct h as [| a h]; [split; [discriminate | intros [b Hb]; discriminate] |].
    change (String.prefix (String c n) (String a h))
      with (if ascii_dec c a then String.prefix n h else false).
    destruct (ascii_dec c a) as [<- | Hne].
    + rewrite IH. split; intros [b Hb]; exists b; simpl in *; congruence.
    + split; [discriminate | intros [b Hb]; simpl in Hb; congruence].
Qed.

(** [includes] is the substring test. *)
Lemma includes_iff n h : includes n h = true <-> exists a b, h = a +:+ n +:+ b.
Proof.
  induction h as [| c h IH].
  - cbn [includes]. rewrite orb_false_r, prefix_iff. split.
    + intros [b Hb]. now exists "", b.
    + intros (a & b & Hab). destruct a as [| x a]; [now exists b | discriminate].
  - cbn [includes]. rewrite orb_true_iff, prefix_iff, IH. split.
    + intros [[b Hb] | (a & b & Hab)]; [now exists "", b |].
      exists (String c a), b. simpl. now rewrite Hab.
    + intros (a & b & Hab). destruct a as [| x a]; [left; now exists b |].
      right. exists a, b. simpl in Hab. congruence.
Qed.

(** X3. An error counts as a rate limit exactly when the text
    [error?.message || String(error)] has "429" or "Quota", in this
    spelling, somewhere in it. For an [Error] that text is the message,
    and the name when the message is empty. *)
Theorem rate_limit_detection :
  forall e : thrown,
    (isRateLimit e = true <->
     exists a b, errorStr e = a +:+ "429" +:+ b \/ errorStr e = a +:+ "Quota" +:+ b)
    /\ (forall name message,
          e = ErrorObject name message -> message <> "" -> errorStr e = message)
    /\ (forall name, e = ErrorObject name "" -> errorStr e = name).
Proof.
  intros e. split; [| split].
  - unfold isRateLimit. rewrite orb_true_iff, !includes_iff. split.
    + intros [(a & b & H) | (a & b & H)]; exists a, b; auto.
    + intros (a & b & [H | H]); [left | right]; now exists a, b.
  - intros name message -> Hne. simpl. now destruct message.
  - intros name ->. simpl. now destruct name.
Qed.

Lemma rate_limit_detection_witness :
  isRateLimit (ErrorObject "ApiError" "got status: 429 Too Many Requests") = true
  /\ errorStr (ErrorObject "QuotaError" "") = "QuotaError".
Proof.
  split.
  - apply (proj1 (rate_limit_detection _)). exists "got status: ", " Too Many Requests".
    left. reflexivity.
  - apply (proj2 (proj2 (rate_limit_detection _)) "QuotaError"). reflexivity.
Defined.

(** ** Shopping list: what an addition adds *)

Lemma existsb_same_text_app current added text :
  existsb (fun item => same_text (ShoppingItem.text item) text) current = true ->
  existsb (fun item => same_text (ShoppingItem.text item) text) (current ++ added) = true.
Proof. intros H. rewrite existsb_app, H. reflexivity. Qed.

(** One round of the loop, as an equation. *)
Lemma add_text_step current text w :
  add_text current text w
  = if existsb (fun item => same_text (ShoppingItem.text item) text) current
    then (Return current, w)
    else (Return (current ++ [ShoppingItem.mk (random_id w (random_calls w)) text false]),
          snd (Math_random_id w)).
Proof. unfold add_text. now destruct (existsb _ current). Qed.

(** The loop of [addToShoppingList]: it only appends, every appended
    item is not completed and carries a text of the batch and the id of
    the next draw, and afterwards every text of the batch is there, up
    to case. Only the count of draws changes in the world. *)
Lemma forEach_add_text_appends items :
  forall current w,
  exists added w',
    forEach add_text current items w = (Return (current ++ added), w')
    /\ localStorage w' = localStorage w /\ form w' = form w
    /\ events w' = events w /\ random_id w' = random_id w
    /\ random_calls w' = (random_calls w + length added)%nat
    /\ ShoppingItem.id <$> added
       = random_id w <$> seq (random_calls w) (length added)
    /\ Forall (fun item => ShoppingItem.completed item = false
                           /\ ShoppingItem.text item ∈ items) added
    /\ Forall (fun text =>
                 existsb (fun item => same_text (ShoppingItem.text item) text)
                         (current ++ added) = true) items.
Proof.
  induction items as [| text items IH]; intros current w.
  - exists [], w. rewrite app_nil_r. simpl. repeat split; auto.
  - cbn [forEach]. unfold mbind at 1, JS_bind. rewrite add_text_step.
    destruct (existsb _ current) eqn:Hex.
    + destruct (IH current w)
        as (added & w' & Hrun & Hls & Hform & Hev & Hid & Hcalls & Hids & Hnew & Hall).
      exists added, w'. rewrite Hrun. repeat split; auto.
      * eapply Forall_impl; [exact Hnew |]. intros item [Hc Ht].
        split; [exact Hc | now apply elem_of_cons; right].
      * constructor; [now apply existsb_same_text_app | exact Hall].
    + set (item := ShoppingItem.mk (random_id w (random_calls w)) text false).
      destruct (IH (current ++ [item]) (snd (Math_random_id w)))
        as (added & w' & Hrun & Hls & Hform & Hev & Hid & Hcalls & Hids & Hnew & Hall).
      change (localStorage (snd (Math_random_id w))) with (localStorage w) in Hls.
      change (form (snd (Math_random_id w))) with (form w) in Hform.
      change (events (snd (Math_random_id w))) with (events w) in Hev.
      change (random_id (snd (Math_random_id w))) with (random_id w) in Hid, Hids.
      change (random_calls (snd (Math_random_id w))) with (S (random_calls w))
        in Hcalls, Hids.
      exists (item :: added), w'.
      rewrite Hrun, <- app_assoc.
      split; [reflexivity |]. split; [exact Hls |]. split; [exact Hform |].
      split; [exact Hev |]. split; [exact Hid |].
      split; [cbn [length]; lia |].
      split; [cbn [length seq]; rewrite !fmap_cons; f_equal; exact Hids |].
      split; [| constructor].
      * constructor; [split; [reflexivity | now apply elem_of_cons; left] |].
        eapply Forall_impl; [exact Hnew |]. intros it [Hc Ht].
        split; [exact Hc | now apply elem_of_cons; right].
      * rewrite existsb_app. simpl. unfold same_text at 2.
        now rewrite String.eqb_refl, orb_true_r.
      * now rewrite <- app_assoc in Hall.
Qed.

(** X4. [addToShoppingList] only appends: the old items stay in front,
    unchanged and in order. Each new item is not completed, has a text
    of the batch, and its id is the next draw of [Math.random], one draw
    for each new item and none for a skipped text. Afterwards every text
    of the batch is in the list, up to case. Saved recipes and draft
    are not touched. *)
Theorem add_appends_new_items :
  forall (w : World) (items : list string) (l : list ShoppingItem.t),
    getShoppingList w = (Return l, w) ->
    exists w' added,
      addToShoppingList items w = (Return tt, w')
      /\ getShoppingList w' = (Return (l ++ added), w')
      /\ Forall (fun item => ShoppingItem.completed item = false
                             /\ ShoppingItem.text item ∈ items) added
      /\ (forall text, text ∈ items ->
            exists item, item ∈ l ++ added
                         /\ same_text (ShoppingItem.text item) text = true)
      /\ ShoppingItem.id <$> added
         = random_id w <$> seq (random_calls w) (length added)
      /\ random_calls w' = (random_calls w + length added)%nat
      /\ savedRecipes (localStorage w') = savedRecipes (localStorage w)
      /\ recipeDraft (localStorage w') = recipeDraft (localStorage w).
Proof.
  intros w items l Hread.
  rewrite getShoppingList_reads in Hread. injection Hread as Hl.
  destruct (forEach_add_text_appends items l w)
    as (added & w1 & Hrun & Hls & _ & _ & _ & Hcalls & Hids & Hnew & Hall).
  eexists _, added. split; [| split; [| split; [exact Hnew | split]]].
  - unfold addToShoppingList. unfold mbind at 1, JS_bind.
    rewrite getShoppingList_reads, Hl. unfold mbind, JS_bind. rewrite Hrun.
    apply saveShoppingList_runs.
  - rewrite getShoppingList_reads. reflexivity.
  - intros text Hin. rewrite Forall_forall in Hall. specialize (Hall text Hin).
    apply existsb_exists in Hall as (item & Hitem & Hs).
    exists item. split; [now apply list_elem_of_In | exact Hs].
  - simpl. rewrite Hls. auto.
Qed.

Lemma add_appends_new_items_witness :
  let w := with_storage {| savedRecipes := None;
                           shoppingList := Some (Json [milk]);
                           recipeDraft := None |} fresh_world in
  exists w', addToShoppingList ["MILCH"; "Butter"; "2 Eier"] w = (Return tt, w')
             /\ getShoppingList w'
                = (Return [milk; ShoppingItem.mk "id0" "Butter" false;
                           ShoppingItem.mk "id1" "2 Eier" false], w').
Proof.
  intros w.
  destruct (add_appends_new_items w ["MILCH"; "Butter"; "2 Eier"] [milk] eq_refl)
    as (w' & added & Hrun & Hread & _).
  exists w'. split; [exact Hrun |].
  assert (Hw' : w' = snd (addToShoppingList ["MILCH"; "Butter"; "2 Eier"] w))
    by now rewrite Hrun.
  rewrite Hw'. reflexivity.
Defined.

(** ** Shopping list: what a toggle keeps *)

(** X5. [toggleShoppingItem], with or without an item of the id, leaves
    the ids and the texts of the list as they are, position by
    position; so a list without two texts that are equal up to case
    stays such a list, and saved recipes and draft are not touched. *)
Theorem toggle_keeps_ids_and_texts :
  forall (w : World) (id : string) (l : list ShoppingItem.t),
    getShoppingList w = (Return l, w) ->
    exists w' l',
      toggleShoppingItem id w = (Return tt, w')
      /\ getShoppingList w' = (Return l', w')
      /\ ShoppingItem.id <$> l' = ShoppingItem.id <$> l
      /\ ShoppingItem.text <$> l' = ShoppingItem.text <$> l
      /\ (distinct_texts l -> distinct_texts l')
      /\ savedRecipes (localStorage w') = savedRecipes (localStorage w)
      /\ recipeDraft (localStorage w') = recipeDraft (localStorage w).
Proof.
  intros w id l Hread. pose proof Hread as Hread'.
  rewrite getShoppingList_reads in Hread'. injection Hread' as Hl.
  unfold toggleShoppingItem. unfold mbind at 1, JS_bind. rewrite Hread.
  destruct (list_find _ l) as [[index item] |] eqn:Hfind.
  - apply list_find_Some in Hfind as (Hlook & _ & _).
    assert (Hids : ShoppingItem.id <$> <[index := toggle item]> l = ShoppingItem.id <$> l).
    { rewrite list_fmap_insert. apply list_insert_id.
      now rewrite list_lookup_fmap, Hlook. }
    assert (Htexts : ShoppingItem.text <$> <[index := toggle item]> l
                     = ShoppingItem.text <$> l).
    { rewrite list_fmap_insert. apply list_insert_id.
      now rewrite list_lookup_fmap, Hlook. }
    eexists _, (<[index := toggle item]> l).
    split; [apply saveShoppingList_runs |].
    split; [now rewrite getShoppingList_reads |].
    split; [exact Hids |]. split; [exact Htexts |]. split; [| split; reflexivity].
    unfold distinct_texts.
    change (fun item => toLowerCase (ShoppingItem.text item))
      with (toLowerCase ∘ ShoppingItem.text).
    now rewrite !list_fmap_compose, Htexts.
  - exists w, l. repeat split; auto.
Qed.

Lemma toggle_keeps_ids_and_texts_witness :
  let w := with_storage {| savedRecipes := None;
                           shoppingList := Some (Json [milk; eggs]);
                           recipeDraft := None |} fresh_world in
  exists w' l', toggleShoppingItem "b2" w = (Return tt, w')
                /\ getShoppingList w' = (Return l', w')
                /\ ShoppingItem.text <$> l' = ["Milch"; "3 Eier"].
Proof.
  intros w.
  destruct (toggle_keeps_ids_and_texts w "b2" [milk; eggs] eq_refl)
    as (w' & l' & Hrun & Hread & _ & Htexts & _).
  exists w', l'. auto.
Defined.

(** ** Saved recipes: removing *)

Lemma removeRecipeFromStorage_runs name w :
  removeRecipeFromStorage name w
  = (Return tt,
     add_event RenderedSavedRecipes
       (add_event UpdatedSavedCount
          (set_localStorage
             (set_savedRecipes
                (Some (Json (List.filter
                               (fun r => negb (same_text (Recipe.recipeName r) name))
                               (read_blob (savedRecipes (localStorage w)))))))
             w))).
Proof.
  unfold removeRecipeFromStorage. unfold mbind at 1, JS_bind.
  rewrite getSavedRecipes_reads. reflexivity.
Qed.

Lemma filter_sublist {A} (f : A -> bool) (l : list A) : List.filter f l `sublist_of` l.
Proof.
  induction l as [| x l IH]; simpl; [constructor |].
  destruct (f x); now constructor.
Qed.

Lemma filter_all {A} (f : A -> bool) (l : list A) :
  (forall x, x ∈ l -> f x = true) -> List.filter f l = l.
Proof.
  induction l as [| x l IH]; intros H; simpl; [reflexivity |].
  rewrite (H x) by (apply elem_of_cons; now left).
  f_equal. apply IH. intros y Hy. apply H, elem_of_cons. now right.
Qed.

Lemma filter_filter {A} (f : A -> bool) (l : list A) :
  List.filter f (List.filter f l) = List.filter f l.
Proof.
  apply filter_all. intros x Hx. apply list_elem_of_In, filter_In in Hx. tauto.
Qed.

Lemma filter_fixed (f : Recipe.t -> bool) (l : list Recipe.t) :
  Forall (fun r => Recipe.read_back r = r) l -> read_back (List.filter f l) = List.filter f l.
Proof.
  intros H. apply read_back_fixed. rewrite Forall_forall in *.
  intros r Hr. apply H. apply list_elem_of_In, filter_In in Hr as [Hr _].
  now apply list_elem_of_In.
Qed.

(** X6. [removeRecipeFromStorage name] keeps exactly the recipes whose
    name differs from [name] even without regard to case, in their
    order; all recipes whose name equals [name] up to case go. Without
    such a recipe the list stays as it is, and removing once more
    changes nothing. Shopping list and draft are not touched. *)
Theorem remove_drops_every_match :
  forall (w : World) (name : string) (saved : list Recipe.t),
    getSavedRecipes w = (Return saved, w) ->
    exists w' saved',
      removeRecipeFromStorage name w = (Return tt, w')
      /\ getSavedRecipes w' = (Return saved', w')
      /\ (forall r, r ∈ saved' <->
                    r ∈ saved /\ same_text (Recipe.recipeName r) name = false)
      /\ saved' `sublist_of` saved
      /\ ((forall r, r ∈ saved -> same_text (Recipe.recipeName r) name = false) ->
          saved' = saved)
      /\ (exists w'', removeRecipeFromStorage name w' = (Return tt, w'')
                      /\ getSavedRecipes w'' = (Return saved', w''))
      /\ shoppingList (localStorage w') = shoppingList (localStorage w)
      /\ recipeDraft (localStorage w') = recipeDraft (localStorage w).
Proof.
  intros w name saved Hread.
  pose proof (filter_fixed (fun r => negb (same_text (Recipe.recipeName r) name)) saved
                (getSavedRecipes_fixed w saved Hread)) as Hfixed.
  rewrite getSavedRecipes_reads in Hread. injection Hread as Hsaved.
  eexists _, (List.filter (fun r => negb (same_text (Recipe.recipeName r) name)) saved).
  split; [rewrite removeRecipeFromStorage_runs, Hsaved; reflexivity |].
  split; [rewrite getSavedRecipes_reads; cbn [read_blob savedRecipes localStorage add_event
                                              set_localStorage set_savedRecipes];
          now rewrite Hfixed |].
  split; [| split; [apply filter_sublist | split; [| split; [| split; reflexivity]]]].
  - intros r. rewrite !list_elem_of_In, filter_In, negb_true_iff. reflexivity.
  - intros Hnone. apply filter_all. intros r Hr. now rewrite (Hnone r Hr).
  - eexists. split; [apply removeRecipeFromStorage_runs |].
    rewrite getSavedRecipes_reads.
    cbn [read_blob savedRecipes localStorage add_event set_localStorage set_savedRecipes].
    now rewrite Hfixed, filter_filter, Hfixed.
Qed.

Lemma remove_drops_every_match_witness :
  let w := with_storage {| savedRecipes := Some (Json [recipe_named "Pasta";
                                                       recipe_named "Pizza";
                                                       recipe_named "PASTA"]);
                           shoppingList := None; recipeDraft := None |} fresh_world in
  exists w', removeRecipeFromStorage "pasta" w = (Return tt, w')
             /\ getSavedRecipes w' = (Return [recipe_named "Pizza"], w').
Proof.
  intros w.
  destruct (remove_drops_every_match w "pasta"
              [recipe_named "Pasta"; recipe_named "Pizza"; recipe_named "PASTA"] eq_refl)
    as (w' & saved' & Hrun & Hread & _).
  exists w'. split; [exact Hrun |].
  assert (Hw' : w' = snd (removeRecipeFromStorage "pasta" w)) by now rewrite Hrun.
  rewrite Hw'. reflexivity.
Defined.

(** ** Saved recipes: saving *)

Lemma list_find_recipeName (saved : list Recipe.t) name :
  existsb (fun sr => String.eqb (Recipe.recipeName sr) name) saved = true ->
  exists index sr,
    list_find (fun sr => Recipe.recipeName sr = name) saved = Some (index, sr).
Proof.
  intros Hex. apply existsb_recipeName in Hex as (sr & Hin & Hname).
  destruct (list_find_elem_of (fun sr => Recipe.recipeName sr = name) saved sr Hin Hname)
    as [[index sr'] Hfind].
  eauto.
Qed.

Lemma json_holds_read_back x : json_holds (Recipe.read_back_numeric x) = true.
Proof. now destruct x as [| [[] | | |]]. Qed.

Lemma read_back_holds r :
  json_holds (Recipe.servings r) = true -> json_holds (Recipe.createdAt r) = true ->
  Recipe.read_back r = r.
Proof.
  destruct r as [i n d ing ins sv df ca nu]. unfold Recipe.read_back. simpl.
  intros Hs Hc. f_equal.
  - now destruct sv as [| [[] | | |]].
  - now destruct ca as [| [[] | | |]].
Qed.

Lemma fixed_holds r :
  Recipe.read_back r = r ->
  json_holds (Recipe.servings r) = true /\ json_holds (Recipe.createdAt r) = true.
Proof.
  intros H. rewrite <- H. unfold Recipe.read_back. simpl.
  split; apply json_holds_read_back.
Qed.

Lemma read_back_app_fixed (l : list Recipe.t) r :
  Forall (fun r => Recipe.read_back r = r) l ->
  read_back (l ++ [r]) = l ++ [Recipe.read_back r].
Proof.
  intros H. pose proof (read_back_fixed l H) as Hl.
  unfold read_back, read_back_recipes in *. now rewrite fmap_app, Hl.
Qed.

Lemma read_back_insert_fixed (l : list Recipe.t) index r :
  Forall (fun r => Recipe.read_back r = r) l ->
  read_back (<[index := r]> l) = <[index := Recipe.read_back r]> l.
Proof.
  intros H. pose proof (read_back_fixed l H) as Hl.
  unfold read_back, read_back_recipes in *. now rewrite list_fmap_insert, Hl.
Qed.

(** The list after [saveRecipeToStorage]: as before, with [r] as JSON
    holds it appended, or put in the place of a recipe of its name. *)
Lemma save_result_list (w : World) (r : Recipe.t) (saved : list Recipe.t) :
  getSavedRecipes w = (Return saved, w) ->
  exists ok w' saved',
    saveRecipeToStorage r w = (Return ok, w')
    /\ getSavedRecipes w' = (Return saved', w')
    /\ shoppingList (localStorage w') = shoppingList (localStorage w)
    /\ recipeDraft (localStorage w') = recipeDraft (localStorage w)
    /\ ((ok = false /\ w' = w /\ saved' = saved
         /\ confirm_answer w overwrite_question = false
         /\ exists sr, sr ∈ saved /\ Recipe.recipeName sr = Recipe.recipeName r)
        \/ (ok = true /\ saved' = saved ++ [Recipe.read_back r]
            /\ forall sr, sr ∈ saved -> Recipe.recipeName sr <> Recipe.recipeName r)
        \/ (ok = true
            /\ exists index sr,
                saved !! index = Some sr /\ Recipe.recipeName sr = Recipe.recipeName r
                /\ saved' = <[index := Recipe.read_back r]> saved)).
Proof.
  intros Hread. pose proof (getSavedRecipes_fixed w saved Hread) as Hfixed.
  destruct (saveRecipeToStorage_exact_name w r saved Hread) as [Hnew Hold].
  pose proof Hread as Hread0.
  rewrite getSavedRecipes_reads in Hread. injection Hread as Hsaved.
  destruct (existsb (fun sr => String.eqb (Recipe.recipeName sr) (Recipe.recipeName r)) saved)
    eqn:Hex.
  - destruct (list_find_recipeName saved _ Hex) as (index & sr & Hfind).
    destruct (Hold index sr Hfind) as [Hno Hyes].
    pose proof Hfind as (Hlook & Hname & _)%list_find_Some.
    destruct (confirm_answer w overwrite_question) eqn:Hanswer.
    + eexists true, _, (<[index := Recipe.read_back r]> saved).
      split; [now apply Hyes |].
      split; [rewrite getSavedRecipes_reads;
              cbn [read_blob savedRecipes localStorage add_event set_localStorage
                   set_savedRecipes];
              now rewrite read_back_insert_fixed |].
      split; [reflexivity |]. split; [reflexivity |].
      right. right. eauto 6.
    + exists false, w, saved.
      split; [now apply Hno |]. split; [exact Hread0 |].
      split; [reflexivity |]. split; [reflexivity |].
      left. repeat split; try reflexivity.
      exists sr. split; [eapply list_elem_of_lookup_2, Hlook | exact Hname].
  - assert (Hnone : forall sr, sr ∈ saved -> Recipe.recipeName sr <> Recipe.recipeName r).
    { intros sr Hin Hname.
      assert (Hyes : existsb (fun sr => String.eqb (Recipe.recipeName sr)
                                          (Recipe.recipeName r)) saved = true)
        by (apply existsb_recipeName; eauto).
      congruence. }
    eexists true, _, (saved ++ [Recipe.read_back r]).
    split; [now apply Hnew |].
    split; [rewrite getSavedRecipes_reads;
            cbn [read_blob savedRecipes localStorage add_event set_localStorage
                 set_savedRecipes];
            now rewrite read_back_app_fixed |].
    split; [reflexivity |]. split; [reflexivity |].
    right. left. auto.
Qed.

(** X7. What [saveRecipeToStorage] leaves behind. When it returns
    [true], the recipe is in the stored list as JSON holds it, that is,
    with [null] for a number that is [NaN] or infinite and [0] for
    [-0], and as it is when its numbers are none of these; every stored
    recipe of another name is still there, and the list has grown by
    one (no recipe of that exact name before) or kept its length (one
    replaced). When it returns [false], the world is as before: a
    recipe of that exact name is stored and the user declined. No
    number of a stored recipe is [NaN], infinite or [-0]. Shopping list
    and draft are never touched. *)
Theorem save_outcome :
  forall (w : World) (r : Recipe.t) (saved : list Recipe.t),
    getSavedRecipes w = (Return saved, w) ->
    exists ok w' saved',
      saveRecipeToStorage r w = (Return ok, w')
      /\ getSavedRecipes w' = (Return saved', w')
      /\ (ok = true ->
          Recipe.read_back r ∈ saved'
          /\ (json_holds (Recipe.servings r) = true ->
              json_holds (Recipe.createdAt r) = true -> r ∈ saved')
          /\ (forall sr, sr ∈ saved -> Recipe.recipeName sr <> Recipe.recipeName r ->
                         sr ∈ saved')
          /\ ((forall sr, sr ∈ saved -> Recipe.recipeName sr <> Recipe.recipeName r) ->
              saved' = saved ++ [Recipe.read_back r])
          /\ ((exists sr, sr ∈ saved /\ Recipe.recipeName sr = Recipe.recipeName r) ->
              length saved' = length saved))
      /\ (ok = false ->
          w' = w
          /\ confirm_answer w overwrite_question = false
          /\ exists sr, sr ∈ saved /\ Recipe.recipeName sr = Recipe.recipeName r)
      /\ Forall (fun sr => json_holds (Recipe.servings sr) = true
                           /\ json_holds (Recipe.createdAt sr) = true) saved'
      /\ shoppingList (localStorage w') = shoppingList (localStorage w)
      /\ recipeDraft (localStorage w') = recipeDraft (localStorage w).
Proof.
  intros w r saved Hread.
  destruct (save_result_list w r saved Hread)
    as (ok & w' & saved' & Hrun & Hread' & Hshop & Hdraft & Hcases).
  exists ok, w', saved'. split; [exact Hrun |]. split; [exact Hread' |].
  assert (Hin : forall l : list Recipe.t,
             Recipe.read_back r ∈ l ->
             json_holds (Recipe.servings r) = true ->
             json_holds (Recipe.createdAt r) = true -> r ∈ l).
  { intros l Hl Hs Hc. now rewrite (read_back_holds r Hs Hc) in Hl. }
  split; [| split; [| split; [| split; assumption]]].
  - intros ->.
    destruct Hcases as [(Hok & _) | [(_ & -> & Hnone) | (_ & index & sr & Hlook & Hname & ->)]];
      [discriminate | |].
    + assert (Hr : Recipe.read_back r ∈ saved ++ [Recipe.read_back r])
        by (apply elem_of_app; right; now apply list_elem_of_singleton).
      split; [exact Hr |]. split; [now apply Hin |].
      split; [intros sr Hsr _; apply elem_of_app; now left |].
      split; [reflexivity |].
      intros (sr & Hsr & Hname). now destruct (Hnone sr Hsr).
    + assert (Hr : Recipe.read_back r ∈ <[index := Recipe.read_back r]> saved)
        by (eapply list_elem_of_lookup_2, list_lookup_insert_eq, lookup_lt_Some, Hlook).
      split; [exact Hr |]. split; [now apply Hin |].
      split; [| split].
      * intros sr' Hsr Hne. apply list_elem_of_lookup in Hsr as [j Hj].
        apply list_elem_of_lookup. exists j.
        rewrite list_lookup_insert_ne; [exact Hj |]. intros ->. congruence.
      * intros Hnone. exfalso. apply (Hnone sr); [| exact Hname].
        eapply list_elem_of_lookup_2, Hlook.
      * intros _. apply length_insert.
  - intros ->.
    destruct Hcases as [(_ & Hw & _ & Hanswer & Hex) | [(Hok & _) | (Hok & _)]];
      [auto | discriminate | discriminate].
  - eapply Forall_impl; [exact (getSavedRecipes_fixed w' saved' Hread') |].
    intros sr Hsr. now apply fixed_holds.
Qed.

Lemma save_outcome_witness :
  let r := recipe_with S754_nan (S754_zero true) in
  exists w',
    saveRecipeToStorage r fresh_world = (Return true, w')
    /\ getSavedRecipes w'
       = (Return [Recipe.mk "r2" "Suppe" "Klare Suppe" ["1 l Wasser"] ["Kochen"]
                            Recipe.Null None (Recipe.Number (S754_zero false)) None], w')
    /\ ~ r ∈ [Recipe.read_back r].
Proof.
  intros r.
  destruct (save_outcome fresh_world r [] eq_refl)
    as (ok & w' & saved' & Hrun & Hread & Htrue & _).
  assert (Hok : ok = true).
  { assert (H : Return ok = fst (saveRecipeToStorage r fresh_world)) by now rewrite Hrun.
    now injection H. }
  subst ok. destruct (Htrue eq_refl) as (_ & _ & _ & Hnew & _).
  rewrite (Hnew ltac:(intros sr Hsr; now apply elem_of_nil in Hsr)) in Hread.
  exists w'. split; [exact Hrun |]. split; [exact Hread |].
  intros Hin%list_elem_of_singleton. discriminate Hin.
Defined.

(** ** Saved recipes: names that are written alike *)

Lemma sublist_fmap {A B} (f : A -> B) (l1 l2 : list A) :
  l1 `sublist_of` l2 -> (f <$> l1) `sublist_of` (f <$> l2).
Proof. induction 1; simpl; now constructor. Qed.

(** X8. Stored recipes whose names are pairwise different as written
    stay so: [saveRecipeToStorage], whatever the user answers, never
    stores a second recipe of a name that is there already, and
    [removeRecipeFromStorage] only takes recipes away. *)
Theorem names_stay_distinct :
  forall (w : World) (r : Recipe.t) (name : string) (saved : list Recipe.t),
    getSavedRecipes w = (Return saved, w) ->
    NoDup (Recipe.recipeName <$> saved) ->
    (exists ok w' saved',
        saveRecipeToStorage r w = (Return ok, w')
        /\ getSavedRecipes w' = (Return saved', w')
        /\ NoDup (Recipe.recipeName <$> saved'))
    /\ (exists w' saved',
           removeRecipeFromStorage name w = (Return tt, w')
           /\ getSavedRecipes w' = (Return saved', w')
           /\ NoDup (Recipe.recipeName <$> saved')).
Proof.
  intros w r name saved Hread Hnd. split.
  - destruct (save_result_list w r saved Hread)
      as (ok & w' & saved' & Hrun & Hread' & _ & _ & Hcases).
    exists ok, w', saved'. split; [exact Hrun |]. split; [exact Hread' |].
    destruct Hcases
      as [(_ & _ & -> & _) | [(_ & -> & Hnone) | (_ & index & sr & Hlook & Hname & ->)]].
    + exact Hnd.
    + rewrite fmap_app. apply NoDup_app. split; [exact Hnd |].
      split; [| apply NoDup_singleton].
      intros x Hx Hx'. apply list_elem_of_singleton in Hx'. subst x.
      apply list_elem_of_fmap in Hx as (sr & Hname & Hin).
      now apply (Hnone sr Hin).
    + rewrite list_fmap_insert, list_insert_id; [exact Hnd |].
      rewrite list_lookup_fmap, Hlook. simpl. now rewrite Hname.
  - pose proof (filter_fixed (fun r => negb (same_text (Recipe.recipeName r) name)) saved
                  (getSavedRecipes_fixed w saved Hread)) as Hfixed.
    rewrite getSavedRecipes_reads in Hread. injection Hread as Hsaved.
    eexists _, (List.filter (fun r => negb (same_text (Recipe.recipeName r) name)) saved).
    split; [rewrite removeRecipeFromStorage_runs, Hsaved; reflexivity |].
    split; [rewrite getSavedRecipes_reads;
            cbn [read_blob savedRecipes localStorage add_event set_localStorage
                 set_savedRecipes];
            now rewrite Hfixed |].
    eapply sublist_NoDup; [exact Hnd | apply sublist_fmap, filter_sublist].
Qed.

Lemma names_stay_distinct_witness :
  let w := with_confirm (fun _ => true)
             (with_storage {| savedRecipes := Some (Json [recipe_named "Pasta";
                                                          recipe_named "Pizza"]);
                              shoppingList := None; recipeDraft := None |} fresh_world) in
  exists ok w' saved',
    saveRecipeToStorage (recipe_named "Pizza") w = (Return ok, w')
    /\ getSavedRecipes w' = (Return saved', w')
    /\ NoDup (Recipe.recipeName <$> saved').
Proof.
  intros w.
  assert (Hnd : NoDup (Recipe.recipeName <$> [recipe_named "Pasta"; recipe_named "Pizza"])).
  { apply NoDup_cons. split; [| apply NoDup_singleton].
    intros Hin%list_elem_of_singleton. discriminate Hin. }
  exact (proj1 (names_stay_distinct w (recipe_named "Pizza") "Pizza"
                  [recipe_named "Pasta"; recipe_named "Pizza"] eq_refl Hnd)).
Defined.

(** ** Scaling: what stays as it is *)

Lemma strict_eq_refl s : truthy s = true -> strict_eq s s = true.
Proof.
  unfold strict_eq, SFeqb, SFcompare.
  destruct s as [sx | sx | | sx mx ex]; try discriminate; intros _.
  - now destruct sx.
  - rewrite Z.compare_refl, Pos.compare_cont_refl. now destruct sx.
Qed.

Lemma flatten_app ts1 ts2 : flatten (ts1 ++ ts2) = flatten ts1 +:+ flatten ts2.
Proof.
  induction ts1 as [| t ts1 IH]; [reflexivity |].
  change (flatten ((t :: ts1) ++ ts2)) with (render (fun m => m) t +:+ flatten (ts1 ++ ts2)).
  change (flatten (t :: ts1)) with (render (fun m => m) t +:+ flatten ts1).
  now rewrite IH, append_assoc.
Qed.

Lemma flatten_texts s : flatten (texts s) = s.
Proof.
  induction s as [| c s IH]; [reflexivity |].
  change (flatten (texts (String c s))) with (String c (flatten (texts s))).
  now rewrite IH.
Qed.

Lemma canonical_texts s : no_digits s = true -> canonical (texts s) = true.
Proof.
  induction s as [| c s IH]; [reflexivity |]. simpl.
  intros H. apply andb_true_iff in H as [Hc Hs]. now rewrite Hc, IH.
Qed.

Lemma stays_apart_texts m s : stays_apart m (texts s) = true.
Proof.
  destruct s as [| c [| c' s]]; simpl; try reflexivity;
    now destruct (is_sep c && negb (has_fraction m)).
Qed.

(** Digits-free text, a number, digits-free text: these tokens are
    what a scan of their text finds. *)
Lemma canonical_single_number pre m post :
  no_digits pre = true -> is_number m = true -> no_digits post = true ->
  canonical (texts pre ++ Num m :: texts post) = true.
Proof.
  intros Hpre Hm Hpost. induction pre as [| c pre IH].
  - simpl. now rewrite Hm, stays_apart_texts, canonical_texts.
  - simpl in Hpre. apply andb_true_iff in Hpre as [Hc Hpre].
    simpl. now rewrite Hc, IH.
Qed.

Lemma render_texts f s : concat_strings (render f <$> texts s) = s.
Proof.
  induction s as [| c s IH]; [reflexivity |].
  change (concat_strings (render f <$> texts (String c s)))
    with (String c (concat_strings (render f <$> texts s))).
  now rewrite IH.
Qed.

Lemma concat_strings_app l1 l2 :
  concat_strings (l1 ++ l2) = concat_strings l1 +:+ concat_strings l2.
Proof.
  induction l1 as [| x l1 IH]; [reflexivity |].
  change (concat_strings ((x :: l1) ++ l2)) with (x +:+ concat_strings (l1 ++ l2)).
  change (concat_strings (x :: l1)) with (x +:+ concat_strings l1).
  now rewrite IH, append_assoc.
Qed.

(** X9. [scaleIngredientLine] returns the line as it is when a serving
    count is zero or [NaN], when the two counts are the same value, and,
    whatever the counts, when the line has no digit. *)
Theorem scale_leaves_line :
  forall (line : string) (fromS toS : number),
    truthy fromS = false \/ truthy toS = false \/ fromS = toS
    \/ no_digits line = true ->
    scaleIngredientLine line fromS toS = line.
Proof.
  intros line fromS toS H. unfold scaleIngredientLine.
  destruct (truthy fromS) eqn:Hf; [| reflexivity].
  destruct (truthy toS) eqn:Ht; [| reflexivity].
  destruct H as [H | [H | [-> | H]]]; try discriminate.
  - now rewrite (strict_eq_refl toS Ht).
  - simpl. destruct (strict_eq fromS toS); [reflexivity |].
    unfold replace_numbers.
    rewrite <- (flatten_texts line) at 1.
    rewrite (scan_flatten _ (canonical_texts line H)).
    apply render_texts.
Qed.

Lemma scale_leaves_line_witness :
  scaleIngredientLine "2 Eier" S754_nan (of_Z 4) = "2 Eier"
  /\ scaleIngredientLine "2 Eier" (of_Z 3) (of_Z 3) = "2 Eier"
  /\ scaleIngredientLine "eine Prise Salz" (of_Z 2) (of_Z 4) = "eine Prise Salz".
Proof.
  split; [| split]; apply scale_leaves_line.
  - left. reflexivity.
  - right. right. left. reflexivity.
  - right. right. right. reflexivity.
Defined.

(** X10. In a line with one number, digits-free text before it and
    digits-free text after it, scaling rewrites the number and nothing
    else. *)
Theorem scale_single_number :
  forall (pre m post : string) (fromS toS : number),
    no_digits pre = true -> is_number m = true -> no_digits post = true ->
    truthy fromS = true -> truthy toS = true -> strict_eq fromS toS = false ->
    scaleIngredientLine (pre +:+ m +:+ post) fromS toS
    = pre +:+ scale_match (div toS fromS) m +:+ post.
Proof.
  intros pre m post fromS toS Hpre Hm Hpost Hf Ht Hne.
  unfold scaleIngredientLine, replace_numbers. rewrite Hf, Ht, Hne. simpl.
  assert (Hline : pre +:+ m +:+ post = flatten (texts pre ++ Num m :: texts post)).
  { rewrite flatten_app, flatten_texts.
    change (flatten (Num m :: texts post)) with (m +:+ flatten (texts post)).
    now rewrite flatten_texts. }
  rewrite Hline, (scan_flatten _ (canonical_single_number pre m post Hpre Hm Hpost)).
  rewrite fmap_app, concat_strings_app, render_texts.
  change (render (scale_match (div toS fromS)) <$> Num m :: texts post)
    with (scale_match (div toS fromS) m
          :: (render (scale_match (div toS fromS)) <$> texts post)).
  change (concat_strings (?x :: ?l)) with (x +:+ concat_strings l).
  now rewrite render_texts.
Qed.

Lemma scale_single_number_witness :
  scaleIngredientLine "ca. 1,5 kg Mehl (Type Null)" (of_Z 2) (of_Z 3)
  = "ca. 2,3 kg Mehl (Type Null)".
Proof.
  change "ca. 1,5 kg Mehl (Type Null)"%string
    with ("ca. " +:+ "1,5" +:+ " kg Mehl (Type Null)").
  rewrite (scale_single_number "ca. " "1,5" " kg Mehl (Type Null)" (of_Z 2) (of_Z 3));
    reflexivity.
Defined.

Lemma all_zeros_digits s : all_zeros s = true -> all_digits s = true.
Proof.
  induction s as [| c s IH]; [reflexivity |]. simpl.
  intros H. apply andb_true_iff in H as [Hc Hs].
  apply Ascii.eqb_eq in Hc. subst c. now rewrite IH.
Qed.

Lemma digits_value_zeros s : all_zeros s = true -> digits_value 0 s = 0.
Proof.
  induction s as [| c s IH]; [reflexivity |]. simpl.
  intros H. apply andb_true_iff in H as [Hc Hs].
  apply Ascii.eqb_eq in Hc. subst c. now apply IH.
Qed.

(** X11. A quantity of zero stays zero: a match written with zeros
    only ("0", "0,0", "00.0") is rewritten to "0" under every finite
    factor, the decimals of the match are not kept. *)
Theorem scale_zero_quantity :
  forall (factor : number) (ip fp : string) (c : ascii),
    all_zeros ip = true -> ip <> "" -> is_sep c = true -> all_zeros fp = true ->
    (exists s, factor = S754_zero s) \/ (exists s mant e, factor = S754_finite s mant e) ->
    scale_match factor ip = "0"
    /\ scale_match factor (ip +:+ String c fp) = "0".
Proof.
  intros factor ip fp c Hip Hne Hc Hfp Hfinite.
  destruct (parseFloat_match ip c fp (all_zeros_digits ip Hip) Hne Hc
              (all_zeros_digits fp Hfp)) as [Hint Hfrac].
  rewrite (digits_value_zeros ip Hip) in Hint, Hfrac.
  rewrite (digits_value_zeros fp Hfp) in Hfrac.
  unfold scale_match. rewrite Hint, Hfrac. unfold nearest.
  destruct Hfinite as [[s ->] | (s & mant & e & ->)]; simpl;
    destruct (includes "," ip), (includes "," (ip +:+ String c fp)); split; reflexivity.
Qed.

Lemma scale_zero_quantity_witness :
  scale_match (div (of_Z 3) (of_Z 2)) "0" = "0"
  /\ scale_match (div (of_Z 3) (of_Z 2)) "0,00" = "0".
Proof.
  apply (scale_zero_quantity (div (of_Z 3) (of_Z 2)) "0" "00" ",");
    [reflexivity | discriminate | reflexivity | reflexivity |].
  right. exists false, 6755399441055744%positive, (-52). reflexivity.
Defined.

(** ** The recipe request: what [callChef] does to the world *)

Lemma same_data_refl w : same_data w w.
Proof. repeat split. Qed.

Lemma same_data_trans w1 w2 w3 : same_data w1 w2 -> same_data w2 w3 -> same_data w1 w3.
Proof.
  unfold same_data. intros (? & ? & ? & ? & ? & ? & ?) (? & ? & ? & ? & ? & ? & ?).
  repeat split; congruence.
Qed.

Lemma same_data_event ev w : same_data w (add_event ev w).
Proof. repeat split. Qed.

(** One request: the outcome is the next outcome of the service, read
    as a reply; the world only counts the request. *)
Lemma chef_request_runs w :
  exists r, chef_request w = (r, requested w)
            /\ (forall v, r = Return v ->
                          exists text, ai_outcome w (ai_calls w) = Return text)
            /\ (forall e, ai_outcome w (ai_calls w) = Throw e -> r = Throw e)
            /\ (forall recipe, ai_outcome w (ai_calls w) = Return (Some (Json recipe)) ->
                               r = Return (RecipeReply (Recipe.read_back recipe))).
Proof.
  unfold chef_request, requested. unfold mbind at 1, JS_bind.
  unfold generateContent at 1. cbn [snd generateContent].
  destruct (ai_outcome w (ai_calls w)) as [[[raw | recipe] |] | e]; simpl.
  - destruct (JsString.truthy raw); eexists; (split; [reflexivity |]);
      repeat split; intros; try discriminate; eauto.
  - eexists. split; [reflexivity |]. repeat split; intros; try discriminate; eauto.
    unfold read_back, read_back_recipe. congruence.
  - eexists. split; [reflexivity |]. repeat split; intros; try discriminate; eauto.
  - eexists. split; [reflexivity |]. repeat split; intros; try discriminate; congruence.
Qed.

Lemma requested_data w :
  same_data w (requested w) /\ ai_calls (requested w) = S (ai_calls w)
  /\ events (requested w) = events w.
Proof. repeat split. Qed.

(** The retry loop around the request: between one and [left] requests
    are sent, and nothing but requests and waits happens. *)
Lemma chef_attempts_data maxRetries :
  forall (left : nat) (i delay : Z) (w : World),
    (1 <= left)%nat ->
    exists r w',
      attempts (fun ms => add_event (Waited ms)) chef_request maxRetries left i delay w
      = (r, w')
      /\ same_data w w'
      /\ (ai_calls w < ai_calls w' <= ai_calls w + left)%nat.
Proof.
  induction left as [| left IH]; intros i delay w Hleft; [lia |].
  destruct (chef_request_runs w) as (r0 & Hreq & _).
  destruct (requested_data w) as (Hdata & Hcalls & _).
  cbn [attempts]. rewrite Hreq.
  destruct r0 as [v | e].
  - exists (Return v), (requested w). split; [reflexivity |]. split; [exact Hdata | lia].
  - destruct (isRateLimit e && (i <? maxRetries - 1)).
    + destruct left as [| left'].
      * exists (Throw serverLimit), (add_event (Waited delay) (requested w)).
        split; [reflexivity |]. split; [| simpl; lia].
        eapply same_data_trans; [exact Hdata | apply same_data_event].
      * destruct (IH (i + 1) (delay * 2) (add_event (Waited delay) (requested w))
                    ltac:(lia)) as (r & w' & Hrun & Hdata' & Hcalls').
        exists r, w'. split; [exact Hrun |]. split.
        -- eapply same_data_trans; [exact Hdata |].
           eapply same_data_trans; [apply same_data_event | exact Hdata'].
        -- simpl in Hcalls'. lia.
    + exists (Throw e), (requested w). split; [reflexivity |]. split; [exact Hdata | lia].
Qed.

Lemma callChef_unfolds p :
  callChef p
  = (logAction "AI_REQUEST_START";;
     try_catch
       (r ← retryWithBackoff (fun ms => add_event (Waited ms)) chef_request 3;
        mret (Some r))
       (fun e =>
          logAction "AI_EXCEPTION";;
          showToast "Fehler bei der KI-Anfrage.";;
          mret None)).
Proof. reflexivity. Qed.

(** [callChef] ends normally, with a reply or with [null]; it sends
    one to three requests and leaves storage and form alone. After
    [null], the failure has been logged and shown. *)
Lemma callChef_data p w :
  exists r w',
    callChef p w = (Return r, w')
    /\ same_data w w'
    /\ (ai_calls w < ai_calls w' <= ai_calls w + 3)%nat
    /\ (r = None ->
        exists evs, events w'
                    = evs ++ [Logged "AI_EXCEPTION"; Toast "Fehler bei der KI-Anfrage."]).
Proof.
  rewrite callChef_unfolds.
  destruct (chef_attempts_data 3 3 0 3000 (add_event (Logged "AI_REQUEST_START") w)
              ltac:(lia)) as (r & w1 & Hrun & Hdata & Hcalls).
  assert (Hdata' : same_data w w1)
    by (eapply same_data_trans; [apply same_data_event | exact Hdata]).
  simpl in Hcalls.
  unfold logAction, showToast. js_unfold.
  unfold retryWithBackoff. change (Z.to_nat 3) with 3%nat. rewrite Hrun.
  destruct r as [v | e].
  - exists (Some v), w1. split; [reflexivity |]. split; [exact Hdata' |].
    split; [exact Hcalls | discriminate].
  - eexists None, _. split; [reflexivity |]. split; [| split; [exact Hcalls |]].
    + eapply same_data_trans; [exact Hdata' |].
      eapply same_data_trans; apply same_data_event.
    + intros _. exists (events w1). simpl. now rewrite <- app_assoc.
Qed.



Lemma chef_request_throw w e :
  ai_outcome w (ai_calls w) = Throw e -> chef_request w = (Throw e, requested w).
Proof.
  intros H. destruct (chef_request_runs w) as (r & Hrun & _ & Hthrow & _).
  now rewrite Hrun, (Hthrow e H).
Qed.

Lemma chef_request_recipe w recipe :
  ai_outcome w (ai_calls w) = Return (Some (Json recipe)) ->
  chef_request w = (Return (RecipeReply (Recipe.read_back recipe)), requested w).
Proof.
  intros H. destruct (chef_request_runs w) as (r & Hrun & _ & _ & Hrecipe).
  now rewrite Hrun, (Hrecipe recipe H).
Qed.

Lemma chef_request_empty w :
  ai_outcome w (ai_calls w) = Return None ->
  chef_request w = (Return EmptyObject, requested w).
Proof.
  intros H. unfold chef_request, requested. unfold mbind at 1, JS_bind.
  unfold generateContent at 1. cbn [snd generateContent]. now rewrite H.
Qed.

(** [callChef] when the first request settles the matter. *)
Lemma callChef_first_recipe p w recipe :
  ai_outcome w (ai_calls w) = Return (Some (Json recipe)) ->
  callChef p w
  = (Return (Some (RecipeReply (Recipe.read_back recipe))),
     requested (add_event (Logged "AI_REQUEST_START") w)).
Proof.
  intros H. rewrite callChef_unfolds. unfold logAction. js_unfold.
  unfold retryWithBackoff. change (Z.to_nat 3) with 3%nat.
  now rewrite (attempts_success _ _ _ _ _ _ _ _ _
                 (chef_request_recipe (add_event (Logged "AI_REQUEST_START") w) recipe H)).
Qed.

Lemma callChef_first_empty p w :
  ai_outcome w (ai_calls w) = Return None ->
  callChef p w
  = (Return (Some EmptyObject), requested (add_event (Logged "AI_REQUEST_START") w)).
Proof.
  intros H. rewrite callChef_unfolds. unfold logAction. js_unfold.
  unfold retryWithBackoff. change (Z.to_nat 3) with 3%nat.
  now rewrite (attempts_success _ _ _ _ _ _ _ _ _
                 (chef_request_empty (add_event (Logged "AI_REQUEST_START") w) H)).
Qed.

Lemma callChef_first_failure p w e :
  ai_outcome w (ai_calls w) = Throw e -> isRateLimit e = false ->
  callChef p w
  = (Return None,
     add_event (Toast "Fehler bei der KI-Anfrage.")
       (add_event (Logged "AI_EXCEPTION")
          (requested (add_event (Logged "AI_REQUEST_START") w)))).
Proof.
  intros H He. rewrite callChef_unfolds. unfold logAction, showToast. js_unfold.
  unfold retryWithBackoff. change (Z.to_nat 3) with 3%nat.
  now rewrite (attempts_rethrow _ _ _ _ _ _ _ _ _
                 (chef_request_throw (add_event (Logged "AI_REQUEST_START") w) e H)
                 (or_introl He)).
Qed.

(** The click handler, once the prompt is there: loading, the request,
    and what follows from its result. *)
Lemma generate_click_runs w p :
  promptInput (form w) = Some p -> p <> "" ->
  generate_click w
  = (let (r, w1) := callChef (payload_of p (form w)) (add_event (Loading true) w) in
     match r with
     | Return (Some reply) =>
         (renderRecipeOutput reply;; clearDraft) (add_event (Loading false) w1)
     | Return None => (Return tt, add_event (Loading false) w1)
     | Throw e => (Throw e, w1)
     end).
Proof.
  intros Hp Hne. apply truthy_not_empty in Hne.
  unfold generate_click, startLoading, stopLoading, payload_of. js_unfold.
  rewrite Hp, Hne. cbn [negb]. cbv beta.
  change (form (add_event (Loading true) w)) with (form w).
  destruct (callChef _ _) as [[[reply |] | e] w1]; reflexivity.
Qed.

(** X13. A click on [btn-generate] with a prompt: the handler sends one
    to three requests and never touches the saved recipes, the shopping
    list or the form; the draft is either removed or left as it was.
    When the first request fails with an [Error] object that is no rate
    limit, the handler ends normally after that one request, keeps the whole
    storage, and has logged the failure and shown the error toast
    between switching the loading state on and off. When the first
    request answers with a recipe, the draft is removed after that one
    request and the recipe, as [JSON.parse] reads it, is rendered if the
    output element exists.
    When the first response has no text, the reply is the empty object:
    with an output element rendering throws a [TypeError], the handler
    ends with it, and the draft stays. *)
Theorem generate_click_outcome :
  forall (w : World) (p : string),
    promptInput (form w) = Some p -> p <> "" ->
    exists r w',
      generate_click w = (r, w')
      /\ savedRecipes (localStorage w') = savedRecipes (localStorage w)
      /\ shoppingList (localStorage w') = shoppingList (localStorage w)
      /\ form w' = form w
      /\ (ai_calls w < ai_calls w' <= ai_calls w + 3)%nat
      /\ (recipeDraft (localStorage w') = None
          \/ recipeDraft (localStorage w') = recipeDraft (localStorage w))
      /\ (forall name message,
            ai_outcome w (ai_calls w) = Throw (ErrorObject name message) ->
            isRateLimit (ErrorObject name message) = false ->
            r = Return tt
            /\ ai_calls w' = S (ai_calls w)
            /\ localStorage w' = localStorage w
            /\ events w'
               = events w ++ [Loading true; Logged "AI_REQUEST_START";
                              Logged "AI_EXCEPTION";
                              Toast "Fehler bei der KI-Anfrage."; Loading false])
      /\ (forall recipe, ai_outcome w (ai_calls w) = Return (Some (Json recipe)) ->
            r = Return tt
            /\ ai_calls w' = S (ai_calls w)
            /\ recipeDraft (localStorage w') = None
            /\ events w'
               = events w ++ [Loading true; Logged "AI_REQUEST_START"; Loading false]
                 ++ (if recipeOutput (form w)
                     then [RenderedRecipe (Recipe.read_back recipe)] else [])
                 ++ [DraftNotification true])
      /\ (ai_outcome w (ai_calls w) = Return None -> recipeOutput (form w) = true ->
            r = Throw TypeError
            /\ localStorage w' = localStorage w
            /\ events w'
               = events w ++ [Loading true; Logged "AI_REQUEST_START"; Loading false]).
Proof.
  intros w p Hp Hne.
  exists (fst (generate_click w)), (snd (generate_click w)).
  split; [apply surjective_pairing |].
  assert (Hgen : savedRecipes (localStorage (snd (generate_click w)))
                 = savedRecipes (localStorage w)
                 /\ shoppingList (localStorage (snd (generate_click w)))
                    = shoppingList (localStorage w)
                 /\ form (snd (generate_click w)) = form w
                 /\ (ai_calls w < ai_calls (snd (generate_click w)) <= ai_calls w + 3)%nat
                 /\ (recipeDraft (localStorage (snd (generate_click w))) = None
                     \/ recipeDraft (localStorage (snd (generate_click w)))
                        = recipeDraft (localStorage w))).
  { rewrite (generate_click_runs w p Hp Hne).
    destruct (callChef_data (payload_of p (form w)) (add_event (Loading true) w))
      as (r & w1 & Hrun & (Hls & Hform & _) & Hcalls & _).
    rewrite Hrun. simpl in Hls, Hform, Hcalls.
    destruct r as [reply |].
    - unfold renderRecipeOutput, clearDraft. js_unfold. simpl. rewrite Hform.
      destruct (recipeOutput (form w)); simpl.
      + destruct reply as [recipe |]; simpl; rewrite ?Hls, ?Hform;
          repeat split; try lia; auto.
      + rewrite ?Hls, ?Hform. repeat split; try lia; auto.
    - simpl. rewrite Hls, Hform. repeat split; try lia; auto. }
  destruct Hgen as (H1 & H2 & H3 & H4 & H5).
  repeat (split; [assumption |]).
  split; [| split].
  - intros name message He Hrate. rewrite (generate_click_runs w p Hp Hne).
    rewrite (callChef_first_failure _ (add_event (Loading true) w) _ He Hrate).
    simpl. rewrite <- !app_assoc. auto.
  - intros recipe Hrecipe. rewrite (generate_click_runs w p Hp Hne).
    rewrite (callChef_first_recipe _ (add_event (Loading true) w) recipe Hrecipe).
    unfold renderRecipeOutput, clearDraft. js_unfold. simpl.
    destruct (recipeOutput (form w)); simpl; rewrite <- !app_assoc; auto.
  - intros Hempty Hout. rewrite (generate_click_runs w p Hp Hne).
    rewrite (callChef_first_empty _ (add_event (Loading true) w) Hempty).
    unfold renderRecipeOutput, clearDraft. js_unfold. simpl. rewrite Hout. simpl.
    rewrite <- !app_assoc. auto.
Qed.

Lemma generate_click_outcome_witness :
  let w := with_form (typed_form "Pizza") (draft_written "Pizza" fresh_world) in
  exists w',
    generate_click w = (Return tt, w')
    /\ localStorage w' = localStorage w
    /\ ai_calls w' = 1%nat
    /\ events w' = [Loading true; Logged "AI_REQUEST_START"; Logged "AI_EXCEPTION";
                    Toast "Fehler bei der KI-Anfrage."; Loading false].
Proof.
  intros w.
  destruct (generate_click_outcome w "Pizza" eq_refl ltac:(discriminate))
    as (r & w' & Hrun & _ & _ & _ & _ & _ & Hfail & _).
  destruct (Hfail "Error"%string "Failed to fetch"%string eq_refl eq_refl)
    as (Hr & Hcalls & Hls & Hev).
  exists w'. subst r. auto.
Defined.

(** X14. [callChef] under rate limits. When the first [k] requests are
    rate-limited and [k] is below three, the recipe of request [k + 1],
    as [JSON.parse] reads it, is returned after [k] waits of 3000 ms,
    6000 ms; nothing is logged as a failure. When three requests in a row are rate-limited,
    [callChef] returns [null] after the third without a third wait, and
    the user sees the general error toast. *)
Theorem callChef_rate_limited :
  forall (p : payload) (w : World) (k : nat),
    (forall j, (j < k)%nat ->
               exists e, ai_outcome w (ai_calls w + j)%nat = Throw e
                         /\ isRateLimit e = true) ->
    (forall recipe,
        (k < 3)%nat ->
        ai_outcome w (ai_calls w + k)%nat = Return (Some (Json recipe)) ->
        exists w',
          callChef p w = (Return (Some (RecipeReply (Recipe.read_back recipe))), w')
          /\ ai_calls w' = (ai_calls w + k + 1)%nat
          /\ localStorage w' = localStorage w
          /\ events w'
             = events w ++ Logged "AI_REQUEST_START" :: (Waited <$> (backoff <$> seq 0 k)))
    /\ ((3 <= k)%nat ->
        exists w',
          callChef p w = (Return None, w')
          /\ ai_calls w' = (ai_calls w + 3)%nat
          /\ localStorage w' = localStorage w
          /\ events w'
             = events w ++ [Logged "AI_REQUEST_START"; Waited 3000; Waited 6000;
                            Logged "AI_EXCEPTION"; Toast "Fehler bei der KI-Anfrage."]).
Proof.
  intros p w k Hlimited.
  set (w0 := add_event (Logged "AI_REQUEST_START") w).
  assert (Hstart :
             callChef p w
             = try_catch (r ← retryWithBackoff (fun ms => add_event (Waited ms))
                                               chef_request 3;
                          mret (Some r))
                         (fun e =>
                            logAction "AI_EXCEPTION";;
                            showToast "Fehler bei der KI-Anfrage.";;
                            mret None) w0)
    by reflexivity.
  assert (Hfirst : forall e, ai_outcome w (ai_calls w) = Throw e ->
                             chef_request w0 = (Throw e, requested w0))
    by (intros e He; now apply chef_request_throw).
  set (w1 := add_event (Waited 3000) (requested w0)).
  assert (Hsecond : forall e, ai_outcome w (S (ai_calls w)) = Throw e ->
                              chef_request w1 = (Throw e, requested w1))
    by (intros e He; now apply chef_request_throw).
  set (w2 := add_event (Waited (3000 * 2)) (requested w1)).
  assert (Hthird : forall e, ai_outcome w (S (S (ai_calls w))) = Throw e ->
                             chef_request w2 = (Throw e, requested w2))
    by (intros e He; now apply chef_request_throw).
  split.
  - intros recipe Hk Hrecipe.
    destruct k as [| [| [| k]]]; [| | | lia].
    + rewrite Nat.add_0_r in Hrecipe.
      exists (requested w0). split; [| split; [| split]].
      * rewrite Hstart. js_unfold. unfold retryWithBackoff.
        change (Z.to_nat 3) with 3%nat.
        now rewrite (attempts_success _ _ _ _ _ _ _ _ _
                       (chef_request_recipe w0 recipe Hrecipe)).
      * simpl. lia.
      * reflexivity.
      * reflexivity.
    + destruct (Hlimited 0%nat ltac:(lia)) as (e1 & He1 & Hr1).
      rewrite Nat.add_0_r in He1. rewrite Nat.add_1_r in Hrecipe.
      exists (requested w1). split; [| split; [| split]].
      * rewrite Hstart. js_unfold. unfold retryWithBackoff.
        change (Z.to_nat 3) with 3%nat.
        rewrite (attempts_retry _ _ _ _ _ _ _ _ _ (Hfirst e1 He1) Hr1) by lia.
        now rewrite (attempts_success _ _ _ _ _ _ _ _ _
                       (chef_request_recipe w1 recipe Hrecipe)).
      * simpl. lia.
      * reflexivity.
      * simpl. now rewrite <- !app_assoc.
    + destruct (Hlimited 0%nat ltac:(lia)) as (e1 & He1 & Hr1).
      destruct (Hlimited 1%nat ltac:(lia)) as (e2 & He2 & Hr2).
      rewrite Nat.add_0_r in He1. rewrite Nat.add_1_r in He2.
      replace (ai_calls w + 2)%nat with (S (S (ai_calls w))) in Hrecipe by lia.
      exists (requested w2). split; [| split; [| split]].
      * rewrite Hstart. js_unfold. unfold retryWithBackoff.
        change (Z.to_nat 3) with 3%nat.
        rewrite (attempts_retry _ _ _ _ _ _ _ _ _ (Hfirst e1 He1) Hr1) by lia.
        rewrite (attempts_retry _ _ _ _ _ _ _ _ _ (Hsecond e2 He2) Hr2) by lia.
        now rewrite (attempts_success _ _ _ _ _ _ _ _ _
                       (chef_request_recipe w2 recipe Hrecipe)).
      * simpl. lia.
      * reflexivity.
      * simpl. now rewrite <- !app_assoc.
  - intros Hk.
    destruct (Hlimited 0%nat ltac:(lia)) as (e1 & He1 & Hr1).
    destruct (Hlimited 1%nat ltac:(lia)) as (e2 & He2 & Hr2).
    destruct (Hlimited 2%nat ltac:(lia)) as (e3 & He3 & Hr3).
    rewrite Nat.add_0_r in He1. rewrite Nat.add_1_r in He2.
    replace (ai_calls w + 2)%nat with (S (S (ai_calls w))) in He3 by lia.
    exists (add_event (Toast "Fehler bei der KI-Anfrage.")
              (add_event (Logged "AI_EXCEPTION") (requested w2))).
    split; [| split; [| split]].
    + rewrite Hstart. unfold logAction, showToast. js_unfold. unfold retryWithBackoff.
      change (Z.to_nat 3) with 3%nat.
      rewrite (attempts_retry _ _ _ _ _ _ _ _ _ (Hfirst e1 He1) Hr1) by lia.
      rewrite (attempts_retry _ _ _ _ _ _ _ _ _ (Hsecond e2 He2) Hr2) by lia.
      erewrite attempts_rethrow; [reflexivity | exact (Hthird e3 He3) | right; lia].
    + simpl. lia.
    + reflexivity.
    + simpl. now rewrite <- !app_assoc.
Qed.

Lemma callChef_rate_limited_witness :
  let w := with_ai (limited_then 2 (recipe_named "Pizza")) fresh_world in
  exists w',
    callChef (payload_of "Pizza" (typed_form "Pizza")) w
    = (Return (Some (RecipeReply (recipe_named "Pizza"))), w')
    /\ ai_calls w' = 3%nat
    /\ events w' = [Logged "AI_REQUEST_START"; Waited 3000; Waited 6000].
Proof.
  intros w.
  assert (Hlimited : forall j, (j < 2)%nat ->
            exists e, ai_outcome w (ai_calls w + j)%nat = Throw e
                      /\ isRateLimit e = true).
  { intros j Hj. exists (ErrorObject "Error" "429 Too Many Requests").
    destruct j as [| [| j]]; [split; reflexivity | split; reflexivity | lia]. }
  destruct (proj1 (callChef_rate_limited (payload_of "Pizza" (typed_form "Pizza")) w 2
                     Hlimited)
                  (recipe_named "Pizza") ltac:(lia) eq_refl)
    as (w' & Hrun & Hcalls & _ & Hev).
  exists w'. auto.
Defined.

(** ** A reply that is not JSON *)

Lemma chef_request_malformed w raw :
  JsString.truthy raw = true ->
  ai_outcome w (ai_calls w) = Return (Some (Malformed raw)) ->
  chef_request w = (Throw (SyntaxError (json_error w raw)), requested w).
Proof.
  intros Hraw H. unfold chef_request, requested. unfold mbind at 1, JS_bind.
  unfold generateContent at 1. cbn [snd generateContent]. rewrite H.
  cbn [blob_truthy]. rewrite Hraw. reflexivity.
Qed.

(** The retry wrapper reads the message of a [SyntaxError], and its
    name when the message is empty. *)
Lemma isRateLimit_SyntaxError message :
  isRateLimit (SyntaxError message)
  = JsString.includes "429" message || JsString.includes "Quota" message.
Proof.
  unfold isRateLimit, SyntaxError, errorStr.
  destruct message as [| c message]; reflexivity.
Qed.

(** X17. A reply whose text is not JSON makes [JSON.parse] throw inside
    the retried operation, so the message of the engine's [SyntaxError],
    which quotes the text, decides what happens: without ["429"] and
    ["Quota"] in it [callChef] returns [null] after this one request,
    with the failure logged and the error toast shown; with one of them
    the request is repeated after 3000 ms, and a recipe in the second
    reply is returned. *)
Theorem callChef_malformed_reply :
  forall (p : payload) (w : World) (raw : string),
    JsString.truthy raw = true ->
    ai_outcome w (ai_calls w) = Return (Some (Malformed raw)) ->
    (JsString.includes "429" (json_error w raw)
     || JsString.includes "Quota" (json_error w raw) = false ->
     callChef p w
     = (Return None,
        add_event (Toast "Fehler bei der KI-Anfrage.")
          (add_event (Logged "AI_EXCEPTION")
             (requested (add_event (Logged "AI_REQUEST_START") w)))))
    /\ (JsString.includes "429" (json_error w raw)
        || JsString.includes "Quota" (json_error w raw) = true ->
        forall recipe,
          ai_outcome w (S (ai_calls w)) = Return (Some (Json recipe)) ->
          callChef p w
          = (Return (Some (RecipeReply (Recipe.read_back recipe))),
             requested (add_event (Waited 3000)
                          (requested (add_event (Logged "AI_REQUEST_START") w))))).
Proof.
  intros p w raw Hraw H.
  pose proof (chef_request_malformed (add_event (Logged "AI_REQUEST_START") w) raw Hraw H)
    as Hfirst.
  cbn [json_error add_event] in Hfirst.
  split.
  - intros Hno. rewrite <- isRateLimit_SyntaxError in Hno.
    rewrite callChef_unfolds. unfold logAction, showToast. js_unfold.
    unfold retryWithBackoff. change (Z.to_nat 3) with 3%nat.
    now rewrite (attempts_rethrow _ _ _ _ _ _ _ _ _ Hfirst (or_introl Hno)).
  - intros Hyes recipe Hsecond. rewrite <- isRateLimit_SyntaxError in Hyes.
    rewrite callChef_unfolds. unfold logAction. js_unfold.
    unfold retryWithBackoff. change (Z.to_nat 3) with 3%nat.
    erewrite attempts_retry; [| exact Hfirst | exact Hyes | lia].
    now rewrite (attempts_success _ _ _ _ _ _ _ _ _
                   (chef_request_recipe
                      (add_event (Waited 3000)
                         (requested (add_event (Logged "AI_REQUEST_START") w)))
                      recipe Hsecond)).
Qed.

Lemma callChef_malformed_reply_witness :
  let w := with_ai (garbled_then "Error 429: quota" (recipe_named "Pizza")) fresh_world in
  exists w',
    callChef (payload_of "Pizza" (typed_form "Pizza")) w
    = (Return (Some (RecipeReply (recipe_named "Pizza"))), w')
    /\ ai_calls w' = 2%nat
    /\ events w' = [Logged "AI_REQUEST_START"; Waited 3000].
Proof.
  intros w.
  destruct (callChef_malformed_reply (payload_of "Pizza" (typed_form "Pizza")) w
              "Error 429: quota" eq_refl eq_refl) as [_ Hretry].
  specialize (Hretry eq_refl (recipe_named "Pizza") eq_refl).
  eexists. split; [exact Hretry |]. split; reflexivity.
Defined.

(** ** The draft and its notification *)

(** X15. [saveDraft] followed by [checkForDraft]: the notification is
    shown exactly when the prompt was not blank, and [checkForDraft]
    changes nothing else. Saving twice is the same as saving once.
    After [clearDraft], [checkForDraft] does nothing, whatever the slot
    held before. *)
Theorem draft_notification :
  forall w : World,
    exists w1,
      saveDraft w = (Return tt, w1)
      /\ saveDraft w1 = (Return tt, w1)
      /\ (forall p, promptInput (form w) = Some p -> JsString.trim p <> "" ->
                    checkForDraft w1
                    = (Return tt, add_event (DraftNotification false) w1))
      /\ ((promptInput (form w) = None
           \/ exists p, promptInput (form w) = Some p /\ JsString.trim p = "") ->
          checkForDraft w1 = (Return tt, w1))
      /\ checkForDraft (snd (clearDraft w)) = (Return tt, snd (clearDraft w)).
Proof.
  intros w. exists (snd (saveDraft w)).
  split; [| split; [| split; [| split]]].
  - unfold saveDraft. js_unfold.
    destruct (promptInput (form w)) as [p |]; [| reflexivity].
    destruct (JsString.truthy p && JsString.truthy (JsString.trim p)); reflexivity.
  - unfold saveDraft. js_unfold.
    destruct (promptInput (form w)) as [p |] eqn:Hp; [| simpl; now rewrite Hp].
    destruct (JsString.truthy p && JsString.truthy (JsString.trim p)) eqn:Ht;
      simpl; now rewrite Hp, Ht.
  - intros p Hp Ht. unfold saveDraft. js_unfold. rewrite Hp.
    pose proof (trim_not_empty p Ht) as Hne.
    apply truthy_not_empty in Ht, Hne. rewrite Ht, Hne. reflexivity.
  - intros [Hp | (p & Hp & Ht)]; unfold saveDraft; js_unfold; rewrite Hp.
    + reflexivity.
    + rewrite Ht, andb_false_r. reflexivity.
  - reflexivity.
Qed.

(** ** Shopping list: adding a batch again *)

(** A batch whose texts are all there already goes through the loop
    without a push and without a draw. *)
Lemma forEach_add_text_skips items :
  forall current w,
    Forall (fun text =>
              existsb (fun item => same_text (ShoppingItem.text item) text) current
              = true) items ->
    forEach add_text current items w = (Return current, w).
Proof.
  induction items as [| text items IH]; intros current w Hall; [reflexivity |].
  apply Forall_cons in Hall as [Hhere Hrest].
  cbn [forEach]. unfold mbind at 1, JS_bind. rewrite add_text_step, Hhere.
  now apply IH.
Qed.

(** X16. Adding the same batch a second time changes nothing: after
    [addToShoppingList items], another [addToShoppingList items] draws
    no id and writes the list that is stored already; only the list is
    rendered once more. *)
Theorem add_again_changes_nothing :
  forall (w : World) (items : list string),
    exists w1 w2 l,
      addToShoppingList items w = (Return tt, w1)
      /\ addToShoppingList items w1 = (Return tt, w2)
      /\ getShoppingList w1 = (Return l, w1)
      /\ getShoppingList w2 = (Return l, w2)
      /\ localStorage w2 = localStorage w1
      /\ random_calls w2 = random_calls w1
      /\ events w2 = events w1 ++ [RenderedShoppingList].
Proof.
  intros w items.
  destruct (forEach_add_text_appends items (read_blob (shoppingList (localStorage w))) w)
    as (added & w' & Hrun & _ & _ & _ & _ & _ & _ & _ & Hall).
  set (l := read_blob (shoppingList (localStorage w)) ++ added) in *.
  set (w1 := add_event RenderedShoppingList
               (set_localStorage (set_shoppingList (Some (Json l))) w')).
  assert (H1 : addToShoppingList items w = (Return tt, w1)).
  { unfold addToShoppingList. unfold mbind at 1, JS_bind.
    rewrite getShoppingList_reads. unfold mbind, JS_bind. rewrite Hrun.
    apply saveShoppingList_runs. }
  assert (H2 : addToShoppingList items w1
               = (Return tt,
                  add_event RenderedShoppingList
                    (set_localStorage (set_shoppingList (Some (Json l))) w1))).
  { unfold addToShoppingList. unfold mbind at 1, JS_bind.
    rewrite getShoppingList_reads. unfold mbind, JS_bind.
    change (read_blob (shoppingList (localStorage w1))) with l.
    rewrite (forEach_add_text_skips items l w1 Hall).
    apply saveShoppingList_runs. }
  exists w1, (add_event RenderedShoppingList
                (set_localStorage (set_shoppingList (Some (Json l))) w1)), l.
  split; [exact H1 |]. split; [exact H2 |].
  rewrite !getShoppingList_reads. repeat split.
Qed.
